(** * The FizzBuzz rule engine of [fizzbuzz_core.py] and its window

    A shallow embedding of the core module: the primality test, the
    Fibonacci set generator, the evaluation of one number against an ordered
    list of rule blocks, the classification of the outcome and the batch
    driver with its progress reports; and of the logic of the window of
    [fizzbuzz_gui.py]: the block editor, the handlers of the block list, the
    colours, the worker and the data of the heatmap.

    Python integers are [Z]; the property bag of a rule is a finite map from
    keys to dynamically typed values; exceptions are an explicit error
    result; the two floating point computations of the module
    ([int(math.sqrt(n))] and [(i + 1) / total * 100]) are binary64
    computations of the Standard Library's [SpecFloat]. *)

From Stdlib Require Import ZArith Znumtheory Lia String List.
From Stdlib Require Import Sorting.Sorted Sorting.Permutation.
From Stdlib Require Import Decimal DecimalString DecimalZ.
From Stdlib Require Import Floats.SpecFloat.
From stdpp Require Import base gmap sets list strings.

Open Scope Z_scope.

(** ** The Python run time the module relies on *)

(** Exceptions the module can raise.  [Diverges] is not a Python exception:
    it is the outcome of a [while] loop whose fuel ran out, and is shown
    never to occur. *)
Inductive exn : Type :=
| ValueError (msg : string)
| KeyError (key : string)
| TypeError
| ZeroDivisionError
| OverflowError
| Diverges.

Inductive result (A : Type) : Type :=
| Ok (a : A)
| Raise (e : exn).
Arguments Ok {A} a.
Arguments Raise {A} e.

#[global] Instance result_ret : MRet result := λ A a, Ok a.
#[global] Instance result_bind : MBind result := λ A B f m,
  match m with
  | Ok a => f a
  | Raise e => Raise e
  end.

(** Values stored in a property bag ([Dict[str, Any]]): the editor stores
    integers and strings. *)
Inductive value : Type :=
| VInt (z : Z)
| VStr (s : string).

#[global] Instance value_eq_dec : EqDecision value.
Proof. solve_decision. Defined.

(** [d[k]] *)
Definition getitem (d : gmap string value) (k : string) : result value :=
  match d !! k with
  | Some v => Ok v
  | None => Raise (KeyError k)
  end.

(** [d.get(k, default)] *)
Definition get (d : gmap string value) (k : string) (default : value) : value :=
  match d !! k with
  | Some v => v
  | None => default
  end.

(** [a % b] for an integer [a]: floored remainder, [ZeroDivisionError] on a
    zero divisor, [TypeError] on a string. *)
Definition py_mod (a : Z) (b : value) : result Z :=
  match b with
  | VInt d => if d =? 0 then Raise ZeroDivisionError else Ok (a mod d)
  | VStr _ => Raise TypeError
  end.

(** [a <= b]: integers compare with integers, a string with an integer
    raises [TypeError]; strings compare lexicographically. *)
Definition py_le (a b : value) : result bool :=
  match a, b with
  | VInt x, VInt y => Ok (x <=? y)
  | VStr s, VStr t => Ok (bool_decide (String.leb s t = true))
  | _, _ => Raise TypeError
  end.

(** [''.join(parts)] *)
Fixpoint join (parts : list value) : result string :=
  match parts with
  | [] => Ok EmptyString
  | VStr s :: rest => t ← join rest; Ok (s ++ t)%string
  | VInt _ :: _ => Raise TypeError
  end.

(** [str(n)] for an integer: its decimal numeral.  (The optional limit of
    the interpreter on the number of digits of such a conversion is a
    configuration of the run time and is left out.) *)
Definition str (n : Z) : string := NilZero.string_of_int (Z.to_int n).

(** [range(start, stop, step)] for a positive step. *)
Definition range (start stop step : Z) : list Z :=
  map (λ k : nat, start + step * Z.of_nat k)
      (seq 0 (Z.to_nat ((stop - start + step - 1) / step))).

(** [enumerate(l)] *)
Definition enumerate {A : Type} (l : list A) : list (Z * A) :=
  combine (map Z.of_nat (seq 0 (length l))) l.

(** [sorted(l, key=key)]: ascending and stable.  An element is inserted in
    front of the first element of the sorted tail whose key is not smaller,
    so that elements with equal keys keep their relative order. *)
Fixpoint insert_by {A : Type} (key : A → Z) (x : A) (l : list A) : list A :=
  match l with
  | [] => [x]
  | y :: l' => if key x <=? key y then x :: y :: l' else y :: insert_by key x l'
  end.

Fixpoint sorted {A : Type} (key : A → Z) (l : list A) : list A :=
  match l with
  | [] => []
  | x :: l' => insert_by key x (sorted key l')
  end.

(** *** binary64

    Python floats are IEEE 754 binary64 numbers.  The operations below are
    those of [SpecFloat] at precision 53: the conversion of an integer and
    the quotient of two integers round the exact value to nearest, ties to
    even, and raise [OverflowError] where the rounded value is infinite;
    [math.sqrt] and the product are the correctly rounded IEEE operations;
    [int] truncates. *)

Definition prec : Z := 53.
Definition emax : Z := 1024.

(** Conversion of an integer to a float, rounding to nearest even;
    [OverflowError] when the integer is too large. *)
Definition float_of_int (n : Z) : result spec_float :=
  match binary_normalize prec emax n 0 false with
  | S754_infinity _ => Raise OverflowError
  | x => Ok x
  end.

(** [math.sqrt(n)] on an integer argument. *)
Definition math_sqrt (n : Z) : result spec_float :=
  x ← float_of_int n;
  match x with
  | S754_finite true _ _ => Raise (ValueError "math domain error")
  | _ => Ok (SFsqrt prec emax x)
  end.

(** [int(x)]: truncation toward zero. *)
Definition int_of_float (x : spec_float) : result Z :=
  match x with
  | S754_zero _ => Ok 0
  | S754_infinity _ => Raise OverflowError
  | S754_nan => Raise (ValueError "cannot convert float NaN to integer")
  | S754_finite s m e =>
      Ok (cond_Zopp s (if 0 <=? e then Z.pos m * 2 ^ e else Z.pos m / 2 ^ (- e)))
  end.

(** [a / b] on integers: the correctly rounded quotient. *)
Definition truediv (a b : Z) : result spec_float :=
  if b =? 0 then Raise ZeroDivisionError
  else if a =? 0 then Ok (S754_zero (b <? 0))
  else
    let '(q, e, l) := SFdiv_core_binary prec emax (Z.abs a) 0 (Z.abs b) 0 in
    match binary_round_aux prec emax (xorb (a <? 0) (b <? 0)) q e l with
    | S754_infinity _ => Raise OverflowError
    | x => Ok x
    end.

(** [x * n] for a float [x] and an integer [n]. *)
Definition float_mul_int (x : spec_float) (n : Z) : result spec_float :=
  y ← float_of_int n; Ok (SFmul prec emax x y).

(** ** Data model *)

Inductive BlockType : Type := DIVISOR | PRIME | FIBONACCI | RANGE.

#[global] Instance BlockType_eq_dec : EqDecision BlockType.
Proof. solve_decision. Defined.

Record RuleBlock : Type := {
  id : string;
  block_type : BlockType;
  name : string;
  properties : gmap string value;
  order : Z
}.

Record FizzBuzzResult : Type := {
  number : Z;
  text : string;
  result_type : string;
  matching_blocks : list RuleBlock
}.

(** ** [is_prime] *)

(** The [for] loop over the candidate divisors. *)
Fixpoint is_prime_loop (n : Z) (candidates : list Z) : bool :=
  match candidates with
  | [] => true
  | i :: rest => if n mod i =? 0 then false else is_prime_loop n rest
  end.

Definition is_prime (n : Z) : result bool :=
  if n <? 2 then Ok false
  else if n =? 2 then Ok true
  else if n mod 2 =? 0 then Ok false
  else
    x ← math_sqrt n;
    r ← int_of_float x;
    Ok (is_prime_loop n (range 3 (r + 1) 2)).

(** ** [generate_fibonacci_set] *)

(** The [while b <= max_value] loop, with fuel. *)
Fixpoint fib_while (fuel : nat) (max_value a b : Z) (fibonacci_set : gset Z)
  : result (gset Z) :=
  if b <=? max_value then
    match fuel with
    | O => Raise Diverges
    | S fuel' => fib_while fuel' max_value b (a + b) ({[b]} ∪ fibonacci_set)
    end
  else Ok fibonacci_set.

Definition generate_fibonacci_set (max_value : Z) : result (gset Z) :=
  if max_value <? 1 then Ok ∅
  else fib_while (Z.to_nat max_value) max_value 1 1 {[1]}.

(** ** [get_result_type]

    The four kinds are all the members of [BlockType], so the final [else]
    of the single-block case (tag [combination] for any other kind) has no
    case of its own here. *)

Definition get_result_type (result_parts : list value)
    (matching_blocks : list RuleBlock) : string :=
  match result_parts with
  | [] => "number"
  | _ :: _ =>
      match matching_blocks with
      | [block] =>
          match block_type block with
          | DIVISOR =>
              let word := get (properties block) "word" (VStr "") in
              if bool_decide (word = VStr "Fizz") then "Fizz"
              else if bool_decide (word = VStr "Buzz") then "Buzz"
              else "divisor_custom"
          | PRIME => "Prime"
          | FIBONACCI => "Fib"
          | RANGE => "range_custom"
          end
      | _ =>
          let fizz_blocks :=
            List.filter (λ b, bool_decide (block_type b = DIVISOR)
                              && bool_decide ((properties b !! "word") = Some (VStr "Fizz")))
                        matching_blocks in
          let buzz_blocks :=
            List.filter (λ b, bool_decide (block_type b = DIVISOR)
                              && bool_decide ((properties b !! "word") = Some (VStr "Buzz")))
                        matching_blocks in
          match fizz_blocks, buzz_blocks with
          | _ :: _, _ :: _ => "FizzBuzz"
          | _, _ => "combination"
          end
      end
  end.

(** ** [process_number] *)

(** The [if]/[elif] chain that decides whether a block matches. *)
Definition block_matches (number : Z) (fibonacci_set : gset Z) (block : RuleBlock)
  : result bool :=
  c ← (if bool_decide (block_type block = DIVISOR)
       then d ← getitem (properties block) "divisor";
            r ← py_mod number d;
            Ok (r =? 0)
       else Ok false);
  if c : bool then Ok true else
  c ← (if bool_decide (block_type block = PRIME) then is_prime number else Ok false);
  if c : bool then Ok true else
  if bool_decide (block_type block = FIBONACCI) && bool_decide (number ∈ fibonacci_set)
  then Ok true else
  if bool_decide (block_type block = RANGE) then
    let props := properties block in
    s ← getitem props "start";
    c ← py_le s (VInt number);
    if c : bool then e ← getitem props "end"; py_le (VInt number) e
    else Ok false
  else Ok false.

(** The [for] loop over the sorted blocks. *)
Fixpoint process_loop (number : Z) (fibonacci_set : gset Z) (blocks : list RuleBlock)
    (result_parts : list value) (matching_blocks : list RuleBlock)
  : result (list value * list RuleBlock) :=
  match blocks with
  | [] => Ok (result_parts, matching_blocks)
  | block :: rest =>
      m ← block_matches number fibonacci_set block;
      if m : bool then
        w ← getitem (properties block) "word";
        process_loop number fibonacci_set rest (result_parts ++ [w]) (matching_blocks ++ [block])
      else process_loop number fibonacci_set rest result_parts matching_blocks
  end.

Definition process_number (number : Z) (blocks : list RuleBlock)
    (fibonacci_set : option (gset Z)) : result FizzBuzzResult :=
  let fibonacci_set := match fibonacci_set with None => ∅ | Some s => s end in
  '(result_parts, matching_blocks) ←
    process_loop number fibonacci_set (sorted order blocks) [] [];
  final_text ← match result_parts with
               | [] => Ok (str number)
               | _ :: _ => join result_parts
               end;
  let result_type := get_result_type result_parts matching_blocks in
  Ok {| number := number; text := final_text; result_type := result_type;
        matching_blocks := matching_blocks |}.

(** ** [generate_fizzbuzz_batch] *)

(** What a run does that its caller can observe besides the returned list:
    the calls of [process_number] and the calls of the progress callback
    with their argument.  The run returns its outcome together with the
    trace of these events; [progress_callback] tells whether the caller
    supplied a callback. *)
Inductive event : Type :=
| Evaluate (number : Z)
| Progress (percent : spec_float).

Fixpoint batch_loop (progress_callback : bool) (total_numbers : Z)
    (blocks : list RuleBlock) (fibonacci_set : gset Z) (items : list (Z * Z))
    (results : list FizzBuzzResult) (trace : list event)
  : result (list FizzBuzzResult) * list event :=
  match items with
  | [] => (Ok results, trace)
  | (i, number) :: rest =>
      let trace := trace ++ [Evaluate number] in
      match process_number number blocks (Some fibonacci_set) with
      | Raise e => (Raise e, trace)
      | Ok r =>
          let results := results ++ [r] in
          if progress_callback && (((i + 1) mod 50 =? 0) || (i =? total_numbers - 1)) then
            match q ← truediv (i + 1) total_numbers; float_mul_int q 100 with
            | Raise e => (Raise e, trace)
            | Ok progress =>
                batch_loop progress_callback total_numbers blocks fibonacci_set rest
                           results (trace ++ [Progress progress])
            end
          else
            batch_loop progress_callback total_numbers blocks fibonacci_set rest
                       results trace
      end
  end.

Definition generate_fizzbuzz_batch (start end_ : Z) (blocks : list RuleBlock)
    (progress_callback : bool) : result (list FizzBuzzResult) * list event :=
  match blocks with
  | [] => (Raise (ValueError "No blocks defined"), [])
  | _ :: _ =>
      if start >=? end_ then (Raise (ValueError "Start must be less than end"), [])
      else if start <? 1 then (Raise (ValueError "Start must be at least 1"), [])
      else
        match (if existsb (λ b, bool_decide (block_type b = FIBONACCI)) blocks
               then generate_fibonacci_set end_ else Ok ∅) with
        | Raise e => (Raise e, [])
        | Ok fibonacci_set =>
            let total_numbers := end_ - start + 1 in
            batch_loop progress_callback total_numbers blocks fibonacci_set
                       (enumerate (range start (end_ + 1) 1)) [] []
        end
  end.

(** ** Notions the statements refer to *)

(** The fields of a property bag, read as the evaluator reads them when the
    block is well formed. *)
Definition int_property (b : RuleBlock) (k : string) : Z :=
  match properties b !! k with
  | Some (VInt z) => z
  | _ => 0
  end.

Definition word (b : RuleBlock) : string :=
  match properties b !! "word" with
  | Some (VStr s) => s
  | _ => EmptyString
  end.

(** A block the evaluator can process without a lookup, type or division
    error: it has a string word, a divisor-rule has a non-zero integer
    divisor, a range-rule has integer bounds. *)
Definition well_formed (b : RuleBlock) : Prop :=
  (∃ w, properties b !! "word" = Some (VStr w)) ∧
  match block_type b with
  | DIVISOR => ∃ d, properties b !! "divisor" = Some (VInt d) ∧ d ≠ 0
  | RANGE => ∃ s e, properties b !! "start" = Some (VInt s)
                    ∧ properties b !! "end" = Some (VInt e)
  | PRIME | FIBONACCI => True
  end.

(** The primality test returns on [n] if some block needs it. *)
Definition prime_defined (n : Z) (blocks : list RuleBlock) : Prop :=
  (∃ b, In b blocks ∧ block_type b = PRIME) → ∃ p, is_prime n = Ok p.

#[global] Instance exn_eq_dec : EqDecision exn.
Proof. solve_decision. Defined.

#[global] Instance result_eq_dec {A : Type} `{EqDecision A} : EqDecision (result A).
Proof. solve_decision. Defined.

(** The kind-specific condition of a rule on a number. *)
Definition rule_holds (n : Z) (fib_set : gset Z) (b : RuleBlock) : bool :=
  match block_type b with
  | DIVISOR => n mod int_property b "divisor" =? 0
  | PRIME => bool_decide (is_prime n = Ok true)
  | FIBONACCI => bool_decide (n ∈ fib_set)
  | RANGE => (int_property b "start" <=? n) && (n <=? int_property b "end")
  end.

(** A divisor-rule whose word is exactly [w]. *)
Definition divisor_with_word (w : string) (b : RuleBlock) : bool :=
  bool_decide (block_type b = DIVISOR)
  && bool_decide (properties b !! "word" = Some (VStr w)).

(** The classification tag as the specification words it. *)
Definition classify (matched : list RuleBlock) : string :=
  match matched with
  | [] => "number"
  | [b] =>
      match block_type b with
      | DIVISOR =>
          if divisor_with_word "Fizz" b then "Fizz"
          else if divisor_with_word "Buzz" b then "Buzz"
          else "divisor_custom"
      | PRIME => "Prime"
      | FIBONACCI => "Fib"
      | RANGE => "range_custom"
      end
  | _ :: _ :: _ =>
      if existsb (divisor_with_word "Fizz") matched
         && existsb (divisor_with_word "Buzz") matched
      then "FizzBuzz" else "combination"
  end.

(** The Fibonacci sequence 0, 1, 1, 2, 3, 5, 8, ...; the specification's
    sequence 1, 1, 2, 3, 5, 8, ... is [fib k] for [k >= 1]. *)
Fixpoint fib (k : nat) : Z :=
  match k with
  | O => 0
  | S k' => match k' with
            | O => 1
            | S k'' => fib k'' + fib k'
            end
  end.

(** The exponent function of binary64 and the float 100.0. *)
Abbreviation fexp64 := (fexp prec emax).

Definition hundred : spec_float := S754_finite false 7036874417766400 (-46).

(** The float that the last step of [binary_round_aux] builds from a
    mantissa and an exponent. *)
Definition float_of_parts (sx : bool) (m e : Z) : spec_float :=
  match m with
  | Z0 => S754_zero sx
  | Zpos p => if e <=? emax - prec then S754_finite sx p e else S754_infinity sx
  | Zneg _ => S754_nan
  end.

(** A shift record that has lost no bit. *)
Definition rec_exact (mrs : shr_record) : Prop :=
  shr_r mrs = false ∧ shr_s mrs = false.

(** The rules that match a number, in the order of evaluation. *)
Definition matched (n : Z) (fib_set : gset Z) (blocks : list RuleBlock) : list RuleBlock :=
  List.filter (rule_holds n fib_set) (sorted order blocks).

(** Ascending keys. *)
Definition key_le {A : Type} (key : A → Z) (x y : A) : Prop := key x <= key y.

(** [(processed / total) * 100], the argument of the progress callback. *)
Definition percentage (processed total : Z) : result spec_float :=
  q ← truediv processed total; float_mul_int q 100.

Definition progress_of (processed total : Z) : spec_float :=
  match percentage processed total with
  | Ok x => x
  | Raise _ => S754_nan
  end.

(** The callback fires after the [processed]-th number of [total]. *)
Definition reports (processed total : Z) : bool :=
  (processed mod 50 =? 0) || (processed =? total).

(** What a run with [total] numbers does for its [processed]-th number. *)
Definition step_events (progress_callback : bool) (start total processed : Z)
  : list event :=
  Evaluate (start + processed - 1)
  :: (if progress_callback && reports processed total
      then [Progress (progress_of processed total)] else []).


Definition has_fibonacci (blocks : list RuleBlock) : bool :=
  existsb (λ b, bool_decide (block_type b = FIBONACCI)) blocks.

Definition no_ValueError {A : Type} (r : result A) : Prop :=
  ∀ msg, r ≠ Raise (ValueError msg).



(** Rules for examples. *)
Definition divisor_rule (d : Z) (w : string) (o : Z) : RuleBlock :=
  {| id := ""; block_type := DIVISOR; name := w;
     properties := <["divisor" := VInt d]> (<["word" := VStr w]> ∅); order := o |}.

Definition word_rule (kind : BlockType) (w : string) (o : Z) : RuleBlock :=
  {| id := ""; block_type := kind; name := w;
     properties := <["word" := VStr w]> ∅; order := o |}.

Definition range_rule (s e : Z) (w : string) (o : Z) : RuleBlock :=
  {| id := ""; block_type := RANGE; name := w;
     properties := <["start" := VInt s]> (<["end" := VInt e]> (<["word" := VStr w]> ∅));
     order := o |}.

Definition fizz_buzz : list RuleBlock :=
  [divisor_rule 3 "Fizz" 0; divisor_rule 5 "Buzz" 1].

(** One rule of each kind, listed out of order. *)
Definition all_kinds : list RuleBlock :=
  [word_rule PRIME "Prime" 2; divisor_rule 5 "Buzz" 1; range_rule 10 20 "Teen" 4;
   divisor_rule 3 "Fizz" 0; word_rule FIBONACCI "Fib" 3].

(** ** Further notions of the rule engine *)


(** A divisor-rule whose divisor is the integer 0. *)
Definition zero_divisor (b : RuleBlock) : Prop :=
  block_type b = DIVISOR ∧ properties b !! "divisor" = Some (VInt 0).

(** The numbers a run evaluated, in order. *)
Definition evaluations (trace : list event) : list Z :=
  flat_map (λ ev, match ev with Evaluate n => [n] | Progress _ => [] end) trace.

(** The Fibonacci set a batch run computes before its loop. *)
Definition batch_fibonacci_set (end_ : Z) (blocks : list RuleBlock) : gset Z :=
  match (if has_fibonacci blocks then generate_fibonacci_set end_ else Ok ∅) with
  | Ok s => s
  | Raise _ => ∅
  end.

(** * The window of [fizzbuzz_gui.py]

    The state of the application is the list of rule blocks and the map
    from block ids to colours; the handlers of the buttons are functions on
    that state.  Widgets, layout and drawing are left out: what is modelled
    is what the handlers do to the state, and the data that the worker and
    the heatmap compute from results. *)

(** ** Python values in the window's code *)

(** The truth value of a stored value ([if word], [not properties['word']]). *)
Definition truthy (v : value) : bool :=
  match v with
  | VInt z => negb (z =? 0)
  | VStr s => negb (bool_decide (s = EmptyString))
  end.

(** A stored value inside an f-string. *)
Definition format_value (v : value) : string :=
  match v with
  | VInt z => str z
  | VStr s => s
  end.



(** ** [BlockWidget.get_description] *)


(** ** [BlockEditorDialog]

    The texts of the entry fields are the inputs.  [int] and [strip] are the
    interpreter's [int(text)] and [text.strip()]; [uuid4] is the identifier
    that [str(uuid.uuid4())] yields for a new block. *)
Section Editor.
Variable int : string → result Z.
Variable strip : string → string.

Definition get_properties (block_type : BlockType)
    (divisor_entry start_entry end_entry word_entry : string)
  : result (gmap string value) :=
  match block_type with
  | DIVISOR =>
      divisor ← int divisor_entry;
      if divisor <=? 0 then Raise (ValueError "Divisor must be positive")
      else Ok (<["word" := VStr (strip word_entry)]> (<["divisor" := VInt divisor]> ∅))
  | PRIME | FIBONACCI =>
      Ok (<["word" := VStr (strip word_entry)]> ∅)
  | RANGE =>
      start ← int start_entry;
      end_ ← int end_entry;
      if start >=? end_ then Raise (ValueError "Start must be less than end")
      else Ok (<["word" := VStr (strip word_entry)]>
                 (<["end" := VInt end_]> (<["start" := VInt start]> ∅)))
  end.

(** A click on Save either stores a block in [self.result] (left) or shows
    the message of a [ValueError] in an error box and stores nothing
    (right); any other exception escapes. *)
Definition save_block (block : option RuleBlock) (block_type : BlockType) (uuid4 : string)
    (name_entry divisor_entry start_entry end_entry word_entry : string)
  : result (RuleBlock + string) :=
  match
    let name := strip name_entry in
    if bool_decide (name = EmptyString) then Raise (ValueError "Name is required")
    else
      properties ← get_properties block_type divisor_entry start_entry end_entry word_entry;
      if match properties !! "word" with
         | Some w => negb (truthy w)
         | None => false
         end
      then Raise (ValueError "Replacement word is required")
      else
        Ok {| id := match block with Some b => id b | None => uuid4 end;
              block_type := block_type;
              name := name;
              properties := properties;
              order := match block with Some b => order b | None => 0 end |}
  with
  | Ok result => Ok (inl result)
  | Raise (ValueError msg) => Ok (inr msg)
  | Raise e => Raise e
  end.

End Editor.

(** ** The state of the window *)

Record GUI : Type := {
  blocks : list RuleBlock;
  block_colors : gmap string string;
  is_generating : bool
}.

(** [block.order = i] *)
Definition set_order (block : RuleBlock) (i : Z) : RuleBlock :=
  {| id := id block; block_type := block_type block; name := name block;
     properties := properties block; order := i |}.

(** How a handler ends.  The random generator is the list of the numbers
    it will draw; a handler that is still drawing colours when the list is
    used up has not returned. *)
Inductive outcome : Type :=
| Returns (gui : GUI) (rng : list nat)
| RaisesStopIteration
| StillDrawing.

(** ** Colours *)

(** The list [colors] of [generate_random_color]. *)
Definition colors : list string :=
  ["#FF6B6B"; "#4ECDC4"; "#45B7D1"; "#96CEB4"; "#FFEAA7";
   "#DDA0DD"; "#98D8C8"; "#F7DC6F"; "#BB8FCE"; "#85C1E9";
   "#F8C471"; "#82E0AA"; "#F1948A"; "#85CEBC"; "#D7BDE2"].

(** [random.choice(colors)] when the generator draws [k]. *)
Definition generate_random_color (k : nat) : string :=
  nth (k mod length colors) colors EmptyString.

(** The loop [while color in self.block_colors.values()]. *)
Fixpoint assign_while (block_colors : gmap string string) (color : string)
    (rng : list nat) : option (string * list nat) :=
  if bool_decide (color ∈ (map_to_list block_colors).*2) then
    match rng with
    | [] => None
    | k :: rng' => assign_while block_colors (generate_random_color k) rng'
    end
  else Some (color, rng).

Definition assign_block_color (block_colors : gmap string string) (block : RuleBlock)
    (rng : list nat) : option (string * list nat) :=
  let word := get (properties block) "word" (VStr "") in
  if bool_decide (block_type block = DIVISOR) && bool_decide (word = VStr "Fizz")
  then Some ("#3B82F6", rng)
  else if bool_decide (block_type block = DIVISOR) && bool_decide (word = VStr "Buzz")
  then Some ("#EF4444", rng)
  else
    match rng with
    | [] => None
    | k :: rng' => assign_while block_colors (generate_random_color k) rng'
    end.

(** ** [refresh_workspace]: every block without a colour gets one *)

Fixpoint refresh_loop (sorted_blocks : list RuleBlock) (block_colors : gmap string string)
    (rng : list nat) : option (gmap string string * list nat) :=
  match sorted_blocks with
  | [] => Some (block_colors, rng)
  | block :: rest =>
      match block_colors !! id block with
      | Some _ => refresh_loop rest block_colors rng
      | None =>
          match assign_block_color block_colors block rng with
          | Some (color, rng') =>
              refresh_loop rest (<[id block := color]> block_colors) rng'
          | None => None
          end
      end
  end.

Definition refresh_workspace (gui : GUI) (rng : list nat) : outcome :=
  match refresh_loop (sorted order (blocks gui)) (block_colors gui) rng with
  | Some (block_colors, rng') =>
      Returns {| blocks := blocks gui; block_colors := block_colors;
                 is_generating := is_generating gui |} rng'
  | None => StillDrawing
  end.

(** ** The handlers of the block list *)

Definition create_default_blocks (fizz_id buzz_id : string) (gui : GUI) (rng : list nat)
  : outcome :=
  refresh_workspace
    {| blocks :=
         [ {| id := fizz_id; block_type := DIVISOR; name := "Fizz";
              properties := <["word" := VStr "Fizz"]> (<["divisor" := VInt 3]> ∅);
              order := 0 |};
           {| id := buzz_id; block_type := DIVISOR; name := "Buzz";
              properties := <["word" := VStr "Buzz"]> (<["divisor" := VInt 5]> ∅);
              order := 1 |} ];
       block_colors := <[buzz_id := "#EF4444"]> (<[fizz_id := "#3B82F6"]> (block_colors gui));
       is_generating := is_generating gui |}
    rng.

Definition reorder_blocks (blocks : list RuleBlock) : list RuleBlock :=
  map (λ '(i, block), set_order block i) (enumerate blocks).

(** [dialog_result] is [dialog.result] when the dialog is closed. *)
Definition add_block (dialog_result : option RuleBlock) (gui : GUI) (rng : list nat)
  : outcome :=
  match dialog_result with
  | Some result =>
      refresh_workspace
        {| blocks := blocks gui ++ [set_order result (Z.of_nat (length (blocks gui)))];
           block_colors := block_colors gui;
           is_generating := is_generating gui |}
        rng
  | None => Returns gui rng
  end.

(** The loop of [edit_block]: the first block with the identifier is
    replaced. *)
Fixpoint edit_loop (block_id : string) (result : RuleBlock) (blocks : list RuleBlock)
  : list RuleBlock :=
  match blocks with
  | [] => []
  | b :: rest =>
      if bool_decide (id b = block_id) then result :: rest
      else b :: edit_loop block_id result rest
  end.

Definition edit_block (block : RuleBlock) (dialog_result : option RuleBlock) (gui : GUI)
    (rng : list nat) : outcome :=
  match dialog_result with
  | Some result =>
      refresh_workspace
        {| blocks := edit_loop (id block) result (blocks gui);
           block_colors := block_colors gui;
           is_generating := is_generating gui |}
        rng
  | None => Returns gui rng
  end.

Definition delete_block (block_id : string) (gui : GUI) (rng : list nat) : outcome :=
  let blocks := List.filter (λ b, negb (bool_decide (id b = block_id))) (blocks gui) in
  let block_colors :=
    match block_colors gui !! block_id with
    | Some _ => delete block_id (block_colors gui)
    | None => block_colors gui
    end in
  refresh_workspace
    {| blocks := reorder_blocks blocks; block_colors := block_colors;
       is_generating := is_generating gui |}
    rng.

(** [next(i for i, b in enumerate(blocks) if b.id == block_id)] *)
Fixpoint next_index (block_id : string) (items : list (Z * RuleBlock)) : option Z :=
  match items with
  | [] => None
  | (i, b) :: rest => if bool_decide (id b = block_id) then Some i else next_index block_id rest
  end.

(** [l[i], l[j] = l[j], l[i]] for indices inside the list. *)
Definition swap {A : Type} (l : list A) (i j : Z) : list A :=
  match l !! Z.to_nat i, l !! Z.to_nat j with
  | Some x, Some y => <[Z.to_nat j := x]> (<[Z.to_nat i := y]> l)
  | _, _ => l
  end.

Definition move_block (block_id : string) (direction : Z) (gui : GUI) (rng : list nat)
  : outcome :=
  match next_index block_id (enumerate (blocks gui)) with
  | None => RaisesStopIteration
  | Some block_index =>
      if (direction <? 0) && (0 <? block_index) then
        refresh_workspace
          {| blocks := reorder_blocks (swap (blocks gui) block_index (block_index - 1));
             block_colors := block_colors gui;
             is_generating := is_generating gui |}
          rng
      else if (0 <? direction) && (block_index <? Z.of_nat (length (blocks gui)) - 1) then
        refresh_workspace
          {| blocks := reorder_blocks (swap (blocks gui) block_index (block_index + 1));
             block_colors := block_colors gui;
             is_generating := is_generating gui |}
          rng
      else Returns gui rng
  end.

Definition clear_all_blocks (gui : GUI) (rng : list nat) : outcome :=
  refresh_workspace {| blocks := []; block_colors := ∅; is_generating := is_generating gui |}
                    rng.

(** ** [generate_fizzbuzz] and its worker *)

(** How a click on Generate ends: nothing happens while a run is under way,
    an error box shows the message of a [ValueError], or the worker thread
    is started on the range. *)
Inductive generate_outcome : Type :=
| Ignored
| InvalidInput (msg : string)
| WorkerStarted (start end_ : Z).

Section Generate.
Variable int : string → result Z.

Definition generate_fizzbuzz (start_entry end_entry : string) (gui : GUI)
  : result (GUI * generate_outcome) :=
  if is_generating gui then Ok (gui, Ignored)
  else
    match
      start ← int start_entry;
      end_ ← int end_entry;
      if start >=? end_ then Raise (ValueError "Start must be less than end")
      else if start <? 1 then Raise (ValueError "Start must be at least 1")
      else match blocks gui with
           | [] => Raise (ValueError "No blocks defined")
           | _ :: _ => Ok (start, end_)
           end
    with
    | Ok (start, end_) =>
        Ok ({| blocks := blocks gui; block_colors := block_colors gui;
               is_generating := true |},
            WorkerStarted start end_)
    | Raise (ValueError msg) => Ok (gui, InvalidInput msg)
    | Raise e => Raise e
    end.

End Generate.




(** ** The heatmap *)

Definition has_fizz_and_buzz (gui : GUI) : bool :=
  let has_fizz :=
    existsb (λ b, bool_decide (properties b !! "word" = Some (VStr "Fizz")))
            (List.filter (λ b, bool_decide (block_type b = DIVISOR)) (blocks gui)) in
  let has_buzz :=
    existsb (λ b, bool_decide (properties b !! "word" = Some (VStr "Buzz")))
            (List.filter (λ b, bool_decide (block_type b = DIVISOR)) (blocks gui)) in
  has_fizz && has_buzz.

(** The loop of [get_type_value]; [None] when it ends without [return]. *)
Fixpoint type_value_loop (result_type : string) (sorted_blocks : list RuleBlock) (value : Z)
  : option Z :=
  match sorted_blocks with
  | [] => None
  | block :: rest =>
      let word := get (properties block) "word" (VStr "") in
      if (bool_decide (result_type = "Fizz") && bool_decide (word = VStr "Fizz"))
         || (bool_decide (result_type = "Buzz") && bool_decide (word = VStr "Buzz"))
         || (bool_decide (result_type = "Prime") && bool_decide (block_type block = PRIME))
         || (bool_decide (result_type = "Fib") && bool_decide (block_type block = FIBONACCI))
         || (bool_decide (result_type = "divisor_custom")
             && bool_decide (block_type block = DIVISOR)
             && negb (bool_decide (word = VStr "Fizz") || bool_decide (word = VStr "Buzz")))
         || (bool_decide (result_type = "range_custom") && bool_decide (block_type block = RANGE))
      then Some value
      else type_value_loop result_type rest (value + 1)
  end.

Definition get_type_value (gui : GUI) (result_type : string) : Z :=
  if bool_decide (result_type = "number") then 0
  else
    match type_value_loop result_type (sorted order (blocks gui)) 1 with
    | Some value => value
    | None =>
        if bool_decide (result_type = "FizzBuzz") && has_fizz_and_buzz gui
        then Z.of_nat (length (blocks gui)) + 1
        else if bool_decide (result_type = "combination")
        then Z.of_nat (length (blocks gui)) + 2
        else Z.of_nat (length (blocks gui)) + 2
    end.

(** The loop of [get_colors_and_labels] over the sorted blocks. *)
Fixpoint colors_loop (block_colors : gmap string string) (sorted_blocks : list RuleBlock)
    (colors : list string) (labels : list value) : list string * list value :=
  match sorted_blocks with
  | [] => (colors, labels)
  | block :: rest =>
      let word := get (properties block) "word" (VStr "") in
      if truthy word then
        match block_colors !! id block with
        | Some color =>
            colors_loop block_colors rest (colors ++ [color])
              (labels ++ [match block_type block with
                          | PRIME => VStr ("Prime (" ++ format_value word ++ ")")
                          | FIBONACCI => VStr ("Fib (" ++ format_value word ++ ")")
                          | _ => word
                          end])
        | None => colors_loop block_colors rest colors labels
        end
      else colors_loop block_colors rest colors labels
  end.

Definition get_colors_and_labels (gui : GUI) : list string * list value :=
  let '(colors, labels) :=
    colors_loop (block_colors gui) (sorted order (blocks gui)) ["#E5E7EB"] [VStr "Numbers"] in
  let '(colors, labels) :=
    if has_fizz_and_buzz gui then (colors ++ ["#8B5CF6"], labels ++ [VStr "FizzBuzz"])
    else (colors, labels) in
  if 1 <? Z.of_nat (length (blocks gui))
  then (colors ++ ["#FF2ED9"], labels ++ [VStr "Combinations"])
  else (colors, labels).

(** [np.sqrt(n)] and [np.ceil(x)] on binary64. *)
Definition np_sqrt (n : Z) : result spec_float :=
  x ← float_of_int n; Ok (SFsqrt prec emax x).

Definition np_ceil (x : spec_float) : spec_float :=
  match x with
  | S754_finite s m e =>
      if 0 <=? e then x
      else
        let q := Z.pos m / 2 ^ (- e) in
        let c := if s then - q
                 else if Z.pos m mod 2 ^ (- e) =? 0 then q else q + 1 in
        binary_normalize prec emax c 0 s
  | _ => x
  end.

(** [a // b] on integers. *)
Definition py_floordiv (a b : Z) : result Z :=
  if b =? 0 then Raise ZeroDivisionError else Ok (a / b).

(** [a[row, col] = v] on a two-dimensional array, for indices inside it. *)
Definition setitem2 (a : list (list Z)) (row col v : Z) : list (list Z) :=
  match a !! Z.to_nat row with
  | Some r => <[Z.to_nat row := <[Z.to_nat col := v]> r]> a
  | None => a
  end.

(** The loop that fills the grid. *)
Fixpoint heatmap_loop (gui : GUI) (rows cols : Z) (items : list (Z * (Z * string * string)))
    (heatmap_data : list (list Z)) : result (list (list Z)) :=
  match items with
  | [] => Ok heatmap_data
  | (i, (number, result, result_type)) :: rest =>
      row ← py_floordiv i cols;
      col ← py_mod i (VInt cols);
      if (row <? rows) && (col <? cols) then
        heatmap_loop gui rows cols rest
          (setitem2 heatmap_data row col (get_type_value gui result_type))
      else heatmap_loop gui rows cols rest heatmap_data
  end.

(** The array that [create_heatmap] hands to [imshow]; [None] when there are
    no results and nothing is drawn. *)
Definition create_heatmap (gui : GUI) (results_data : list (Z * string * string))
  : result (option (list (list Z))) :=
  match results_data with
  | [] => Ok None
  | _ :: _ =>
      let total_numbers := Z.of_nat (length results_data) in
      x ← np_sqrt total_numbers;
      grid_size ← int_of_float (np_ceil x);
      let cols := grid_size in
      let rows := grid_size in
      let heatmap_data := replicate (Z.to_nat rows) (replicate (Z.to_nat cols) (-1)) in
      heatmap_data ← heatmap_loop gui rows cols (enumerate results_data) heatmap_data;
      Ok (Some heatmap_data)
  end.

(** ** Notions the statements about the window refer to *)

(** The order values are the positions in the list. *)
Definition positioned (blocks : list RuleBlock) : Prop :=
  map order blocks = map Z.of_nat (seq 0 (length blocks)).

(** A block as the editor saves it: well formed, with a word that is not
    empty. *)
Definition complete (b : RuleBlock) : Prop :=
  well_formed b ∧ word b ≠ EmptyString.

(** What the handlers keep true of the state of the window: the order
    values are the positions, the identifiers are distinct, the blocks are
    complete and each has a colour. *)
Definition consistent (gui : GUI) : Prop :=
  positioned (blocks gui)
  ∧ NoDup (map id (blocks gui))
  ∧ Forall complete (blocks gui)
  ∧ ∀ b, In b (blocks gui) → is_Some (block_colors gui !! id b).

(** [reorder_blocks] with the count starting at [a]. *)
Definition reorder_from (a : nat) (l : list RuleBlock) : list RuleBlock :=
  map (λ '(i, block), set_order block i) (combine (map Z.of_nat (seq a (length l))) l).

(** The buttons that change the block list, with what the dialog returned
    where one is opened. *)
Inductive click : Type :=
| AddBlock (dialog_result : option RuleBlock)
| EditBlock (block : RuleBlock) (dialog_result : option RuleBlock)
| DeleteBlock (block_id : string)
| MoveBlock (block_id : string) (direction : Z)
| ClearAllBlocks.

Definition handle (c : click) : GUI → list nat → outcome :=
  match c with
  | AddBlock dialog_result => add_block dialog_result
  | EditBlock block dialog_result => edit_block block dialog_result
  | DeleteBlock block_id => delete_block block_id
  | MoveBlock block_id direction => move_block block_id direction
  | ClearAllBlocks => clear_all_blocks
  end.

(** [result] is what a dialog opened on [block] stores on Save. *)
Definition saved (int : string → result Z) (strip : string → string)
    (block : option RuleBlock) (kind : BlockType) (result : RuleBlock) : Prop :=
  ∃ uuid4 name_entry divisor_entry start_entry end_entry word_entry,
    save_block int strip block kind uuid4
               name_entry divisor_entry start_entry end_entry word_entry = Ok (inl result).

(** The dialog results the handlers can see: a new block comes from a
    dialog without a block and has an identifier of its own; an edited block
    comes from a dialog opened on a block of the list. *)
Definition from_dialog (int : string → result Z) (strip : string → string)
    (c : click) (gui : GUI) : Prop :=
  match c with
  | AddBlock (Some result) =>
      (∃ kind, saved int strip None kind result) ∧ ¬ In (id result) (map id (blocks gui))
  | EditBlock block (Some result) =>
      In block (blocks gui) ∧ saved int strip (Some block) (block_type block) result
  | _ => True
  end.




(** The condition under which the loop of [get_type_value] returns at a
    block. *)
Definition tagged (result_type : string) (block : RuleBlock) : bool :=
  let word := get (properties block) "word" (VStr "") in
  (bool_decide (result_type = "Fizz") && bool_decide (word = VStr "Fizz"))
  || (bool_decide (result_type = "Buzz") && bool_decide (word = VStr "Buzz"))
  || (bool_decide (result_type = "Prime") && bool_decide (block_type block = PRIME))
  || (bool_decide (result_type = "Fib") && bool_decide (block_type block = FIBONACCI))
  || (bool_decide (result_type = "divisor_custom")
      && bool_decide (block_type block = DIVISOR)
      && negb (bool_decide (word = VStr "Fizz") || bool_decide (word = VStr "Buzz")))
  || (bool_decide (result_type = "range_custom") && bool_decide (block_type block = RANGE)).


(** The entry of a two-dimensional array. *)
Definition cell (grid : list (list Z)) (row col : nat) : option Z :=
  match grid !! row with
  | Some r => r !! col
  | None => None
  end.

(** An array of [g] rows and [g] columns. *)
Definition square (g : nat) (grid : list (list Z)) : Prop :=
  length grid = g ∧ Forall (λ row, length row = g) grid.

(** ** States and inputs for examples *)

Definition with_id (i : string) (b : RuleBlock) : RuleBlock :=
  {| id := i; block_type := block_type b; name := name b;
     properties := properties b; order := order b |}.

(** A state of the window: the two default blocks and a prime-rule. *)
Definition example_gui : GUI :=
  {| blocks := [with_id "fizz" (divisor_rule 3 "Fizz" 0);
                with_id "buzz" (divisor_rule 5 "Buzz" 1);
                with_id "prime" (word_rule PRIME "Prime" 2)];
     block_colors := <["prime" := "#FF6B6B"%string]>
                       (<["buzz" := "#EF4444"%string]> (<["fizz" := "#3B82F6"%string]> ∅));
     is_generating := false |}.

(** A state in which every colour of the palette is taken: fifteen
    prime-rules, each with a colour of its own. *)
Definition palette_gui : GUI :=
  {| blocks := imap (λ k c, with_id c (word_rule PRIME "P" (Z.of_nat k))) colors;
     block_colors := list_to_map (map (λ c, (c, c)) colors);
     is_generating := false |}.

(** A reading of decimal numerals for [int], and no stripping for
    [strip]. *)
Definition decimal_int (s : string) : result Z :=
  match NilZero.int_of_string s with
  | Some d => Ok (Z.of_int d)
  | None => Raise (ValueError "invalid literal for int() with base 10")
  end.

Definition no_strip (s : string) : string := s.


Definition open_range_rule (s o : Z) : RuleBlock :=
  {| id := ""; block_type := RANGE; name := "";
     properties := <["start" := VInt s]> (<["word" := VStr "R"]> ∅); order := o |}.

(** * Facts *)

(** ** [sorted] *)
Section Sorted.
Context {A : Type} (key : A → Z).

Lemma insert_by_Permutation x l : Permutation (insert_by key x l) (x :: l).
Proof.
  induction l as [|y l IH]; simpl; [reflexivity|].
  destruct (key x <=? key y); [reflexivity|].
  rewrite IH. apply perm_swap.
Qed.

Lemma sorted_Permutation l : Permutation (sorted key l) l.
Proof.
  induction l as [|x l IH]; simpl; [constructor|].
  rewrite insert_by_Permutation. by constructor.
Qed.

Lemma insert_by_In x y l : In y (insert_by key x l) ↔ y = x ∨ In y l.
Proof.
  split; intros H.
  - apply (Permutation_in _ (insert_by_Permutation x l)) in H. simpl in H. intuition.
  - apply (Permutation_in _ (Permutation_sym (insert_by_Permutation x l))).
    simpl. intuition.
Qed.

Lemma insert_by_StronglySorted x l :
  StronglySorted (key_le key) l → StronglySorted (key_le key) (insert_by key x l).
Proof.
  induction 1 as [|y l Hs IH Hy]; simpl.
  - repeat constructor.
  - destruct (Z.leb_spec (key x) (key y)) as [Hle|Hlt].
    + constructor; [by constructor|].
      constructor; [exact Hle|].
      eapply Forall_impl; [exact Hy|]. unfold key_le. intros; simpl in *; lia.
    + constructor; [exact IH|].
      apply List.Forall_forall. intros z Hz. apply insert_by_In in Hz as [->|Hz].
      * unfold key_le; lia.
      * rewrite List.Forall_forall in Hy. by apply Hy.
Qed.

Lemma sorted_StronglySorted l : StronglySorted (key_le key) (sorted key l).
Proof.
  induction l; simpl; [constructor|]. by apply insert_by_StronglySorted.
Qed.

(** Filtering commutes with insertion in a sorted list. *)
Lemma filter_insert_by (P : A → bool) x l :
  StronglySorted (key_le key) l →
  List.filter P (insert_by key x l)
  = if P x then insert_by key x (List.filter P l) else List.filter P l.
Proof.
  induction 1 as [|y l Hs IH Hy]; simpl.
  - by destruct (P x).
  - destruct (Z.leb_spec (key x) (key y)) as [Hle|Hlt]; simpl.
    + destruct (P x) eqn:Px; [|done].
      destruct (P y) eqn:Py; simpl.
      * destruct (Z.leb_spec (key x) (key y)); [done|lia].
      * (* [y] is dropped: [x] still goes in front of what remains *)
        clear IH. induction l as [|z l IHl]; simpl; [done|].
        apply Forall_cons_1 in Hy as [Hz Hy]. inversion Hs; subst.
        destruct (P z); simpl.
        -- unfold key_le in Hz. destruct (Z.leb_spec (key x) (key z)); [done|lia].
        -- by apply IHl.
    + rewrite IH. destruct (P x), (P y); simpl; try done.
      destruct (Z.leb_spec (key x) (key y)); [lia|done].
Qed.

Lemma filter_sorted (P : A → bool) l :
  List.filter P (sorted key l) = sorted key (List.filter P l).
Proof.
  induction l as [|x l IH]; simpl; [done|].
  rewrite filter_insert_by by apply sorted_StronglySorted.
  rewrite IH. by destruct (P x).
Qed.

(** Sorting a list whose keys are all equal leaves it unchanged. *)
Lemma sorted_constant_key k l :
  Forall (λ x, key x = k) l → sorted key l = l.
Proof.
  induction 1 as [|x l Hx Hl IH]; simpl; [done|].
  rewrite IH. destruct Hl as [|y l Hy Hl]; simpl; [done|].
  destruct (Z.leb_spec (key x) (key y)); [done|lia].
Qed.

(** Stability: the elements with a given key keep their relative order. *)
Lemma sorted_stable k l :
  List.filter (λ x, key x =? k) (sorted key l) = List.filter (λ x, key x =? k) l.
Proof.
  rewrite filter_sorted. apply (sorted_constant_key k).
  apply List.Forall_forall. intros x Hx. apply filter_In in Hx as [_ Hx]. lia.
Qed.
(** Two ascending lists with the same elements of each key, in the same
    order, are equal: an ascending stable sort has one possible result. *)
Lemma stable_sort_unique (l1 l2 : list A) :
  StronglySorted (key_le key) l1 → StronglySorted (key_le key) l2 →
  (∀ k, List.filter (λ x, key x =? k) l1 = List.filter (λ x, key x =? k) l2) →
  l1 = l2.
Proof.
  intros H1. revert l2. induction H1 as [|x l1 Hs1 IH Hx]; intros l2 H2 Heq.
  - destruct l2 as [|y l2]; [done|].
    specialize (Heq (key y)). simpl in Heq. rewrite Z.eqb_refl in Heq. discriminate.
  - destruct H2 as [|y l2 Hs2 Hy].
    { specialize (Heq (key x)). simpl in Heq. rewrite Z.eqb_refl in Heq. discriminate. }
    assert (Hkey : key x = key y).
    { destruct (Z.lt_trichotomy (key x) (key y)) as [Hlt|[Heq'|Hgt]]; [|done|].
      - pose proof (Heq (key x)) as Hk. simpl in Hk. rewrite Z.eqb_refl in Hk.
        destruct (Z.eqb_spec (key y) (key x)); [lia|].
        assert (In x (List.filter (λ z, key z =? key x) l2)) as Hin
          by (rewrite <- Hk; by left).
        apply filter_In in Hin as [Hin _].
        rewrite List.Forall_forall in Hy. specialize (Hy x Hin). unfold key_le in Hy. lia.
      - pose proof (Heq (key y)) as Hk. simpl in Hk. rewrite Z.eqb_refl in Hk.
        destruct (Z.eqb_spec (key x) (key y)); [lia|].
        assert (In y (List.filter (λ z, key z =? key y) l1)) as Hin
          by (rewrite Hk; by left).
        apply filter_In in Hin as [Hin _].
        rewrite List.Forall_forall in Hx. specialize (Hx y Hin). unfold key_le in Hx. lia. }
    pose proof (Heq (key x)) as Hk. simpl in Hk.
    rewrite Z.eqb_refl, <- Hkey, Z.eqb_refl in Hk. injection Hk as -> Hk.
    f_equal. apply IH; [done|]. intros k. specialize (Heq k). simpl in Heq.
    destruct (key y =? k); [by injection Heq|done].
Qed.

(** Hence [sorted] is the ascending stable sort, whatever algorithm the
    interpreter runs. *)
Lemma sorted_unique (l l' : list A) :
  StronglySorted (key_le key) l' →
  (∀ k, List.filter (λ x, key x =? k) l' = List.filter (λ x, key x =? k) l) →
  l' = sorted key l.
Proof.
  intros Hs Hst. apply stable_sort_unique; [done|apply sorted_StronglySorted|].
  intros k. by rewrite Hst, sorted_stable.
Qed.
End Sorted.

(** ** The evaluator *)

Lemma bind_Ok_inv {A B : Type} (m : result A) (f : A → result B) (b : B) :
  (m ≫= f) = Ok b → ∃ a, m = Ok a ∧ f a = Ok b.
Proof. destruct m as [a|e]; [eauto|discriminate]. Qed.

Lemma getitem_Some d k v : d !! k = Some v → getitem d k = Ok v.
Proof. unfold getitem. by intros ->. Qed.

(** On a well-formed block the [if]/[elif] chain returns the kind-specific
    condition. *)
Lemma block_matches_well_formed n fib_set b :
  well_formed b →
  (block_type b = PRIME → ∃ p, is_prime n = Ok p) →
  block_matches n fib_set b = Ok (rule_holds n fib_set b).
Proof.
  intros [_ Hwf] Hp. unfold block_matches, rule_holds, int_property.
  destruct (block_type b) eqn:Hbt; simpl.
  - destruct Hwf as (d & Hd & Hnz). rewrite (getitem_Some _ _ _ Hd), Hd. simpl.
    destruct (Z.eqb_spec d 0); [done|]. simpl. by destruct (n mod d =? 0).
  - destruct Hp as [p Hp]; [done|]. rewrite Hp. simpl. by destruct p.
  - by destruct (bool_decide (n ∈ fib_set)).
  - destruct Hwf as (s & e & Hs & He).
    rewrite (getitem_Some _ _ _ Hs), Hs, He. simpl.
    destruct (s <=? n); simpl; [|done]. by rewrite (getitem_Some _ _ _ He).
Qed.

Lemma prime_defined_cons n b bs :
  prime_defined n (b :: bs) →
  (block_type b = PRIME → ∃ p, is_prime n = Ok p) ∧ prime_defined n bs.
Proof.
  unfold prime_defined. intros H. split.
  - intros Hb. apply H. exists b. simpl. auto.
  - intros (b' & Hin & Hb'). apply H. exists b'. simpl. auto.
Qed.

Lemma process_loop_well_formed n fib_set bs parts mbs :
  Forall well_formed bs → prime_defined n bs →
  process_loop n fib_set bs parts mbs
  = Ok (parts ++ map (λ b, VStr (word b)) (List.filter (rule_holds n fib_set) bs),
        mbs ++ List.filter (rule_holds n fib_set) bs).
Proof.
  intros Hwf. revert parts mbs.
  induction Hwf as [|b bs Hb Hbs IH]; intros parts mbs Hp; simpl.
  - by rewrite !app_nil_r.
  - apply prime_defined_cons in Hp as [Hpb Hp].
    rewrite (block_matches_well_formed _ _ _ Hb Hpb). simpl.
    destruct (rule_holds n fib_set b) eqn:Hh.
    + destruct Hb as [[w Hw] _]. rewrite (getitem_Some _ _ _ Hw). simpl.
      rewrite IH by done. unfold word. rewrite Hw. simpl.
      by rewrite <- !app_assoc.
    + by apply IH.
Qed.

(** Without any assumption on the blocks: when the loop returns, the words
    and the blocks it collected run in parallel. *)
Lemma process_loop_parallel n fib_set bs parts mbs parts' mbs' :
  process_loop n fib_set bs parts mbs = Ok (parts', mbs') →
  length parts = length mbs → length parts' = length mbs'.
Proof.
  revert parts mbs. induction bs as [|b bs IH]; intros parts mbs; simpl.
  - intros [= <- <-]. done.
  - intros H Hlen. apply bind_Ok_inv in H as (m & _ & H). destruct m.
    + apply bind_Ok_inv in H as (w & _ & H). apply IH in H; [done|].
      rewrite !length_app. simpl. lia.
    + by apply IH in H.
Qed.

Lemma join_words ws : join (map VStr ws) = Ok (String.concat EmptyString ws).
Proof.
  induction ws as [|w ws IH]; [done|].
  change (join (map VStr (w :: ws))) with (t ← join (map VStr ws); Ok (w ++ t)%string).
  rewrite IH. simpl. destruct ws as [|w' ws]; [|done].
  simpl. f_equal. induction w as [|c w IHw]; [done|].
  change (String c (w +:+ "") = String c w). by rewrite IHw.
Qed.

Lemma filter_nonempty_existsb {A : Type} (P : A → bool) (l : list A) :
  match List.filter P l with [] => false | _ :: _ => true end = existsb P l.
Proof.
  induction l as [|x l IH]; simpl; [done|]. by destruct (P x).
Qed.

Lemma get_word_eq b w :
  w ≠ EmptyString →
  bool_decide (get (properties b) "word" (VStr "") = VStr w)
  = bool_decide (properties b !! "word" = Some (VStr w)).
Proof.
  intros Hw. unfold get. apply bool_decide_ext.
  destruct (properties b !! "word") as [v|]; split; intros H; try congruence.
Qed.

(** [get_result_type] on parallel lists is the classification of the
    matching blocks. *)
Lemma get_result_type_classify parts mbs :
  length parts = length mbs → get_result_type parts mbs = classify mbs.
Proof.
  intros Hlen. unfold get_result_type, classify.
  destruct parts as [|p parts], mbs as [|b [|b' mbs]]; try done.
  - unfold divisor_with_word. destruct (block_type b); try done.
    rewrite !get_word_eq by done. reflexivity.
  - fold (divisor_with_word "Fizz") (divisor_with_word "Buzz").
    rewrite <- !filter_nonempty_existsb.
    destruct (List.filter _ _), (List.filter _ _); done.
Qed.

Lemma process_number_inv n blocks fs r :
  process_number n blocks fs = Ok r →
  number r = n ∧ result_type r = classify (matching_blocks r).
Proof.
  unfold process_number. intros H.
  apply bind_Ok_inv in H as ([parts mbs] & Hloop & H).
  apply bind_Ok_inv in H as (txt & _ & [= <-]). simpl. split; [done|].
  apply get_result_type_classify.
  by apply process_loop_parallel in Hloop.
Qed.

Lemma Forall_Permutation_well_formed (l l' : list RuleBlock) :
  Permutation l l' → Forall well_formed l' → Forall well_formed l.
Proof. intros Hp H. by rewrite Hp. Qed.

Lemma prime_defined_sorted n blocks :
  prime_defined n blocks → prime_defined n (sorted order blocks).
Proof.
  unfold prime_defined. intros H (b & Hin & Hb). apply H. exists b. split; [|done].
  by apply (Permutation_in _ (sorted_Permutation order blocks)).
Qed.

(** The result of [process_number] on well-formed blocks. *)
Lemma process_number_well_formed n blocks fib_set :
  Forall well_formed blocks → prime_defined n blocks →
  process_number n blocks (Some fib_set)
  = Ok {| number := n;
          text := match matched n fib_set blocks with
                  | [] => str n
                  | ms => String.concat EmptyString (map word ms)
                  end;
          result_type := classify (matched n fib_set blocks);
          matching_blocks := matched n fib_set blocks |}.
Proof.
  intros Hwf Hp. unfold process_number.
  rewrite process_loop_well_formed.
  - simpl. fold (matched n fib_set blocks).
    rewrite get_result_type_classify by (by rewrite length_map).
    destruct (matched n fib_set blocks) as [|b ms] eqn:Hm; [done|].
    change (VStr (word b) :: map (λ b0, VStr (word b0)) ms)
      with (map (λ b0, VStr (word b0)) (b :: ms)).
    rewrite <- (map_map word VStr), join_words. done.
  - eapply Forall_Permutation_well_formed; [apply sorted_Permutation|done].
  - by apply prime_defined_sorted.
Qed.

(** The hypothesis on the primality test is needed: the loop calls the test
    for every prime-rule, so [process_number] returns only if the test
    does. *)
Lemma process_loop_evaluates n fs bs parts mbs out :
  process_loop n fs bs parts mbs = Ok out →
  ∀ b, In b bs → ∃ m, block_matches n fs b = Ok m.
Proof.
  revert parts mbs. induction bs as [|b0 bs IH]; intros parts mbs H b Hb; [done|].
  simpl in H. apply bind_Ok_inv in H as (m & Hm & H).
  destruct Hb as [<-|Hb]; [by exists m|].
  destruct m.
  - apply bind_Ok_inv in H as (w & _ & H). by apply (IH _ _ H).
  - by apply (IH _ _ H).
Qed.

Lemma block_matches_prime n fs b m :
  block_type b = PRIME → block_matches n fs b = Ok m → is_prime n = Ok m.
Proof.
  intros Hb. unfold block_matches. rewrite Hb. simpl.
  destruct (is_prime n) as [[]|e]; simpl; congruence.
Qed.

Lemma process_number_returns n blocks fs r :
  process_number n blocks (Some fs) = Ok r → prime_defined n blocks.
Proof.
  unfold process_number. intros H (b & Hin & Hb).
  apply bind_Ok_inv in H as (out & Hloop & _).
  destruct (process_loop_evaluates _ _ _ _ _ _ Hloop b) as [m Hm].
  - by apply (Permutation_in _ (Permutation_sym (sorted_Permutation order blocks))).
  - exists m. by apply (block_matches_prime n fs b).
Qed.

(** ** The Fibonacci set *)

Lemma fib_SS k : fib (S (S k)) = fib k + fib (S k).
Proof. reflexivity. Qed.

Lemma fib_pos k : (1 ≤ k)%nat → 1 ≤ fib k.
Proof.
  induction k as [k IH] using lt_wf_ind. intros Hk.
  destruct k as [|[|k]]; [lia|simpl; lia|].
  rewrite fib_SS. pose proof (IH (S k) ltac:(lia) ltac:(lia)).
  destruct k as [|k]; [simpl; lia|].
  pose proof (IH (S k) ltac:(lia) ltac:(lia)). lia.
Qed.

Lemma fib_nonneg k : 0 ≤ fib k.
Proof. destruct k; [simpl; lia|]. pose proof (fib_pos (S k)). lia. Qed.

Lemma fib_S_le k : fib k ≤ fib (S k).
Proof.
  destruct k as [|k]; [simpl; lia|]. rewrite fib_SS. pose proof (fib_nonneg k). lia.
Qed.

Lemma fib_mono j k : (j ≤ k)%nat → fib j ≤ fib k.
Proof.
  induction 1 as [|k Hjk IH]; [lia|]. pose proof (fib_S_le k). lia.
Qed.

(** The loop, entered with [a = fib k], [b = fib (k + 1)] and the set of
    [fib 1 .. fib k], returns the Fibonacci numbers up to [max_value]. *)
Lemma fib_while_spec fuel max_value k (s : gset Z) :
  (1 ≤ k)%nat →
  max_value + 1 ≤ fib (S k) + Z.of_nat fuel →
  fib k ≤ max_value →
  (∀ x, x ∈ s ↔ ∃ j, (1 ≤ j ≤ k)%nat ∧ fib j = x) →
  ∃ s', fib_while fuel max_value (fib k) (fib (S k)) s = Ok s'
        ∧ ∀ x, x ∈ s' ↔ x ≤ max_value ∧ ∃ j, (1 ≤ j)%nat ∧ fib j = x.
Proof.
  revert k s. induction fuel as [|fuel IH]; intros k s Hk Hfuel Hmax Hs.
  - cbn [fib_while]. destruct (Z.leb_spec (fib (S k)) max_value) as [Hle|Hgt]; [lia|].
    exists s. split; [done|]. intros x. rewrite Hs. split.
    + intros (j & Hj & <-). split; [|exists j; split; [lia|done]].
      pose proof (fib_mono j k). lia.
    + intros (Hx & j & Hj & <-). exists j. split; [|done].
      destruct (Nat.le_gt_cases j k); [lia|].
      pose proof (fib_mono (S k) j). lia.
  - cbn [fib_while]. destruct (Z.leb_spec (fib (S k)) max_value) as [Hle|Hgt].
    + rewrite <- fib_SS. apply IH; [lia| |done|].
      * rewrite fib_SS. pose proof (fib_pos k). lia.
      * intros x. rewrite elem_of_union, elem_of_singleton, Hs. split.
        -- intros [->|(j & Hj & <-)]; [exists (S k)|exists j]; split; (lia || done).
        -- intros (j & Hj & <-). destruct (Nat.eq_dec j (S k)) as [->|]; [by left|].
           right. exists j. split; [lia|done].
    + exists s. split; [done|]. intros x. rewrite Hs. split.
      * intros (j & Hj & <-). split; [|exists j; split; [lia|done]].
        pose proof (fib_mono j k). lia.
      * intros (Hx & j & Hj & <-). exists j. split; [|done].
        destruct (Nat.le_gt_cases j k); [lia|].
        pose proof (fib_mono (S k) j). lia.
Qed.

Lemma generate_fibonacci_set_spec max_value :
  ∃ s, generate_fibonacci_set max_value = Ok s
       ∧ ∀ x, x ∈ s ↔ x ≤ max_value ∧ ∃ j, (1 ≤ j)%nat ∧ fib j = x.
Proof.
  unfold generate_fibonacci_set.
  destruct (Z.ltb_spec max_value 1) as [Hlt|Hge].
  - exists ∅. split; [done|]. intros x. split; [set_solver|].
    intros (Hx & j & Hj & <-). pose proof (fib_pos j). lia.
  - apply (fib_while_spec (Z.to_nat max_value) max_value 1); simpl; try lia.
    intros x. rewrite elem_of_singleton. split.
    + intros ->. exists 1%nat. split; [lia|done].
    + intros (j & Hj & <-). by replace j with 1%nat by lia.
Qed.

(** ** binary64 rounding *)

Ltac fexp_lia :=
  unfold SpecFloat.fexp, SpecFloat.emin, prec, emax in *; lia.

Lemma digits2_pos_size p : digits2_pos p = Pos.size p.
Proof. induction p as [p IH|p IH|]; simpl; by rewrite ?IH. Qed.

Lemma Zdigits2_log2 m : 0 < m → Zdigits2 m = Z.log2 m + 1.
Proof.
  destruct m as [|p|p]; try lia. intros _. simpl. rewrite digits2_pos_size.
  destruct p as [p|p|]; simpl; lia.
Qed.

Lemma Zdigits2_nonneg m : 0 ≤ Zdigits2 m.
Proof. destruct m; simpl; lia. Qed.

Lemma Zdigits2_bounds m :
  0 < m → 1 ≤ Zdigits2 m ∧ 2 ^ (Zdigits2 m - 1) ≤ m < 2 ^ Zdigits2 m.
Proof.
  intros Hm. rewrite Zdigits2_log2 by done.
  pose proof (Z.log2_nonneg m). pose proof (Z.log2_spec m Hm).
  replace (Z.log2 m + 1 - 1) with (Z.log2 m) by lia.
  replace (Z.log2 m + 1) with (Z.succ (Z.log2 m)) by lia. lia.
Qed.

Lemma Zdigits2_unique m d : 1 ≤ d → 2 ^ (d - 1) ≤ m < 2 ^ d → Zdigits2 m = d.
Proof.
  intros Hd Hm. assert (0 < m) by (pose proof (Z.pow_pos_nonneg 2 (d - 1)); lia).
  rewrite Zdigits2_log2 by done.
  rewrite (Z.log2_unique m (d - 1)); [lia|lia|].
  by replace (Z.succ (d - 1)) with d by lia.
Qed.

Lemma Zdigits2_le m a : 0 ≤ a → 0 ≤ m < 2 ^ a → Zdigits2 m ≤ a.
Proof.
  intros Ha [Hm Hlt]. destruct (Z.eq_dec m 0) as [->|]; [simpl; lia|].
  destruct (Zdigits2_bounds m) as (Hd & Hlo & _); [lia|].
  destruct (Z.le_gt_cases (Zdigits2 m) a); [done|].
  pose proof (Z.pow_le_mono_r 2 a (Zdigits2 m - 1)). lia.
Qed.

Lemma Zdigits2_ge m a : 0 ≤ a → 2 ^ a ≤ m → a + 1 ≤ Zdigits2 m.
Proof.
  intros Ha Hm. assert (0 < m) by (pose proof (Z.pow_pos_nonneg 2 a); lia).
  destruct (Zdigits2_bounds m) as (Hd & _ & Hhi); [lia|].
  destruct (Z.le_gt_cases (a + 1) (Zdigits2 m)); [done|].
  pose proof (Z.pow_le_mono_r 2 (Zdigits2 m) a). lia.
Qed.

Lemma Zdigits2_mono m m' : 0 ≤ m ≤ m' → Zdigits2 m ≤ Zdigits2 m'.
Proof.
  intros [Hm Hle]. destruct (Z.eq_dec m' 0) as [->|].
  { by replace m with 0 by lia. }
  destruct (Zdigits2_bounds m') as (Hd & _ & Hhi); [lia|].
  apply Zdigits2_le; lia.
Qed.

Lemma Zdigits2_mul_pow2 m j : 0 < m → 0 ≤ j → Zdigits2 (m * 2 ^ j) = Zdigits2 m + j.
Proof.
  intros Hm Hj. destruct (Zdigits2_bounds m Hm) as (Hd & Hlo & Hhi).
  pose proof (Z.pow_pos_nonneg 2 j).
  apply Zdigits2_unique; [lia|].
  replace (Zdigits2 m + j - 1) with (Zdigits2 m - 1 + j) by lia.
  rewrite !Z.pow_add_r by lia. nia.
Qed.

Lemma Zdigits2_div_pow2 m k :
  0 ≤ k → 2 ^ k ≤ m → Zdigits2 (m / 2 ^ k) = Zdigits2 m - k.
Proof.
  intros Hk Hm. pose proof (Z.pow_pos_nonneg 2 k).
  destruct (Zdigits2_bounds m) as (Hd & Hlo & Hhi); [lia|].
  pose proof (Zdigits2_ge m k Hk Hm).
  apply Zdigits2_unique; [lia|]. split.
  - apply Z.div_le_lower_bound; [lia|]. rewrite <- Z.pow_add_r by lia.
    by replace (k + (Zdigits2 m - k - 1)) with (Zdigits2 m - 1) by lia.
  - apply Z.div_lt_upper_bound; [lia|]. rewrite <- Z.pow_add_r by lia.
    by replace (k + (Zdigits2 m - k)) with (Zdigits2 m) by lia.
Qed.

(** *** Shifting right *)

Lemma iter_pos_nat {A : Type} (f : A → A) p x :
  SpecFloat.iter_pos f p x = Nat.iter (Pos.to_nat p) f x.
Proof.
  revert x. induction p as [p IH|p IH|]; intros x; cbn [SpecFloat.iter_pos]; [| |done].
  - rewrite !IH, Pos2Nat.inj_xI. rewrite <- Nat.iter_add, <- Nat.iter_succ_r.
    f_equal. lia.
  - rewrite !IH, Pos2Nat.inj_xO. rewrite <- Nat.iter_add. f_equal. lia.
Qed.

Lemma shr_1_spec mrs :
  0 ≤ shr_m mrs →
  shr_m (shr_1 mrs) = shr_m mrs / 2
  ∧ (rec_exact mrs → shr_m mrs mod 2 = 0 → rec_exact (shr_1 mrs)).
Proof.
  destruct mrs as [m r s]. unfold rec_exact. cbn [shr_m shr_r shr_s]. intros Hm.
  destruct m as [|[p|p|]|p]; cbn [shr_1 shr_m shr_r shr_s]; try lia.
  - split; [done|]. by intros [-> ->].
  - split.
    + rewrite Pos2Z.inj_xI. apply (Z.div_unique _ 2 _ 1); lia.
    + intros _ H. exfalso. rewrite Pos2Z.inj_xI in H.
      rewrite Z.add_comm, Z.mul_comm, Z.mod_add in H by lia. done.
  - split; [|by intros [-> ->]].
    rewrite Pos2Z.inj_xO. apply (Z.div_unique _ 2 _ 0); lia.
  - split; [done|]. intros _ H. done.
Qed.

Lemma shr_iter_spec n mrs :
  0 ≤ shr_m mrs →
  shr_m (Nat.iter n shr_1 mrs) = shr_m mrs / 2 ^ Z.of_nat n
  ∧ (rec_exact mrs → shr_m mrs mod 2 ^ Z.of_nat n = 0 → rec_exact (Nat.iter n shr_1 mrs)).
Proof.
  intros Hm. induction n as [|n [IHm IHe]].
  - simpl. rewrite Z.div_1_r. auto.
  - rewrite Nat.iter_succ.
    assert (Hpos : 0 < 2 ^ Z.of_nat n) by (apply Z.pow_pos_nonneg; lia).
    assert (H0 : 0 ≤ shr_m (Nat.iter n shr_1 mrs)).
    { rewrite IHm. apply Z.div_pos; lia. }
    destruct (shr_1_spec _ H0) as [H1 H2].
    assert (Hpow : 2 ^ Z.of_nat (S n) = 2 ^ Z.of_nat n * 2).
    { rewrite Nat2Z.inj_succ, Z.pow_succ_r by lia. lia. }
    split.
    + rewrite H1, IHm, Hpow. rewrite Z.div_div by lia. done.
    + intros He Hmod. rewrite Hpow in Hmod.
      rewrite Z.rem_mul_r in Hmod by lia.
      assert (0 <= shr_m mrs mod 2 ^ Z.of_nat n < 2 ^ Z.of_nat n)
        by (apply Z.mod_pos_bound; lia).
      assert (0 <= (shr_m mrs / 2 ^ Z.of_nat n) mod 2 < 2)
        by (apply Z.mod_pos_bound; lia).
      apply H2; [apply IHe; [done|nia]|]. rewrite IHm. nia.
Qed.

Lemma loc_of_shr_record_of_loc m l : loc_of_shr_record (shr_record_of_loc m l) = l.
Proof. by destruct l as [|[]]. Qed.

Lemma shr_m_record_of_loc m l : shr_m (shr_record_of_loc m l) = m.
Proof. by destruct l as [|[]]. Qed.

Lemma rec_exact_loc mrs : rec_exact mrs → loc_of_shr_record mrs = loc_Exact.
Proof. destruct mrs as [m r s]. unfold rec_exact. simpl. by intros [-> ->]. Qed.

(** [shr_fexp] divides the mantissa by the power of two that brings the
    exponent to [fexp]. *)
Lemma shr_fexp_spec m e l :
  0 ≤ m → e ≤ fexp64 (Zdigits2 m + e) →
  let e1 := fexp64 (Zdigits2 m + e) in
  ∃ mrs, shr_fexp prec emax m e l = (mrs, e1)
         ∧ shr_m mrs = m / 2 ^ (e1 - e)
         ∧ (l = loc_Exact → m mod 2 ^ (e1 - e) = 0 → loc_of_shr_record mrs = loc_Exact)
         ∧ (e1 = e → loc_of_shr_record mrs = l).
Proof.
  intros Hm He e1. unfold shr_fexp, shr. fold e1.
  destruct (e1 - e) as [|k|k] eqn:Hk; try lia.
  - exists (shr_record_of_loc m l). replace e1 with e by lia.
    rewrite shr_m_record_of_loc, Z.div_1_r, loc_of_shr_record_of_loc.
    repeat split; auto. 
  - exists (SpecFloat.iter_pos shr_1 k (shr_record_of_loc m l)).
    rewrite iter_pos_nat.
    destruct (shr_iter_spec (Pos.to_nat k) (shr_record_of_loc m l)) as [H1 H2].
    { by rewrite shr_m_record_of_loc. }
    rewrite positive_nat_Z, shr_m_record_of_loc in *.
    repeat split; [f_equal; lia|done| |lia].
    intros -> Hmod. apply rec_exact_loc, H2; done.
Qed.

Lemma round_nearest_even_bounds m l :
  m ≤ round_nearest_even m l ≤ m + 1 ∧ (l = loc_Exact → round_nearest_even m l = m).
Proof.
  split; [|by intros ->].
  destruct l as [|[]]; simpl; try lia. destruct (Z.even m); lia.
Qed.

(** After the shift the exponent is the canonical one of the mantissa. *)
Lemma shifted_canonical m e :
  0 ≤ m → e ≤ fexp64 (Zdigits2 m + e) →
  let e1 := fexp64 (Zdigits2 m + e) in
  fexp64 (Zdigits2 (m / 2 ^ (e1 - e)) + e1) = e1.
Proof.
  intros Hm He e1. assert (Hk : 0 ≤ e1 - e) by lia.
  pose proof (Z.pow_pos_nonneg 2 (e1 - e) ltac:(lia) Hk) as Hpos.
  destruct (Z.le_gt_cases (2 ^ (e1 - e)) m) as [Hle|Hgt].
  - rewrite Zdigits2_div_pow2 by done.
    by replace (Zdigits2 m - (e1 - e) + e1) with (Zdigits2 m + e) by lia.
  - rewrite Z.div_small by lia. simpl Zdigits2.
    pose proof (Zdigits2_le m (e1 - e) Hk ltac:(lia)).
    unfold e1 in *. fexp_lia.
Qed.

(** A mantissa that rounding carried to the next binade is a power of two. *)
Lemma carry_power_of_two m m2 :
  0 ≤ m → m ≤ m2 ≤ m + 1 → Zdigits2 m < Zdigits2 m2 →
  m2 = 2 ^ Zdigits2 m ∧ Zdigits2 m2 = Zdigits2 m + 1.
Proof.
  intros Hm Hm2 Hd.
  assert (m2 = m + 1) as -> by (destruct (Z.eq_dec m2 m) as [->|]; lia).
  pose proof (Zdigits2_nonneg m) as Hd0.
  assert (m < 2 ^ Zdigits2 m) as Hlt.
  { destruct (Z.eq_dec m 0) as [->|]; [done|]. apply Zdigits2_bounds. lia. }
  destruct (Z.eq_dec (m + 1) (2 ^ Zdigits2 m)) as [Heq|Hne].
  - split; [done|]. rewrite Heq. apply Zdigits2_unique; [lia|].
    replace (Zdigits2 m + 1 - 1) with (Zdigits2 m) by lia.
    rewrite Z.pow_add_r by lia. lia.
  - pose proof (Zdigits2_le (m + 1) (Zdigits2 m) Hd0 ltac:(lia)). lia.
Qed.

Lemma binary_round_aux_spec sx mx ex lx :
  0 ≤ mx → ex ≤ fexp64 (Zdigits2 mx + ex) →
  let e1 := fexp64 (Zdigits2 mx + ex) in
  let m1 := mx / 2 ^ (e1 - ex) in
  ∃ m3 e3,
    binary_round_aux prec emax sx mx ex lx = float_of_parts sx m3 e3
    ∧ 0 ≤ m3 ∧ e1 ≤ e3
    ∧ m1 ≤ m3 * 2 ^ (e3 - e1) ≤ m1 + 1
    ∧ fexp64 (Zdigits2 m3 + e3) = e3
    ∧ (lx = loc_Exact → mx mod 2 ^ (e1 - ex) = 0 → m3 * 2 ^ (e3 - e1) = m1).
Proof.
  intros Hmx Hex e1 m1.
  destruct (shr_fexp_spec mx ex lx Hmx Hex) as (mrs & Hshr & Hmrs & Hexact & _).
  pose proof (shifted_canonical mx ex Hmx Hex) as Hcan.
  cbv zeta in Hshr, Hmrs, Hexact, Hcan.
  assert (Hm1 : 0 ≤ m1).
  { apply Z.div_pos; [done|]. apply Z.pow_pos_nonneg; unfold e1; lia. }
  assert (Hge : ex ≤ e1) by done.
  change (fexp64 (Zdigits2 mx + ex)) with e1 in Hshr, Hmrs, Hexact, Hcan.
  change (mx `div` 2 ^ (e1 - ex)) with m1 in Hmrs, Hcan.
  clearbody m1. clearbody e1.
  set (m2 := round_nearest_even (shr_m mrs) (loc_of_shr_record mrs)).
  destruct (round_nearest_even_bounds (shr_m mrs) (loc_of_shr_record mrs)) as [Hm2 Hm2e].
  fold m2 in Hm2, Hm2e. rewrite Hmrs in Hm2, Hm2e.
  assert (Hm2def : round_nearest_even (shr_m mrs) (loc_of_shr_record mrs) = m2) by done.
  clearbody m2.
  assert (Hd12 : Zdigits2 m1 ≤ Zdigits2 m2) by (apply Zdigits2_mono; lia).
  assert (He1 : e1 ≤ fexp64 (Zdigits2 m2 + e1)).
  { clear -Hcan Hd12. fexp_lia. }
  destruct (shr_fexp_spec m2 e1 loc_Exact ltac:(lia) He1) as (mrs2 & Hshr2 & Hmrs2 & _).
  set (e3 := fexp64 (Zdigits2 m2 + e1)) in *.
  exists (shr_m mrs2), e3.
  assert (Hsecond : shr_m mrs2 * 2 ^ (e3 - e1) = m2
                    ∧ fexp64 (Zdigits2 (shr_m mrs2) + e3) = e3).
  { rewrite Hmrs2. destruct (Z.eq_dec e3 e1) as [Heq|Hne].
    - rewrite Heq, Z.sub_diag, Z.div_1_r, Z.mul_1_r. split; [done|].
      by rewrite <- Heq at 2.
    - assert (Hlt : Zdigits2 m1 < Zdigits2 m2).
      { destruct (Z.eq_dec (Zdigits2 m1) (Zdigits2 m2)) as [Hdd|]; [|lia].
        unfold e3 in Hne. rewrite <- Hdd in Hne. clear -Hne Hcan. lia. }
      destruct (carry_power_of_two m1 m2 Hm1 Hm2 Hlt) as [Hpow Hdig].
      pose proof (Zdigits2_nonneg m1) as Hd0.
      assert (He3 : e3 = e1 + 1).
      { unfold e3 in *. rewrite Hdig in *. clear -Hne Hcan Hd0. fexp_lia. }
      assert (Hd1 : 1 ≤ Zdigits2 m1).
      { destruct (Z.eq_dec (Zdigits2 m1) 0) as [Hz|]; [|lia].
        unfold e3 in *. rewrite Hdig, Hz in *. clear -Hne Hcan. fexp_lia. }
      assert (Hhalf : 2 ^ Zdigits2 m1 `div` 2 = 2 ^ (Zdigits2 m1 - 1)).
      { replace (Zdigits2 m1) with (Zdigits2 m1 - 1 + 1) at 1 by lia.
        rewrite Z.pow_add_r by lia. change (2 ^ 1) with 2. apply Z.div_mul. lia. }
      replace (e3 - e1) with 1 by lia. rewrite Hpow. change (2 ^ 1) with 2.
      rewrite Hhalf. split.
      + rewrite Z.mul_comm, <- Z.pow_succ_r by lia. f_equal. lia.
      + rewrite (Zdigits2_unique (2 ^ (Zdigits2 m1 - 1)) (Zdigits2 m1)).
        * unfold e3 at 2. rewrite Hdig. f_equal. lia.
        * lia.
        * split; [lia|]. apply Z.pow_lt_mono_r; lia. }
  destruct Hsecond as [Hval Hcan3].
  assert (Hm3 : 0 ≤ shr_m mrs2).
  { rewrite Hmrs2. apply Z.div_pos; [lia|]. apply Z.pow_pos_nonneg; lia. }
  repeat split; try lia; try done.
  - unfold binary_round_aux. rewrite Hshr, Hm2def, Hshr2.
    unfold float_of_parts. done.
  - intros Hl Hmod. rewrite Hval. apply Hm2e. by apply Hexact.
Qed.

(** A value has one canonical representation. *)
Lemma canonical_unique m e m' e' :
  0 < m → 0 ≤ m' → e ≤ e' → m' * 2 ^ (e' - e) = m →
  fexp64 (Zdigits2 m + e) = e → fexp64 (Zdigits2 m' + e') = e' →
  e' = e ∧ m' = m.
Proof.
  intros Hm Hm' He Hval Hc Hc'.
  assert (0 < m') by (destruct (Z.eq_dec m' 0) as [->|]; lia).
  assert (Hd : Zdigits2 m = Zdigits2 m' + (e' - e)).
  { rewrite <- Hval. apply Zdigits2_mul_pow2; lia. }
  assert (e' = e) as -> by (rewrite Hd in Hc; fexp_lia).
  split; [done|]. rewrite Z.sub_diag in Hval. lia.
Qed.

Lemma float_of_parts_finite sx m e :
  0 < m → e ≤ 971 → float_of_parts sx m e = S754_finite sx (Z.to_pos m) e.
Proof.
  intros Hm He. unfold float_of_parts. destruct m as [|p|p]; try lia.
  change (emax - prec) with 971. destruct (Z.leb_spec e 971); [done|lia].
Qed.

(** *** Conversion of an integer below [2^53] is exact *)

Lemma pos_iter_xO m d : Z.pos (Pos.iter xO m d) = Z.pos m * 2 ^ Z.pos d.
Proof.
  induction d as [|d IH] using Pos.peano_ind.
  - simpl. lia.
  - rewrite Pos.iter_succ, Pos2Z.inj_xO, IH, Pos2Z.inj_succ, Z.pow_succ_r by lia. lia.
Qed.

Lemma shl_align_spec m e e' :
  let '(mz, ez) := shl_align m e e' in
  ez = Z.min e e' ∧ Z.pos mz = Z.pos m * 2 ^ (e - ez).
Proof.
  unfold shl_align. destruct (e' - e) as [|k|k] eqn:Hk.
  - replace (Z.min e e') with e by lia. rewrite Z.sub_diag. lia.
  - replace (Z.min e e') with e by lia. rewrite Z.sub_diag. lia.
  - replace (Z.min e e') with e' by lia. split; [done|].
    rewrite pos_iter_xO. f_equal. f_equal. lia.
Qed.

Lemma float_of_int_exact n :
  0 < n < 2 ^ 53 →
  let d := Zdigits2 n in
  float_of_int n = Ok (S754_finite false (Z.to_pos (n * 2 ^ (53 - d))) (d - 53)).
Proof.
  intros [Hn0 Hn] d.
  destruct (Zdigits2_bounds n Hn0) as (Hd1 & Hlo & Hhi). fold d in Hd1, Hlo, Hhi.
  assert (Hd53 : d ≤ 53) by (apply Zdigits2_le; lia).
  unfold float_of_int, binary_normalize. destruct n as [|p|p]; try lia.
  unfold binary_round.
  pose proof (shl_align_spec p 0 (fexp64 (Z.pos (digits2_pos p) + 0))) as Hal.
  destruct (shl_align p 0 _) as [mz ez]. destruct Hal as [Hez Hmz].
  change (Z.pos (digits2_pos p)) with d in Hez.
  assert (ez = d - 53) as -> by fexp_lia.
  replace (0 - (d - 53)) with (53 - d) in Hmz by lia.
  assert (Hdz : Zdigits2 (Z.pos mz) = 53).
  { rewrite Hmz, Zdigits2_mul_pow2 by lia. fold d. lia. }
  destruct (binary_round_aux_spec false (Z.pos mz) (d - 53) loc_Exact)
    as (m3 & e3 & Hr & Hm3 & He3 & Hval & Hcan & Hex); [lia|rewrite Hdz; fexp_lia|].
  rewrite Hdz in *.
  assert (He1 : fexp64 (53 + (d - 53)) = d - 53) by fexp_lia.
  rewrite He1 in *. rewrite Z.sub_diag, Z.div_1_r in *.
  specialize (Hex eq_refl (Z.mod_1_r _)).
  destruct (canonical_unique (Z.pos mz) (d - 53) m3 e3) as [-> ->];
    [lia|done|done|done|rewrite Hdz; fexp_lia|done|].
  rewrite Hr. rewrite float_of_parts_finite by lia.
  rewrite <- Hmz. done.
Qed.

(** *** The square root *)

Lemma SFsqrt_core_binary_spec m e :
  0 < m →
  let e' := Z.min (fexp64 (Z.div2 (Zdigits2 m + e + 1))) (Z.div2 e) in
  ∃ q l, SFsqrt_core_binary prec emax m e = (q, e', l)
         ∧ 0 ≤ e - 2 * e'
         ∧ q = Z.sqrt (m * 2 ^ (e - 2 * e')).
Proof.
  intros Hm e'. unfold SFsqrt_core_binary. fold e'.
  assert (Hs : 0 ≤ e - 2 * e').
  { pose proof (Z.div2_div e). pose proof (Z.div_mod e 2 ltac:(lia)).
    pose proof (Z.mod_pos_bound e 2 ltac:(lia)). lia. }
  set (m' := match e - 2 * e' with Z.pos _ => Z.shiftl m (e - 2 * e') | 0 => m | Z.neg _ => 0 end).
  assert (Hm' : m' = m * 2 ^ (e - 2 * e')).
  { unfold m'. destruct (e - 2 * e') as [|p|p] eqn:Hp; try lia.
    by rewrite Z.shiftl_mul_pow2. }
  pose proof (Z.sqrtrem_sqrt m') as Hq.
  destruct (Z.sqrtrem m') as [q r]. simpl in Hq.
  eexists q, _. split; [reflexivity|]. split; [done|]. by rewrite <- Hm'.
Qed.

(** [int(math.sqrt(n))] lies between the integer square root and [n - 1]. *)
Lemma int_sqrt_bounds n :
  3 ≤ n < 2 ^ 53 →
  ∃ r, (x ← math_sqrt n; int_of_float x) = Ok r ∧ Z.sqrt n ≤ r < n.
Proof.
  intros [Hn3 Hn]. unfold math_sqrt.
  rewrite float_of_int_exact by lia. simpl mbind.
  set (d := Zdigits2 n).
  destruct (Zdigits2_bounds n ltac:(lia)) as (Hd1 & Hlo & Hhi). fold d in Hd1, Hlo, Hhi.
  assert (Hd53 : d ≤ 53) by (apply Zdigits2_le; lia).
  assert (Hpos : 0 < n * 2 ^ (53 - d)).
  { pose proof (Z.pow_pos_nonneg 2 (53 - d)). nia. }
  unfold SFsqrt.
  destruct (SFsqrt_core_binary_spec (Z.pos (Z.to_pos (n * 2 ^ (53 - d)))) (d - 53))
    as (q & l & Hcore & Hs & Hq); [lia|].
  rewrite Hcore. clear Hcore.
  rewrite Z2Pos.id in * by done.
  assert (Hdz : Zdigits2 (n * 2 ^ (53 - d)) = 53).
  { rewrite Zdigits2_mul_pow2 by lia. fold d. lia. }
  rewrite Hdz in *.
  pose proof (Z.div2_div (53 + (d - 53) + 1)) as Hdiv2a.
  pose proof (Z.div2_div (d - 53)) as Hdiv2b.
  pose proof (Z.div_mod (53 + (d - 53) + 1) 2 ltac:(lia)).
  pose proof (Z.mod_pos_bound (53 + (d - 53) + 1) 2 ltac:(lia)).
  pose proof (Z.div_mod (d - 53) 2 ltac:(lia)).
  pose proof (Z.mod_pos_bound (d - 53) 2 ltac:(lia)).
  set (e' := Z.min (fexp64 (Z.div2 (53 + (d - 53) + 1))) (Z.div2 (d - 53))) in *.
  set (E := - e').
  assert (HE : 26 ≤ E ≤ 52 ∧ d - 53 - 2 * e' = d - 53 + 2 * E
               ∧ 104 ≤ d - 1 + 2 * E ∧ d + 2 * E ≤ 106).
  { unfold E, e'. fexp_lia. }
  destruct HE as (HE & HsE & HloE & HhiE).
  rewrite HsE in *.
  assert (Hm' : n * 2 ^ (53 - d) * 2 ^ (d - 53 + 2 * E) = n * 2 ^ (2 * E)).
  { rewrite <- Z.mul_assoc, <- Z.pow_add_r by lia. do 2 f_equal. lia. }
  rewrite Hm' in Hq.
  pose proof (Z.sqrt_spec (n * 2 ^ (2 * E))) as Hsq.
  assert (HT : 2 ^ (2 * E) = 2 ^ E * 2 ^ E).
  { rewrite <- Z.pow_add_r by lia. f_equal. lia. }
  assert (HTpos : 2 ^ 26 ≤ 2 ^ E) by (apply Z.pow_le_mono_r; lia).
  specialize (Hsq ltac:(nia)). rewrite <- Hq in Hsq. cbv zeta in Hsq.
  replace (Z.succ q) with (q + 1) in Hsq by lia.
  assert (Hq0 : 0 ≤ q) by (rewrite Hq; apply Z.sqrt_nonneg).
  (* the mantissa of the root has 53 bits *)
  assert (Hm'lo : 2 ^ 104 ≤ n * 2 ^ (2 * E)).
  { pose proof (Z.pow_le_mono_r 2 104 (d - 1 + 2 * E) ltac:(lia) ltac:(lia)).
    rewrite Z.pow_add_r in * by lia. pose proof (Z.pow_pos_nonneg 2 (2 * E)). nia. }
  assert (Hm'hi : n * 2 ^ (2 * E) < 2 ^ 106).
  { pose proof (Z.pow_le_mono_r 2 (d + 2 * E) 106 ltac:(lia) ltac:(lia)).
    rewrite Z.pow_add_r in * by lia. pose proof (Z.pow_pos_nonneg 2 (2 * E)). nia. }
  assert (Hq53 : 2 ^ 52 ≤ q < 2 ^ 53).
  { change (2 ^ 104) with (2 ^ 52 * 2 ^ 52) in Hm'lo.
    change (2 ^ 106) with (2 ^ 53 * 2 ^ 53) in Hm'hi. nia. }
  assert (Hdq : Zdigits2 q = 53) by (apply Zdigits2_unique; [lia|done]).
  destruct (binary_round_aux_spec false q e' l)
    as (m3 & e3 & Hr & Hm3 & He3 & Hval & Hcan & _);
    [lia|rewrite Hdq; unfold E in *; fexp_lia|].
  rewrite Hdq in *.
  assert (He1 : fexp64 (53 + e') = e') by (unfold E in *; fexp_lia).
  rewrite He1 in *. rewrite Z.sub_diag, Z.div_1_r in Hval.
  assert (Hpe : 0 < 2 ^ (e3 - e')) by (apply Z.pow_pos_nonneg; lia).
  assert (Hm3pos : 0 < m3) by nia.
  destruct (Zdigits2_bounds m3 Hm3pos) as (Hd3 & Hlo3 & Hhi3).
  assert (Hd3' : Zdigits2 m3 = 53) by (unfold E in *; fexp_lia).
  rewrite Hd3' in *.
  assert (He3' : e3 ≤ e' + 1).
  { destruct (Z.le_gt_cases e3 (e' + 1)); [done|].
    pose proof (Z.pow_le_mono_r 2 2 (e3 - e') ltac:(lia) ltac:(lia)).
    change (2 ^ (53 - 1)) with (2 ^ 52) in Hlo3. change (2 ^ 2) with 4 in *. nia. }
  rewrite Hr, float_of_parts_finite by (unfold E in *; lia).
  unfold int_of_float. destruct (Z.leb_spec 0 e3); [unfold E in *; lia|].
  rewrite Z2Pos.id by done. unfold cond_Zopp.
  eexists. split; [reflexivity|].
  assert (Hdiv : m3 `div` 2 ^ (- e3) = (m3 * 2 ^ (e3 - e')) `div` 2 ^ E).
  { replace (2 ^ E) with (2 ^ (- e3) * 2 ^ (e3 - e')).
    - rewrite Z.div_mul_cancel_r; [done| |lia].
      pose proof (Z.pow_pos_nonneg 2 (- e3)). lia.
    - rewrite <- Z.pow_add_r by lia. f_equal. unfold E. lia. }
  rewrite Hdiv.
  pose proof (Z.sqrt_spec n ltac:(lia)) as Hsn. cbv zeta in Hsn.
  pose proof (Z.sqrt_nonneg n).
  split.
  - apply Z.div_le_lower_bound; [lia|]. nia.
  - apply Z.div_lt_upper_bound; [lia|]. nia.
Qed.

(** ** [range] *)

Lemma range_length start stop step :
  length (range start stop step) = Z.to_nat ((stop - start + step - 1) / step).
Proof. unfold range. by rewrite length_map, length_seq. Qed.

Lemma range_count_lt start stop step k :
  0 < step → 0 ≤ k →
  (k < (stop - start + step - 1) / step ↔ start + step * k < stop).
Proof.
  intros Hstep Hk. split; intros H.
  - pose proof (Z.mul_div_le (stop - start + step - 1) step Hstep). nia.
  - assert (k + 1 ≤ (stop - start + step - 1) / step); [|lia].
    apply Z.div_le_lower_bound; [done|]. nia.
Qed.

Lemma In_range start stop step x :
  0 < step →
  In x (range start stop step) ↔ start ≤ x < stop ∧ (x - start) mod step = 0.
Proof.
  intros Hstep. unfold range. rewrite in_map_iff. split.
  - intros (k & <- & Hk). apply in_seq in Hk.
    assert (Z.of_nat k < (stop - start + step - 1) / step) as Hlt by lia.
    apply range_count_lt in Hlt; [|done|lia].
    split; [nia|].
    replace (start + step * Z.of_nat k - start) with (Z.of_nat k * step) by lia.
    apply Z.mod_mul. lia.
  - intros [[Hlo Hhi] Hmod].
    pose proof (Z.div_mod (x - start) step ltac:(lia)) as Hdm. rewrite Hmod in Hdm.
    set (j := (x - start) / step) in *.
    assert (0 ≤ j) by (apply Z.div_pos; lia).
    exists (Z.to_nat j). split; [lia|].
    apply in_seq. split; [lia|].
    assert (j < (stop - start + step - 1) / step); [|lia].
    apply range_count_lt; [done|done|lia].
Qed.

(** ** The primality test *)

Lemma is_prime_loop_false n candidates :
  is_prime_loop n candidates = false ↔ ∃ i, In i candidates ∧ n mod i = 0.
Proof.
  induction candidates as [|i rest IH]; simpl.
  - split; [done|]. by intros (i & [] & _).
  - destruct (Z.eqb_spec (n mod i) 0) as [Hz|Hnz].
    + split; [|done]. intros _. exists i. auto.
    + rewrite IH. split.
      * intros (j & Hj & Hm). exists j. auto.
      * intros (j & [->|Hj] & Hm); [done|]. exists j. auto.
Qed.

(** A composite odd number has an odd divisor between 3 and its integer
    square root. *)
Lemma odd_composite_divisor n :
  3 ≤ n → n mod 2 ≠ 0 → ¬ Z.prime n →
  ∃ i, 3 ≤ i ≤ Z.sqrt n ∧ i mod 2 = 1 ∧ (i | n).
Proof.
  intros Hn Hodd Hnp. rewrite prime_alt in Hnp.
  destruct (not_prime_divide n ltac:(lia) Hnp) as (d & Hd & c & Hc).
  assert (Hc1 : 1 < c < n) by nia.
  assert (Hsmall : ∃ i j, n = i * j ∧ 1 < i ∧ i ≤ j).
  { destruct (Z.le_gt_cases d c); [exists d, c|exists c, d]; repeat split; lia. }
  destruct Hsmall as (i & j & Hij & Hi & Hle).
  assert (Hiodd : i mod 2 = 1).
  { pose proof (Z.mod_pos_bound i 2 ltac:(lia)).
    destruct (Z.eq_dec (i mod 2) 0) as [Hz|]; [|lia].
    exfalso. apply Hodd. rewrite Hij.
    rewrite <- Z.mul_mod_idemp_l, Hz by lia. done. }
  exists i. repeat split.
  - destruct (Z.eq_dec i 2) as [->|]; [done|lia].
  - apply Z.sqrt_le_square; nia.
  - done.
  - exists j. lia.
Qed.

(** The loop of [is_prime] decides primality whenever its bound lies
    between the integer square root and [n - 1]. *)
Lemma is_prime_loop_correct n r :
  3 ≤ n → n mod 2 ≠ 0 → Z.sqrt n ≤ r < n →
  (is_prime_loop n (range 3 (r + 1) 2) = true ↔ Z.prime n)
  ∧ (is_prime_loop n (range 3 (r + 1) 2) = false
     ↔ ∃ i, 3 ≤ i ≤ Z.sqrt n ∧ i mod 2 = 1 ∧ (i | n)).
Proof.
  intros Hn Hodd Hr.
  assert (Hfalse : is_prime_loop n (range 3 (r + 1) 2) = false ↔ ¬ Z.prime n).
  { rewrite is_prime_loop_false. split.
    - intros (i & Hi & Hm) Hp. apply In_range in Hi as [Hi _]; [|lia].
      apply Z.mod_divide in Hm; [|lia].
      apply (Z.divide_prime_r _ _ Hp) in Hm. lia.
    - intros Hnp. destruct (odd_composite_divisor n Hn Hodd Hnp) as (i & Hi & Hio & Hd).
      exists i. split.
      + apply In_range; [lia|]. split; [lia|].
        pose proof (Z.div_mod i 2 ltac:(lia)).
        replace (i - 3) with ((i / 2 - 1) * 2) by lia. apply Z.mod_mul. lia.
      + apply Z.mod_divide; [lia|done]. }
  split.
  - destruct (is_prime_loop n _); split; try done.
    + intros _. destruct (prime_dec n) as [Hp|Hnp]; [by apply prime_alt|].
      rewrite <- prime_alt in Hnp. by apply Hfalse in Hnp.
    + intros Hp. by apply Hfalse in Hp.
  - rewrite Hfalse. split.
    + by apply odd_composite_divisor.
    + intros (i & Hi & _ & Hd) Hp. apply (Z.divide_prime_r _ _ Hp) in Hd.
      pose proof (Z.sqrt_lt_lin n ltac:(lia)). lia.
Qed.

Lemma not_prime_small n : n < 2 → ¬ Z.prime n.
Proof. intros Hn [H _]. lia. Qed.

Lemma not_prime_even n : 2 < n → n mod 2 = 0 → ¬ Z.prime n.
Proof.
  intros Hn Hm Hp. apply Z.mod_divide in Hm; [|lia].
  apply (Z.divide_prime_r _ _ Hp) in Hm. lia.
Qed.

(** Below [2^53] the test returns, and returns whether [n] is prime. *)
Lemma is_prime_correct n :
  n < 2 ^ 53 →
  ∃ b, is_prime n = Ok b ∧ (b = true ↔ Z.prime n).
Proof.
  intros Hn. unfold is_prime.
  destruct (Z.ltb_spec n 2) as [Hlt|Hge].
  { exists false. split; [done|]. split; [done|]. intros Hp. by apply not_prime_small in Hp. }
  destruct (Z.eqb_spec n 2) as [->|Hne].
  { exists true. split; [done|]. split; [|done]. intros _. apply Z.prime_2. }
  destruct (Z.eqb_spec (n mod 2) 0) as [Hev|Hodd].
  { exists false. split; [done|]. split; [done|]. intros Hp. apply not_prime_even in Hp; [done|lia|done]. }
  destruct (int_sqrt_bounds n ltac:(lia)) as (r & Hr & Hb).
  apply bind_Ok_inv in Hr as (x & Hx & Hr). rewrite Hx. simpl. rewrite Hr. simpl.
  eexists. split; [reflexivity|].
  apply is_prime_loop_correct; [lia|done|done].
Qed.

(** ** The progress percentage *)

Lemma new_location_exact nb_steps : new_location nb_steps 0 = loc_Exact.
Proof. unfold new_location. by destruct (Z.even nb_steps). Qed.

Lemma SFdiv_core_binary_spec a b :
  0 < a → 0 < b →
  let e' := Z.min (fexp64 (Zdigits2 a - Zdigits2 b)) 0 in
  ∃ l, SFdiv_core_binary prec emax a 0 b 0 = ((a * 2 ^ (- e')) / b, e', l)
       ∧ ((a * 2 ^ (- e')) mod b = 0 → l = loc_Exact).
Proof.
  intros Ha Hb e'. unfold SFdiv_core_binary.
  rewrite !Z.add_0_r, Z.sub_0_r. fold e'. rewrite Z.sub_0_l.
  assert (He' : e' ≤ 0) by (unfold e'; lia).
  set (m' := match - e' with Z.pos _ => Z.shiftl a (- e') | 0 => a | Z.neg _ => 0 end).
  assert (Hm' : m' = a * 2 ^ (- e')).
  { unfold m'. destruct (- e') as [|k|k] eqn:Hk; try lia.
    by rewrite Z.shiftl_mul_pow2. }
  assert (Hq : fst (Z.div_eucl m' b) = m' / b) by done.
  assert (Hr : snd (Z.div_eucl m' b) = m' mod b) by done.
  destruct (Z.div_eucl m' b) as [q r]. simpl in Hq, Hr. subst q r. rewrite Hm'.
  eexists. split; [reflexivity|]. intros ->. apply new_location_exact.
Qed.

Lemma float_of_parts_not_infinity sx m e :
  e ≤ 971 → 0 ≤ m →
  match float_of_parts sx m e with
  | S754_infinity _ => Raise OverflowError
  | x => Ok x
  end = Ok (float_of_parts sx m e).
Proof.
  intros He Hm. unfold float_of_parts. destruct m as [|p|p]; try lia; [done|].
  change (emax - prec) with 971. destruct (Z.leb_spec e 971); [done|lia].
Qed.

(** The quotient of two positive integers [p <= t] is a float in [0, 1]. *)
Lemma truediv_spec p t :
  1 ≤ p ≤ t →
  ∃ m e, truediv p t = Ok (float_of_parts false m e)
         ∧ 0 ≤ m ∧ e ≤ 0 ∧ m ≤ 2 ^ (- e)
         ∧ fexp64 (Zdigits2 m + e) = e
         ∧ (t < 2 ^ 1000 → 0 < m)
         ∧ (p = t → m = 2 ^ 52 ∧ e = -52).
Proof.
  intros [Hp Hpt]. unfold truediv.
  destruct (Z.eqb_spec t 0); [lia|]. destruct (Z.eqb_spec p 0); [lia|].
  destruct (Z.ltb_spec p 0); [lia|]. destruct (Z.ltb_spec t 0); [lia|].
  rewrite !Z.abs_eq by lia. simpl xorb.
  destruct (SFdiv_core_binary_spec p t) as (l & Hcore & Hl); [lia|lia|].
  rewrite Hcore. clear Hcore.
  destruct (Zdigits2_bounds p ltac:(lia)) as (Hd1 & Hlo1 & Hhi1).
  destruct (Zdigits2_bounds t ltac:(lia)) as (Hd2 & Hlo2 & Hhi2).
  pose proof (Zdigits2_mono p t ltac:(lia)) as Hd12.
  set (d1 := Zdigits2 p) in *. set (d2 := Zdigits2 t) in *.
  set (e' := Z.min (fexp64 (d1 - d2)) 0) in *.
  assert (He' : e' = fexp64 (d1 - d2) ∧ e' ≤ -53) by (unfold e'; fexp_lia).
  destruct He' as [He'def He'].
  set (s := - e') in *.
  assert (Hs : 53 ≤ s) by (unfold s; lia).
  assert (H2s : 0 < 2 ^ s) by (apply Z.pow_pos_nonneg; lia).
  set (q := (p * 2 ^ s) / t) in *.
  assert (Hq0 : 0 ≤ q) by (apply Z.div_pos; nia).
  assert (Hqle : q ≤ 2 ^ s).
  { apply Z.div_le_upper_bound; [lia|]. nia. }
  (* in the normal range the quotient has at least 53 bits *)
  assert (Hqbig : -1074 < d1 - d2 - 53 → 2 ^ 52 ≤ q).
  { intros Hnorm. assert (s = 53 + d2 - d1) as Hsd by (unfold s; fexp_lia).
    apply Z.div_le_lower_bound; [lia|].
    assert (2 ^ s = 2 ^ 53 * 2 ^ (d2 - d1)) as ->
      by (rewrite <- Z.pow_add_r by lia; f_equal; lia).
    assert (2 ^ d2 = 2 ^ d1 * 2 ^ (d2 - d1)) as Hd2'
      by (rewrite <- Z.pow_add_r by lia; f_equal; lia).
    assert (2 ^ d1 = 2 * 2 ^ (d1 - 1)) as Hd1'
      by (rewrite <- Z.pow_succ_r by lia; f_equal; lia).
    pose proof (Z.pow_pos_nonneg 2 (d2 - d1) ltac:(lia) ltac:(lia)).
    change (2 ^ 53) with (2 * 2 ^ 52). nia. }
  assert (Hhyp : e' ≤ fexp64 (Zdigits2 q + e')).
  { destruct (Z.le_gt_cases (d1 - d2 - 53) (-1074)) as [Hsub|Hnorm].
    - assert (e' = -1074) by fexp_lia. fexp_lia.
    - pose proof (Zdigits2_ge q 52 ltac:(lia) (Hqbig Hnorm)). fexp_lia. }
  destruct (binary_round_aux_spec false q e' l Hq0 Hhyp)
    as (m3 & e3 & Hr & Hm3 & He3 & Hval & Hcan & Hex).
  set (e1 := fexp64 (Zdigits2 q + e')) in *.
  set (m1 := q `div` 2 ^ (e1 - e')) in *.
  assert (Hk : 0 ≤ e1 - e') by lia.
  assert (H2k : 0 < 2 ^ (e1 - e')) by (apply Z.pow_pos_nonneg; lia).
  assert (Hdq : Zdigits2 q ≤ s + 1).
  { apply Zdigits2_le; [lia|]. rewrite Z.pow_add_r by lia. lia. }
  assert (He1 : e1 ≤ -52) by (unfold e1, s in *; fexp_lia).
  assert (Hsplit : 2 ^ s = 2 ^ (e1 - e') * 2 ^ (- e1)).
  { rewrite <- Z.pow_add_r by lia. f_equal. unfold s. lia. }
  assert (H2e1 : 0 < 2 ^ (- e1)) by (apply Z.pow_pos_nonneg; lia).
  assert (HM : m3 * 2 ^ (e3 - e1) ≤ 2 ^ (- e1)
               ∧ (p = t → e1 = -52 ∧ m3 * 2 ^ (e3 - e1) = 2 ^ 52)).
  { destruct (Z.eq_dec p t) as [Heq|Hne].
    - assert (Hq : q = 2 ^ s).
      { unfold q. rewrite Heq, Z.mul_comm. apply Z.div_mul. lia. }
      assert (Hdq' : Zdigits2 q = s + 1).
      { rewrite Hq. apply Zdigits2_unique; [lia|].
        replace (s + 1 - 1) with s by lia. rewrite Z.pow_add_r by lia. lia. }
      assert (He1' : e1 = -52) by (unfold e1, s in *; rewrite Hdq'; fexp_lia).
      assert (Hm1 : m1 = 2 ^ (- e1)).
      { unfold m1. rewrite Hq, Hsplit, Z.mul_comm. apply Z.div_mul. lia. }
      rewrite Hex.
      + rewrite Hm1. split; [lia|]. intros _. split; [done|]. by rewrite He1'.
      + apply Hl. fold s. rewrite Heq, Z.mul_comm. apply Z.mod_mul. lia.
      + rewrite Hq, Hsplit, Z.mul_comm. apply Z.mod_mul. lia.
    - split; [|done].
      assert (q < 2 ^ s) by (apply Z.div_lt_upper_bound; [lia|]; nia).
      assert (m1 < 2 ^ (- e1)); [|lia].
      apply Z.div_lt_upper_bound; [lia|]. lia. }
  destruct HM as [HM HMeq].
  assert (HC : e3 ≤ 0 ∧ m3 ≤ 2 ^ (- e3)).
  { destruct (Z.eq_dec m3 0) as [->|Hnz].
    - simpl in Hcan. split; [fexp_lia|]. apply Z.pow_nonneg. lia.
    - assert (H2e : 0 < 2 ^ (e3 - e1)) by (apply Z.pow_pos_nonneg; lia).
      assert (He30 : e3 ≤ 0).
      { assert (2 ^ (e3 - e1) ≤ 2 ^ (- e1)) as Hpw by nia.
        apply Z.pow_le_mono_r_iff in Hpw; lia. }
      split; [done|].
      assert (2 ^ (- e1) = 2 ^ (- e3) * 2 ^ (e3 - e1)) as Hsp
        by (rewrite <- Z.pow_add_r by lia; f_equal; lia).
      rewrite Hsp in HM. nia. }
  destruct HC as [He30 Hm3le].
  rewrite Hr. rewrite float_of_parts_not_infinity; [|lia|done].
  exists m3, e3. do 5 (split; [done|]). split.
  - intros Ht.
    assert (Hd2le : d2 ≤ 1000) by (apply Zdigits2_le; lia).
    assert (Hq52 : 2 ^ 52 ≤ q) by (apply Hqbig; lia).
    destruct (Zdigits2_bounds q ltac:(lia)) as (Hdq1 & Hqlo & Hqhi).
    pose proof (Zdigits2_ge q 52 ltac:(lia) Hq52) as Hdq53.
    assert (Hkq : e1 - e' = Zdigits2 q - 53) by (unfold e1 in *; fexp_lia).
    assert (1 ≤ m1); [|nia].
    unfold m1. apply Z.div_le_lower_bound; [lia|]. rewrite Hkq, Z.mul_1_r.
    pose proof (Z.pow_le_mono_r 2 (Zdigits2 q - 53) (Zdigits2 q - 1)). lia.
  - intros Heq. destruct (HMeq Heq) as [He1' HMv]. rewrite He1' in *.
    destruct (canonical_unique (2 ^ 52) (-52) m3 e3) as [-> ->]; try done.
Qed.

Lemma float_of_int_100 : float_of_int 100 = Ok hundred.
Proof. reflexivity. Qed.

Lemma SFleb_finite (m : positive) e (m' : positive) e' :
  e < e' ∨ (e = e' ∧ Z.pos m ≤ Z.pos m') →
  SFleb (S754_finite false m e) (S754_finite false m' e') = true.
Proof.
  intros H. unfold SFleb, SFcompare.
  destruct (Z.compare_spec e e') as [Heq|Hlt|Hgt]; [|done|lia].
  destruct H as [|[_ Hm]]; [lia|].
  fold (Pos.compare m m').
  destruct (Pos.compare_spec m m'); try done. lia.
Qed.

Lemma SFleb_hundred (m : positive) e :
  e < -46 ∨ (e = -46 ∧ Z.pos m ≤ 7036874417766400) →
  SFleb (S754_finite false m e) hundred = true.
Proof. apply SFleb_finite. Qed.

(** A float in [0, 1] times 100 is a float in [0, 100]. *)
Lemma times_hundred_spec m e :
  0 ≤ m → e ≤ 0 → m ≤ 2 ^ (- e) → fexp64 (Zdigits2 m + e) = e →
  ∃ x, float_mul_int (float_of_parts false m e) 100 = Ok x
       ∧ SFleb (S754_zero false) x = true
       ∧ SFleb x hundred = true
       ∧ (0 < m → SFltb (S754_zero false) x = true)
       ∧ (m = 2 ^ 52 → e = -52 → x = hundred).
Proof.
  intros Hm He Hle Hcan. unfold float_mul_int. rewrite float_of_int_100. simpl mbind.
  destruct (Z.eq_dec m 0) as [->|Hnz].
  { exists (S754_zero false). split; [reflexivity|]. split; [reflexivity|].
    split; [reflexivity|]. split; [lia|]. intros H. discriminate H. }
  rewrite float_of_parts_finite by lia.
  destruct (Z.eq_dec m (2 ^ (- e))) as [Hone|Hlt].
  { (* the factor is 1.0 *)
    assert (Hd : Zdigits2 m = - e + 1).
    { apply Zdigits2_unique; [lia|]. rewrite Hone.
      replace (- e + 1 - 1) with (- e) by lia. rewrite Z.pow_add_r by lia. 
      pose proof (Z.pow_pos_nonneg 2 (- e)). lia. }
    assert (e = -52) as -> by (rewrite Hd in Hcan; fexp_lia).
    rewrite Hone. exists hundred. split; [vm_compute; reflexivity|].
    split; [reflexivity|]. split; [reflexivity|]. split; [reflexivity|]. reflexivity. }
  assert (Hmlt : m < 2 ^ (- e)) by lia. clear Hle Hlt.
  unfold SFmul, hundred. simpl xorb.
  set (M := 7036874417766400).
  change (Z.pos (Z.to_pos m * 7036874417766400)) with (Z.pos (Z.to_pos m) * M).
  rewrite Z2Pos.id by lia.
  assert (HM : 2 ^ 52 ≤ M < 2 ^ 53) by (unfold M; lia).
  set (mx := m * M). set (D := Zdigits2 mx).
  destruct (Zdigits2_bounds m ltac:(lia)) as (Hdm & Hmlo & Hmhi).
  assert (H2e : 0 < 2 ^ (- e)) by (apply Z.pow_pos_nonneg; lia).
  assert (Hmx0 : 0 < mx) by (unfold mx; nia).
  destruct (Zdigits2_bounds mx Hmx0) as (HD1 & Hxlo & Hxhi). fold D in HD1, Hxlo, Hxhi.
  assert (HDlo : Zdigits2 m + 52 ≤ D).
  { rewrite <- (Zdigits2_mul_pow2 m 52) by lia. apply Zdigits2_mono. unfold mx. nia. }
  assert (HDhi : D ≤ 53 - e).
  { apply Zdigits2_le; [lia|].
    assert (2 ^ (53 - e) = 2 ^ 53 * 2 ^ (- e)) as ->
      by (rewrite <- Z.pow_add_r by lia; f_equal; lia).
    unfold mx. nia. }
  assert (Hhyp : e + -46 ≤ fexp64 (D + (e + -46))) by fexp_lia.
  destruct (binary_round_aux_spec false mx (e + -46) loc_Exact ltac:(lia) Hhyp)
    as (m3 & e3 & Hr & Hm3 & He3 & Hval & Hcan3 & _).
  fold D in Hr, He3, Hval.
  set (e1 := fexp64 (D + (e + -46))) in *.
  set (m1 := mx `div` 2 ^ (e1 - (e + -46))) in *.
  assert (He1 : e1 ≤ -46) by (unfold e1; fexp_lia).
  assert (Hemin : -1074 ≤ e) by fexp_lia.
  set (k := e1 - (e + -46)) in *.
  assert (Hk : 0 ≤ k ≤ D - 1) by (unfold k, e1; fexp_lia).
  assert (H2k : 0 < 2 ^ k) by (apply Z.pow_pos_nonneg; lia).
  set (U := M * 2 ^ (-46 - e1)).
  assert (H2u : 0 < 2 ^ (-46 - e1)) by (apply Z.pow_pos_nonneg; lia).
  assert (Hsplit : 2 ^ (- e) = 2 ^ k * 2 ^ (-46 - e1)).
  { rewrite <- Z.pow_add_r by lia. f_equal. unfold k. lia. }
  assert (Hm1hi : m1 < U).
  { apply Z.div_lt_upper_bound; [lia|]. unfold mx, U. nia. }
  assert (Hm1lo : 1 ≤ m1).
  { apply Z.div_le_lower_bound; [lia|]. rewrite Z.mul_1_r.
    pose proof (Z.pow_le_mono_r 2 k (D - 1)). lia. }
  assert (H2e3 : 0 < 2 ^ (e3 - e1)) by (apply Z.pow_pos_nonneg; lia).
  assert (Hm3pos : 0 < m3) by nia.
  destruct (Zdigits2_bounds m3 Hm3pos) as (Hd3 & Hlo3 & Hhi3).
  assert (He3hi : e3 < -46 ∨ (e3 = -46 ∧ m3 ≤ M)).
  { destruct (Z.lt_trichotomy e3 (-46)) as [|[Heq|Hgt]]; [by left| |].
    - right. split; [done|]. rewrite Heq in *. unfold U in *. nia.
    - exfalso.
      assert (Zdigits2 m3 = 53) as Hd53 by fexp_lia.
      rewrite Hd53 in *. change (2 ^ (53 - 1)) with (2 ^ 52) in Hlo3.
      assert (2 ^ (e3 - e1) = 2 ^ (e3 + 46) * 2 ^ (-46 - e1)) as Hsp
        by (rewrite <- Z.pow_add_r by lia; f_equal; lia).
      pose proof (Z.pow_le_mono_r 2 1 (e3 + 46) ltac:(lia) ltac:(lia)) as Hp1.
      change (2 ^ 1) with 2 in Hp1. change (2 ^ 53) with (2 * 2 ^ 52) in HM.
      unfold U in *. nia. }
  rewrite Hr, float_of_parts_finite by lia.
  eexists. split; [reflexivity|]. split; [done|]. split.
  - apply SFleb_hundred. rewrite Z2Pos.id by lia. done.
  - split; [done|]. intros -> ->. simpl in Hmlt. lia.
Qed.

(** The percentage reported after [p] of [t] numbers. *)
Lemma percentage_spec p t :
  1 ≤ p ≤ t →
  ∃ x, percentage p t = Ok x
       ∧ SFleb (S754_zero false) x = true
       ∧ SFleb x hundred = true
       ∧ (t < 2 ^ 1000 → SFltb (S754_zero false) x = true)
       ∧ (p = t → x = hundred).
Proof.
  intros Hpt. unfold percentage.
  destruct (truediv_spec p t Hpt) as (m & e & Hdiv & Hm & He & Hle & Hcan & Hpos & Heq).
  rewrite Hdiv. simpl mbind.
  destruct (times_hundred_spec m e Hm He Hle Hcan) as (x & Hx & H0 & H100 & Hgt & Hone).
  exists x. repeat split; try done.
  - intros Ht. apply Hgt, Hpos, Ht.
  - intros Hp. destruct (Heq Hp) as [-> ->]. by apply Hone.
Qed.

(** ** The batch driver *)

Lemma combine_map_same {A B C : Type} (f : A → B) (g : A → C) (l : list A) :
  combine (map f l) (map g l) = map (λ x, (f x, g x)) l.
Proof. induction l as [|x l IH]; simpl; [done|]. by rewrite IH. Qed.

Lemma enumerate_range start stop :
  enumerate (range start stop 1)
  = map (λ k : nat, (Z.of_nat k, start + Z.of_nat k)) (seq 0 (Z.to_nat (stop - start))).
Proof.
  unfold enumerate. rewrite range_length. unfold range.
  replace ((stop - start + 1 - 1) / 1) with (stop - start) by (rewrite Z.div_1_r; lia).
  rewrite combine_map_same. apply map_ext. intros k. f_equal. lia.
Qed.

(** The loop over the positions [a], [a + 1], ... of the range. *)
Lemma batch_loop_run cb start total blocks fs len :
  ∀ (a : nat) results trace,
  Z.of_nat (a + len) ≤ total →
  (∀ k, (a ≤ k < a + len)%nat →
        ∃ r, process_number (start + Z.of_nat k) blocks (Some fs) = Ok r) →
  ∃ rs,
    batch_loop cb total blocks fs
      (map (λ k : nat, (Z.of_nat k, start + Z.of_nat k)) (seq a len)) results trace
    = (Ok (results ++ rs),
       trace ++ flat_map (λ k : nat, step_events cb start total (Z.of_nat k + 1)) (seq a len))
    ∧ Forall2 (λ (k : nat) r, process_number (start + Z.of_nat k) blocks (Some fs) = Ok r)
              (seq a len) rs.
Proof.
  induction len as [|len IH]; intros a results trace Htot Hev.
  - exists []. simpl. rewrite !app_nil_r. split; [done|constructor].
  - destruct (Hev a ltac:(lia)) as [r Hr].
    destruct (percentage_spec (Z.of_nat a + 1) total ltac:(lia)) as (x & Hx & _).
    destruct (IH (S a) (results ++ [r])
                 (if cb && reports (Z.of_nat a + 1) total
                  then (trace ++ [Evaluate (start + Z.of_nat a)]) ++ [Progress x]
                  else trace ++ [Evaluate (start + Z.of_nat a)]))
      as (rs & Hrun & Hrs); [lia|intros k Hk; apply Hev; lia|].
    exists (r :: rs). split; [|by constructor].
    cbn [seq map batch_loop flat_map]. rewrite Hr.
    assert (Hrep : ((Z.of_nat a + 1) mod 50 =? 0) || (Z.of_nat a =? total - 1)
                   = reports (Z.of_nat a + 1) total).
    { unfold reports. f_equal.
      destruct (Z.eqb_spec (Z.of_nat a) (total - 1)), (Z.eqb_spec (Z.of_nat a + 1) total);
        (done || lia). }
    rewrite Hrep. fold (percentage (Z.of_nat a + 1) total). rewrite Hx.
    unfold step_events at 1. unfold progress_of. rewrite Hx.
    replace (start + (Z.of_nat a + 1) - 1) with (start + Z.of_nat a) by lia.
    destruct (cb && reports (Z.of_nat a + 1) total); rewrite Hrun;
      f_equal; by rewrite <- ?app_assoc.
Qed.



Lemma range_step_1 start stop :
  range start stop 1 = map (λ k : nat, start + Z.of_nat k) (seq 0 (Z.to_nat (stop - start))).
Proof.
  unfold range. replace ((stop - start + 1 - 1) / 1) with (stop - start) by (rewrite Z.div_1_r; lia).
  apply map_ext. intros k. lia.
Qed.


(** ** Only the validation raises [ValueError] *)

Lemma no_ValueError_Ok {A : Type} (a : A) : no_ValueError (Ok a).
Proof. intros msg. discriminate. Qed.

Lemma no_ValueError_Raise {A B : Type} (e : exn) :
  no_ValueError (Raise e : result A) → no_ValueError (Raise e : result B).
Proof. intros H msg [= ->]. by apply (H msg). Qed.

Lemma no_ValueError_bind {A B : Type} (m : result A) (f : A → result B) :
  no_ValueError m → (∀ a, m = Ok a → no_ValueError (f a)) → no_ValueError (m ≫= f).
Proof.
  intros Hm Hf msg. destruct m as [a|e]; simpl.
  - by apply Hf.
  - intros [= ->]. by apply (Hm msg).
Qed.

Lemma shr_fexp_nonneg m e l :
  0 ≤ m → 0 ≤ shr_m (fst (shr_fexp prec emax m e l)).
Proof.
  intros Hm. unfold shr_fexp, shr.
  destruct (fexp64 (Zdigits2 m + e) - e) as [|k|k]; simpl;
    rewrite ?shr_m_record_of_loc; try done.
  rewrite iter_pos_nat.
  destruct (shr_iter_spec (Pos.to_nat k) (shr_record_of_loc m l)) as [-> _];
    rewrite shr_m_record_of_loc; [done|].
  apply Z.div_pos; [done|]. apply Z.pow_pos_nonneg; lia.
Qed.

(** Rounding a non-negative mantissa never yields a NaN. *)
Lemma binary_round_aux_parts sx mx ex lx :
  0 ≤ mx → ∃ m e, 0 ≤ m ∧ binary_round_aux prec emax sx mx ex lx = float_of_parts sx m e.
Proof.
  intros Hmx. unfold binary_round_aux.
  pose proof (shr_fexp_nonneg mx ex lx Hmx) as H1.
  destruct (shr_fexp prec emax mx ex lx) as [mrs' e']. simpl in H1.
  pose proof (round_nearest_even_bounds (shr_m mrs') (loc_of_shr_record mrs')) as [Hr _].
  pose proof (shr_fexp_nonneg (round_nearest_even (shr_m mrs') (loc_of_shr_record mrs'))
                e' loc_Exact ltac:(lia)) as H2.
  destruct (shr_fexp prec emax _ e' loc_Exact) as [mrs'' e'']. simpl in H2.
  exists (shr_m mrs''), e''. split; [done|]. reflexivity.
Qed.

Lemma float_of_int_pos n :
  0 < n →
  float_of_int n = Raise OverflowError
  ∨ float_of_int n = Ok (S754_zero false)
  ∨ ∃ p e, float_of_int n = Ok (S754_finite false p e).
Proof.
  intros Hn. unfold float_of_int, binary_normalize. destruct n as [|p|p]; try lia.
  unfold binary_round. destruct (shl_align p 0 _) as [mz ez].
  destruct (binary_round_aux_parts false (Z.pos mz) ez loc_Exact) as (m & e & Hm & ->); [lia|].
  unfold float_of_parts. destruct m as [|q|q]; try lia; [auto|].
  destruct (e <=? emax - prec); eauto.
Qed.

Lemma int_of_float_parts m e :
  0 ≤ m → no_ValueError (int_of_float (float_of_parts false m e)).
Proof.
  intros Hm msg. unfold float_of_parts. destruct m as [|q|q]; try lia; [done|].
  by destruct (e <=? emax - prec).
Qed.

Lemma sqrt_int_no_ValueError n :
  0 < n → no_ValueError (x ← math_sqrt n; int_of_float x).
Proof.
  intros Hn. unfold math_sqrt.
  destruct (float_of_int_pos n Hn) as [->|[->|(p & e & ->)]]; simpl.
  - intros msg. discriminate.
  - apply no_ValueError_Ok.
  - destruct (SFsqrt_core_binary_spec (Z.pos p) e) as (q & l & -> & _ & Hq); [lia|].
    destruct (binary_round_aux_parts false q
                (Z.min (fexp64 (Z.div2 (Zdigits2 (Z.pos p) + e + 1))) (Z.div2 e)) l)
      as (m' & e' & Hm' & ->).
    { rewrite Hq. apply Z.sqrt_nonneg. }
    by apply int_of_float_parts.
Qed.

Lemma is_prime_no_ValueError n : no_ValueError (is_prime n).
Proof.
  unfold is_prime. destruct (n <? 2) eqn:H2; [apply no_ValueError_Ok|].
  destruct (n =? 2); [apply no_ValueError_Ok|].
  destruct (n mod 2 =? 0); [apply no_ValueError_Ok|].
  intros msg H.
  destruct (x ← math_sqrt n; int_of_float x) as [r|e] eqn:Hr.
  - apply bind_Ok_inv in Hr as (x & Hx & Hr). rewrite Hx in H. simpl in H.
    rewrite Hr in H. discriminate.
  - assert (e = ValueError msg) as ->.
    { destruct (math_sqrt n) as [x|e']; simpl in *; [|congruence].
      destruct (int_of_float x); simpl in *; congruence. }
    apply (sqrt_int_no_ValueError n) in Hr; [done|]. apply Z.ltb_ge in H2. lia.
Qed.

Lemma getitem_no_ValueError d k : no_ValueError (getitem d k).
Proof. intros msg. unfold getitem. by destruct (d !! k). Qed.

Lemma py_mod_no_ValueError a b : no_ValueError (py_mod a b).
Proof. intros msg. destruct b as [d|s]; simpl; [|done]. by destruct (d =? 0). Qed.

Lemma py_le_no_ValueError a b : no_ValueError (py_le a b).
Proof. intros msg. by destruct a, b. Qed.

Lemma join_no_ValueError parts : no_ValueError (join parts).
Proof.
  induction parts as [|[z|s] parts IH]; simpl.
  - apply no_ValueError_Ok.
  - intros msg. discriminate.
  - apply no_ValueError_bind; [done|]. intros. apply no_ValueError_Ok.
Qed.

Lemma block_matches_no_ValueError n fs b : no_ValueError (block_matches n fs b).
Proof.
  unfold block_matches.
  apply no_ValueError_bind.
  { destruct (bool_decide _); [|apply no_ValueError_Ok].
    apply no_ValueError_bind; [apply getitem_no_ValueError|]. intros d _.
    apply no_ValueError_bind; [apply py_mod_no_ValueError|]. intros. apply no_ValueError_Ok. }
  intros [] _; [apply no_ValueError_Ok|].
  apply no_ValueError_bind.
  { destruct (bool_decide _); [apply is_prime_no_ValueError|apply no_ValueError_Ok]. }
  intros [] _; [apply no_ValueError_Ok|].
  destruct (_ && _); [apply no_ValueError_Ok|].
  destruct (bool_decide _); [|apply no_ValueError_Ok].
  apply no_ValueError_bind; [apply getitem_no_ValueError|]. intros s _.
  apply no_ValueError_bind; [apply py_le_no_ValueError|].
  intros [] _; [|apply no_ValueError_Ok].
  apply no_ValueError_bind; [apply getitem_no_ValueError|]. intros e _.
  apply py_le_no_ValueError.
Qed.

Lemma process_loop_no_ValueError n fs bs parts mbs :
  no_ValueError (process_loop n fs bs parts mbs).
Proof.
  revert parts mbs. induction bs as [|b bs IH]; intros parts mbs; simpl.
  - apply no_ValueError_Ok.
  - apply no_ValueError_bind; [apply block_matches_no_ValueError|].
    intros [] _; [|apply IH].
    apply no_ValueError_bind; [apply getitem_no_ValueError|]. intros w _. apply IH.
Qed.

Lemma process_number_no_ValueError n blocks fs : no_ValueError (process_number n blocks fs).
Proof.
  unfold process_number.
  apply no_ValueError_bind; [apply process_loop_no_ValueError|].
  intros [parts mbs] _.
  apply no_ValueError_bind; [|intros; apply no_ValueError_Ok].
  destruct parts; [apply no_ValueError_Ok|apply join_no_ValueError].
Qed.

Lemma percentage_no_ValueError p t : no_ValueError (percentage p t).
Proof.
  unfold percentage. apply no_ValueError_bind.
  - intros msg. unfold truediv. destruct (t =? 0); [done|]. destruct (p =? 0); [done|].
    destruct (SFdiv_core_binary _ _ _ _ _ _) as [[q e] l].
    by destruct (binary_round_aux _ _ _ _ _ _).
  - intros x _. unfold float_mul_int. rewrite float_of_int_100. apply no_ValueError_Ok.
Qed.

Lemma batch_loop_no_ValueError cb total blocks fs items results trace :
  no_ValueError (fst (batch_loop cb total blocks fs items results trace)).
Proof.
  revert results trace. induction items as [|[i n] items IH]; intros results trace; simpl.
  - apply no_ValueError_Ok.
  - pose proof (process_number_no_ValueError n blocks (Some fs)) as Hp.
    destruct (process_number n blocks (Some fs)) as [r|e];
      [|by apply (no_ValueError_Raise e Hp)].
    destruct (cb && _); [|apply IH].
    pose proof (percentage_no_ValueError (i + 1) total) as Hq. unfold percentage in Hq.
    destruct (q ← truediv (i + 1) total; float_mul_int q 100) as [x|e];
      [apply IH|by apply (no_ValueError_Raise e Hq)].
Qed.

(** A run raises [ValueError] exactly when the validation fails, and then
    nothing has been evaluated or reported. *)
Lemma batch_ValueError start end_ blocks cb :
  ((∃ msg, fst (generate_fizzbuzz_batch start end_ blocks cb) = Raise (ValueError msg))
   ↔ blocks = [] ∨ start >= end_ ∨ start < 1)
  ∧ (blocks = [] ∨ start >= end_ ∨ start < 1 →
     snd (generate_fizzbuzz_batch start end_ blocks cb) = []).
Proof.
  unfold generate_fizzbuzz_batch. destruct blocks as [|b blocks].
  { split; [split; [auto|eauto]|done]. }
  destruct (Z.geb_spec start end_) as [Hge|Hlt].
  { split; [split; [intros _; right; left; lia|eauto]|done]. }
  destruct (Z.ltb_spec start 1) as [Hlt1|Hge1].
  { split; [split; [auto|eauto]|done]. }
  split; [|intros [|[|]]; (done || lia)].
  split; [|intros [|[|]]; (done || lia)].
  intros [msg H]. exfalso. revert H.
  destruct (if existsb _ (b :: blocks) then generate_fibonacci_set end_ else Ok ∅)
    as [fs|e] eqn:Hfs.
  - apply batch_loop_no_ValueError.
  - destruct (existsb _ _); [|done].
    destruct (generate_fibonacci_set_spec end_) as (fs & Hfs' & _). congruence.
Qed.


(** ** Example rule lists *)



Lemma prime_defined_below n blocks : n < 2 ^ 53 → prime_defined n blocks.
Proof.
  intros Hn _. destruct (is_prime_correct n Hn) as (b & Hb & _). by exists b.
Qed.


(** The examples of the specification. *)
Example evaluate_15 :
  process_number 15 fizz_buzz None
  = Ok {| number := 15; text := "FizzBuzz"; result_type := "FizzBuzz";
          matching_blocks := fizz_buzz |}.
Proof. vm_compute. reflexivity. Qed.

Example evaluate_9 :
  process_number 9 fizz_buzz None
  = Ok {| number := 9; text := "Fizz"; result_type := "Fizz";
          matching_blocks := [divisor_rule 3 "Fizz" 0] |}.
Proof. vm_compute. reflexivity. Qed.

Example evaluate_10 :
  process_number 10 fizz_buzz None
  = Ok {| number := 10; text := "Buzz"; result_type := "Buzz";
          matching_blocks := [divisor_rule 5 "Buzz" 1] |}.
Proof. vm_compute. reflexivity. Qed.

Example evaluate_7 :
  process_number 7 fizz_buzz None
  = Ok {| number := 7; text := "7"; result_type := "number"; matching_blocks := [] |}.
Proof. vm_compute. reflexivity. Qed.

Example evaluate_13_fibonacci :
  process_number 13 [word_rule FIBONACCI "Fib" 0] (Some {[1; 2; 3; 5; 8; 13]})
  = Ok {| number := 13; text := "Fib"; result_type := "Fib";
          matching_blocks := [word_rule FIBONACCI "Fib" 0] |}.
Proof. vm_compute. reflexivity. Qed.

(** * The claims *)





Lemma existsb_map {A B : Type} (f : B → bool) (g : A → B) (l : list A) :
  existsb f (map g l) = existsb (λ x, f (g x)) l.
Proof. induction l as [|x l IH]; simpl; [done|]. by rewrite IH. Qed.

(** The classification reads only the kind and the word of the blocks. *)
Lemma classify_kind_word ms ms' :
  map (λ b, (block_type b, properties b !! "word")) ms
  = map (λ b, (block_type b, properties b !! "word")) ms' →
  classify ms = classify ms'.
Proof.
  set (view := λ b : RuleBlock, (block_type b, properties b !! "word")).
  set (dw := λ (w : string) (v : BlockType * option value),
               bool_decide (v.1 = DIVISOR) && bool_decide (v.2 = Some (VStr w))).
  assert (Hdw : ∀ w b, divisor_with_word w b = dw w (view b)) by done.
  assert (Hex : ∀ w l, existsb (divisor_with_word w) l = existsb (dw w) (map view l)).
  { intros w l. by rewrite existsb_map. }
  intros Heq. unfold classify.
  destruct ms as [|a [|a' ms]], ms' as [|b [|b' ms']]; try discriminate; [done| |].
  - injection Heq as Hk Hw. rewrite !Hdw. unfold view. by rewrite Hk, Hw.
  - by rewrite !Hex, Heq.
Qed.

(** C3: the classification tag of an evaluation result: [number] when no
    rule matches; for exactly one matching rule the tag of its kind, where a
    divisor-rule is [Fizz] or [Buzz] when its word is exactly that and
    [divisor_custom] otherwise; for two or more, [FizzBuzz] when a
    divisor-rule with word "Fizz" and one with word "Buzz" match and
    [combination] otherwise.  The tag depends on the kinds and the words of
    the matching rules only, not on their names or ids. *)
Theorem process_number_result_type n blocks fib_set r :
  process_number n blocks fib_set = Ok r →
  result_type r = classify (matching_blocks r)
  ∧ ∀ ms, map (λ b, (block_type b, properties b !! "word")) ms
          = map (λ b, (block_type b, properties b !! "word")) (matching_blocks r) →
          classify ms = result_type r.
Proof.
  intros Hr. apply process_number_inv in Hr as [_ Hr]. split; [done|].
  intros ms Hms. rewrite Hr. by apply classify_kind_word.
Qed.

Lemma process_number_result_type_witness :
  process_number 15 fizz_buzz None
  = Ok {| number := 15; text := "FizzBuzz"; result_type := "FizzBuzz";
          matching_blocks := fizz_buzz |}
  ∧ "FizzBuzz"%string = classify fizz_buzz.
Proof.
  assert (H : process_number 15 fizz_buzz None
              = Ok {| number := 15; text := "FizzBuzz"; result_type := "FizzBuzz";
                      matching_blocks := fizz_buzz |}) by (vm_compute; reflexivity).
  split; [exact H|].
  exact (proj1 (process_number_result_type 15 fizz_buzz None _ H)).
Defined.






(** *** Progress reports *)











(** *** The primality test *)

(** X1: below [2^53] the test returns whether the number is prime, by the
    cases of the claim. *)
Lemma is_prime_below_2_53 n :
  n < 2 ^ 53 →
  ∃ b, is_prime n = Ok b
       ∧ (b = true ↔ Z.prime n)
       ∧ (n < 2 → b = false)
       ∧ (n = 2 → b = true)
       ∧ (2 < n → n mod 2 = 0 → b = false)
       ∧ (2 < n → n mod 2 = 1 →
          (b = false ↔ ∃ i, 3 ≤ i ≤ Z.sqrt n ∧ i mod 2 = 1 ∧ (i | n))).
Proof.
  intros Hn. destruct (is_prime_correct n Hn) as (b & Hb & Hprime).
  exists b. split; [done|]. split; [done|].
  assert (Hfalse : ¬ Z.prime n → b = false).
  { intros Hnp. destruct b; [|done]. exfalso. by apply Hnp, Hprime. }
  split; [intros H; by apply Hfalse, not_prime_small|].
  split; [intros ->; apply Hprime, Z.prime_2|].
  split; [intros H2 He; by apply Hfalse, not_prime_even|].
  intros H2 Hodd. split.
  - intros ->. apply odd_composite_divisor; [lia|lia|]. intros Hp.
    by apply Hprime in Hp.
  - intros (i & Hi & _ & Hd). apply Hfalse. intros Hp.
    apply (Z.divide_prime_r _ _ Hp) in Hd.
    pose proof (Z.sqrt_lt_lin n ltac:(lia)). lia.
Qed.

(** An integer of at least [2^1024] does not convert to a float. *)
Lemma float_of_int_overflow n :
  2 ^ 1024 ≤ n → float_of_int n = Raise OverflowError.
Proof.
  intros Hn.
  assert (Hpos : 0 < n) by (pose proof (Z.pow_pos_nonneg 2 1024); lia).
  pose proof (Zdigits2_ge n 1024 ltac:(lia) Hn) as Hd.
  destruct (Zdigits2_bounds n Hpos) as (_ & Hlo & Hhi).
  unfold float_of_int, binary_normalize. destruct n as [|p|p]; try lia.
  unfold binary_round.
  pose proof (shl_align_spec p 0 (fexp64 (Z.pos (digits2_pos p) + 0))) as Hal.
  destruct (shl_align p 0 _) as [mz ez]. destruct Hal as [Hez Hmz].
  change (Z.pos (digits2_pos p)) with (Zdigits2 (Z.pos p)) in Hez.
  set (d := Zdigits2 (Z.pos p)) in *.
  assert (ez = 0) as -> by fexp_lia.
  rewrite Z.sub_diag, Z.mul_1_r in Hmz. injection Hmz as ->.
  destruct (binary_round_aux_spec false (Z.pos p) 0 loc_Exact)
    as (m3 & e3 & Hr & Hm3 & He3 & Hval & Hcan & _); [lia|fold d; fexp_lia|].
  fold d in He3, Hval.
  assert (He1 : fexp64 (d + 0) = d - 53) by fexp_lia.
  rewrite He1 in *. rewrite Z.sub_0_r in Hval.
  assert (H1 : 1 ≤ Z.pos p `div` 2 ^ (d - 53)).
  { apply Z.div_le_lower_bound; [apply Z.pow_pos_nonneg; lia|]. rewrite Z.mul_1_r.
    pose proof (Z.pow_le_mono_r 2 (d - 53) (d - 1)). lia. }
  assert (0 < 2 ^ (e3 - (d - 53))) by (apply Z.pow_pos_nonneg; lia).
  assert (Hm3pos : 0 < m3) by nia.
  rewrite Hr. unfold float_of_parts. destruct m3 as [|q|q]; try lia.
  change (emax - prec) with 971. destruct (Z.leb_spec e3 971); [lia|done].
Qed.

(** X2: on every odd number from [2^1024] on, [is_prime] raises
    [OverflowError]. *)
Lemma is_prime_overflow_above n :
  2 ^ 1024 ≤ n → n mod 2 = 1 → is_prime n = Raise OverflowError.
Proof.
  intros Hn Hodd.
  assert (2 ^ 2 ≤ 2 ^ 1024) by (apply Z.pow_le_mono_r; lia).
  change (2 ^ 2) with 4 in *.
  unfold is_prime. destruct (Z.ltb_spec n 2); [lia|].
  destruct (Z.eqb_spec n 2); [lia|]. rewrite Hodd. simpl.
  unfold math_sqrt. by rewrite float_of_int_overflow.
Qed.

(** C7 fails on large numbers: on the odd number [2^1024 + 1] the conversion
    to a float inside [math.sqrt] overflows and [is_prime] raises
    [OverflowError] instead of returning whether the number is prime. *)
Theorem is_prime_overflow : is_prime (2 ^ 1024 + 1) = Raise OverflowError.
Proof. vm_compute. reflexivity. Qed.

(** *** The Fibonacci set *)

(** C8: [generate_fibonacci_set] returns the set of the numbers of the
    sequence 1, 1, 2, 3, 5, 8, ... that are at most [max_value]; the set is
    empty when [max_value < 1]; it is empty for 0, [{1}] for 1 and
    [{1, 2, 3, 5, 8}] for 10. *)
Theorem generate_fibonacci_set_correct max_value :
  ∃ s, generate_fibonacci_set max_value = Ok s
       ∧ (∀ x, x ∈ s ↔ x ≤ max_value ∧ ∃ k, (1 ≤ k)%nat ∧ fib k = x)
       ∧ (max_value < 1 → s = ∅)
       ∧ generate_fibonacci_set 0 = Ok ∅
       ∧ generate_fibonacci_set 1 = Ok {[1]}
       ∧ generate_fibonacci_set 10 = Ok {[1; 2; 3; 5; 8]}.
Proof.
  destruct (generate_fibonacci_set_spec max_value) as (s & Hs & Hmem).
  exists s. split; [done|]. split; [done|]. split.
  - intros Hlt. unfold generate_fibonacci_set in Hs.
    destruct (Z.ltb_spec max_value 1); [congruence|lia].
  - repeat split; vm_compute; reflexivity.
Qed.

(** *** Determinism *)


(** *** The default Fibonacci set *)

(** The blocks the loop collects are blocks on which the [if]/[elif] chain
    returned true. *)
Lemma process_loop_collects n fs bs parts mbs parts' mbs' :
  process_loop n fs bs parts mbs = Ok (parts', mbs') →
  ∀ b, In b mbs' → In b mbs ∨ (In b bs ∧ block_matches n fs b = Ok true).
Proof.
  revert parts mbs. induction bs as [|b0 bs IH]; intros parts mbs; simpl.
  - intros [= <- <-] b Hb. by left.
  - intros H b Hb. apply bind_Ok_inv in H as (m & Hm & H). destruct m.
    + apply bind_Ok_inv in H as (w & _ & H).
      destruct (IH _ _ H b Hb) as [Hin|[Hin Hb']]; [|by auto].
      apply in_app_or in Hin as [Hin|[<-|[]]]; auto.
    + destruct (IH _ _ H b Hb) as [Hin|[Hin Hb']]; auto.
Qed.

Lemma block_matches_fibonacci_empty n b :
  block_type b = FIBONACCI → block_matches n ∅ b ≠ Ok true.
Proof.
  intros Hb. unfold block_matches. rewrite Hb. simpl.
  rewrite bool_decide_eq_false_2 by set_solver. done.
Qed.

(** C10: a call of [process_number] without a Fibonacci set is a call with
    the empty set, and no fibonacci-rule is among its matching rules. *)
Theorem process_number_default_fibonacci_set n blocks :
  process_number n blocks None = process_number n blocks (Some ∅)
  ∧ ∀ r, process_number n blocks None = Ok r →
         ∀ b, In b (matching_blocks r) → block_type b ≠ FIBONACCI.
Proof.
  split; [reflexivity|]. intros r Hr b Hb Hfib.
  unfold process_number in Hr.
  apply bind_Ok_inv in Hr as ([parts mbs] & Hloop & Hr).
  apply bind_Ok_inv in Hr as (txt & _ & [= <-]). simpl in Hb.
  destruct (process_loop_collects _ _ _ _ _ _ _ Hloop b Hb) as [[]|[_ Hm]].
  by apply (block_matches_fibonacci_empty n b).
Qed.

Lemma process_number_default_fibonacci_set_witness :
  ∃ r, process_number 13 [word_rule FIBONACCI "Fib" 0; word_rule PRIME "Prime" 1] None = Ok r
       ∧ ∀ b, In b (matching_blocks r) → block_type b ≠ FIBONACCI.
Proof.
  eexists. split; [vm_compute; reflexivity|].
  apply (proj2 (process_number_default_fibonacci_set 13
                  [word_rule FIBONACCI "Fib" 0; word_rule PRIME "Prime" 1])).
  vm_compute. reflexivity.
Defined.

(** * Further properties of the rule engine *)

(** ** The primality test on large numbers *)

Lemma is_prime_below_2_53_witness : 97 < 2 ^ 53 ∧ is_prime 97 = Ok true ∧ Z.prime 97.
Proof.
  assert (H : 97 < 2 ^ 53) by reflexivity. split; [exact H|].
  destruct (is_prime_below_2_53 97 H) as (b & Hb & Hp & _).
  assert (b = true) as -> by (vm_compute in Hb; congruence).
  split; [exact Hb|by apply Hp].
Defined.

Lemma is_prime_overflow_above_witness :
  2 ^ 1024 ≤ 2 ^ 1024 + 3 ∧ (2 ^ 1024 + 3) mod 2 = 1
  ∧ is_prime (2 ^ 1024 + 3) = Raise OverflowError.
Proof.
  assert (H1 : 2 ^ 1024 ≤ 2 ^ 1024 + 3) by (vm_compute; discriminate).
  assert (H2 : (2 ^ 1024 + 3) mod 2 = 1) by (vm_compute; reflexivity).
  split; [exact H1|]. split; [exact H2|].
  exact (is_prime_overflow_above (2 ^ 1024 + 3) H1 H2).
Defined.

(** ** Where the primality test returns *)

(** A positive integer below [2^1023] converts to a normal float. *)
Lemma float_of_int_normal n :
  0 < n < 2 ^ 1023 →
  ∃ m e, float_of_int n = Ok (S754_finite false m e)
         ∧ Zdigits2 (Z.pos m) = 53 ∧ -52 ≤ e ≤ 971.
Proof.
  intros [Hn0 Hn].
  destruct (Zdigits2_bounds n Hn0) as (Hd1 & Hlo & Hhi).
  destruct (Z.lt_ge_cases n (2 ^ 53)) as [Hsmall|Hbig].
  - rewrite float_of_int_exact by lia. cbv zeta.
    pose proof (Zdigits2_le n 53 ltac:(lia) ltac:(lia)) as Hd53.
    assert (Hpos : 0 < n * 2 ^ (53 - Zdigits2 n)).
    { pose proof (Z.pow_pos_nonneg 2 (53 - Zdigits2 n)). nia. }
    eexists _, _. split; [reflexivity|]. split; [|lia].
    rewrite Z2Pos.id by done. rewrite Zdigits2_mul_pow2 by lia. lia.
  - pose proof (Zdigits2_ge n 53 ltac:(lia) Hbig) as Hd.
    pose proof (Zdigits2_le n 1023 ltac:(lia) ltac:(lia)) as Hdmax.
    unfold float_of_int, binary_normalize. destruct n as [|p|p]; try lia.
    unfold binary_round.
    pose proof (shl_align_spec p 0 (fexp64 (Z.pos (digits2_pos p) + 0))) as Hal.
    destruct (shl_align p 0 _) as [mz ez]. destruct Hal as [Hez Hmz].
    change (Z.pos (digits2_pos p)) with (Zdigits2 (Z.pos p)) in Hez.
    set (d := Zdigits2 (Z.pos p)) in *.
    assert (ez = 0) as -> by fexp_lia.
    rewrite Z.sub_diag, Z.mul_1_r in Hmz. injection Hmz as ->.
    destruct (binary_round_aux_spec false (Z.pos p) 0 loc_Exact)
      as (m3 & e3 & Hr & Hm3 & He3 & Hval & Hcan & _); [lia|fold d; fexp_lia|].
    fold d in He3, Hval.
    assert (He1 : fexp64 (d + 0) = d - 53) by fexp_lia.
    rewrite He1 in *. rewrite Z.sub_0_r in Hval.
    assert (Hp2 : 0 < 2 ^ (d - 53)) by (apply Z.pow_pos_nonneg; lia).
    assert (Hm1 : 2 ^ 52 ≤ Z.pos p `div` 2 ^ (d - 53) < 2 ^ 53).
    { split.
      - apply Z.div_le_lower_bound; [lia|]. rewrite <- Z.pow_add_r by lia.
        by replace (d - 53 + 52) with (d - 1) by lia.
      - apply Z.div_lt_upper_bound; [lia|]. rewrite <- Z.pow_add_r by lia.
        by replace (d - 53 + 53) with d by lia. }
    assert (Hpe : 0 < 2 ^ (e3 - (d - 53))) by (apply Z.pow_pos_nonneg; lia).
    assert (Hm3pos : 0 < m3) by nia.
    destruct (Zdigits2_bounds m3 Hm3pos) as (Hd3 & Hlo3 & Hhi3).
    assert (Hd3' : Zdigits2 m3 = 53) by fexp_lia.
    rewrite Hd3' in *.
    assert (He3' : e3 ≤ d - 53 + 1).
    { destruct (Z.le_gt_cases e3 (d - 53 + 1)); [done|].
      pose proof (Z.pow_le_mono_r 2 2 (e3 - (d - 53)) ltac:(lia) ltac:(lia)).
      change (2 ^ (53 - 1)) with (2 ^ 52) in Hlo3. change (2 ^ 2) with 4 in *. nia. }
    rewrite Hr, float_of_parts_finite by lia.
    eexists _, _. split; [reflexivity|]. rewrite Z2Pos.id by done. split; [done|lia].
Qed.

(** The square root of a normal float converts to an integer. *)
Lemma int_sqrt_normal m e :
  Zdigits2 (Z.pos m) = 53 → -52 ≤ e ≤ 971 →
  ∃ r, int_of_float (SFsqrt prec emax (S754_finite false m e)) = Ok r.
Proof.
  intros Hdz He. unfold SFsqrt.
  destruct (SFsqrt_core_binary_spec (Z.pos m) e) as (q & l & Hcore & Hs & Hq); [lia|].
  rewrite Hcore. clear Hcore. rewrite Hdz in *.
  pose proof (Z.div2_div (53 + e + 1)) as Hdiv2a.
  pose proof (Z.div2_div e) as Hdiv2b.
  pose proof (Z.div_mod (53 + e + 1) 2 ltac:(lia)).
  pose proof (Z.mod_pos_bound (53 + e + 1) 2 ltac:(lia)).
  pose proof (Z.div_mod e 2 ltac:(lia)).
  pose proof (Z.mod_pos_bound e 2 ltac:(lia)).
  set (e' := Z.min (fexp64 (Z.div2 (53 + e + 1))) (Z.div2 e)) in *.
  assert (HE : -52 ≤ e' ≤ 460 ∧ 52 ≤ e - 2 * e' ≤ 53).
  { unfold e'. fexp_lia. }
  destruct HE as (HE & Hs2).
  destruct (Zdigits2_bounds (Z.pos m) ltac:(lia)) as (_ & Hlo & Hhi).
  rewrite Hdz in Hlo, Hhi. change (2 ^ (53 - 1)) with (2 ^ 52) in Hlo.
  assert (Hm'lo : 2 ^ 104 ≤ Z.pos m * 2 ^ (e - 2 * e')).
  { pose proof (Z.pow_le_mono_r 2 52 (e - 2 * e') ltac:(lia) ltac:(lia)).
    change (2 ^ 104) with (2 ^ 52 * 2 ^ 52). nia. }
  assert (Hm'hi : Z.pos m * 2 ^ (e - 2 * e') < 2 ^ 106).
  { pose proof (Z.pow_le_mono_r 2 (e - 2 * e') 53 ltac:(lia) ltac:(lia)).
    pose proof (Z.pow_pos_nonneg 2 (e - 2 * e') ltac:(lia) ltac:(lia)).
    change (2 ^ 106) with (2 ^ 53 * 2 ^ 53). nia. }
  pose proof (Z.sqrt_spec (Z.pos m * 2 ^ (e - 2 * e')) ltac:(lia)) as Hsq.
  rewrite <- Hq in Hsq. cbv zeta in Hsq.
  replace (Z.succ q) with (q + 1) in Hsq by lia.
  assert (Hq0 : 0 ≤ q) by (rewrite Hq; apply Z.sqrt_nonneg).
  assert (Hq53 : 2 ^ 52 ≤ q < 2 ^ 53).
  { change (2 ^ 104) with (2 ^ 52 * 2 ^ 52) in Hm'lo.
    change (2 ^ 106) with (2 ^ 53 * 2 ^ 53) in Hm'hi. nia. }
  assert (Hdq : Zdigits2 q = 53) by (apply Zdigits2_unique; [lia|done]).
  destruct (binary_round_aux_spec false q e' l)
    as (m3 & e3 & Hr & Hm3 & He3 & Hval & Hcan & _);
    [lia|rewrite Hdq; fexp_lia|].
  rewrite Hdq in *.
  assert (He1 : fexp64 (53 + e') = e') by fexp_lia.
  rewrite He1 in *. rewrite Z.sub_diag, Z.div_1_r in Hval.
  assert (Hpe : 0 < 2 ^ (e3 - e')) by (apply Z.pow_pos_nonneg; lia).
  assert (Hm3pos : 0 < m3) by nia.
  destruct (Zdigits2_bounds m3 Hm3pos) as (Hd3 & Hlo3 & Hhi3).
  assert (Hd3' : Zdigits2 m3 = 53) by fexp_lia.
  rewrite Hd3' in *.
  assert (He3' : e3 ≤ e' + 1).
  { destruct (Z.le_gt_cases e3 (e' + 1)); [done|].
    pose proof (Z.pow_le_mono_r 2 2 (e3 - e') ltac:(lia) ltac:(lia)).
    change (2 ^ (53 - 1)) with (2 ^ 52) in Hlo3. change (2 ^ 2) with 4 in *. nia. }
  rewrite Hr, float_of_parts_finite by lia.
  unfold int_of_float. by eexists.
Qed.

(** X3: [is_prime] returns a truth value on every integer below [2^1023] and on every even integer, whatever its size: the conversion to a float, the square root and the truncation succeed there. *)
Theorem is_prime_returns n :
  n < 2 ^ 1023 ∨ n mod 2 = 0 → ∃ b, is_prime n = Ok b.
Proof.
  intros Hn. unfold is_prime.
  destruct (Z.ltb_spec n 2); [by eexists|].
  destruct (Z.eqb_spec n 2); [by eexists|].
  destruct (Z.eqb_spec (n mod 2) 0) as [|Hodd]; [by eexists|].
  destruct Hn as [Hn|Hn]; [|done].
  unfold math_sqrt.
  destruct (float_of_int_normal n ltac:(lia)) as (m & e & -> & Hd & He). simpl mbind.
  destruct (int_sqrt_normal m e Hd He) as [r Hr]. unfold SFsqrt in Hr.
  rewrite Hr. simpl mbind. by eexists.
Qed.

Lemma is_prime_returns_witness :
  2 ^ 200 + 1 < 2 ^ 1023 ∧ ∃ b, is_prime (2 ^ 200 + 1) = Ok b.
Proof.
  assert (H : 2 ^ 200 + 1 < 2 ^ 1023) by (vm_compute; reflexivity).
  split; [exact H|]. exact (is_prime_returns (2 ^ 200 + 1) (or_introl H)).
Defined.

(** X4: on every integer [is_prime] either returns or raises [OverflowError]; it raises no other exception. *)
Theorem is_prime_raises_only_OverflowError n :
  (∃ b, is_prime n = Ok b) ∨ is_prime n = Raise OverflowError.
Proof.
  unfold is_prime.
  destruct (Z.ltb_spec n 2); [left; by eexists|].
  destruct (Z.eqb_spec n 2); [left; by eexists|].
  destruct (Z.eqb_spec (n mod 2) 0) as [|Hodd]; [left; by eexists|].
  unfold math_sqrt.
  destruct (float_of_int_pos n ltac:(lia)) as [->|[->|(p & e & ->)]]; simpl.
  - by right.
  - left. by eexists.
  - destruct (SFsqrt_core_binary_spec (Z.pos p) e) as (q & l & -> & _ & Hq); [lia|].
    destruct (binary_round_aux_parts false q
                (Z.min (fexp64 (Z.div2 (Zdigits2 (Z.pos p) + e + 1))) (Z.div2 e)) l)
      as (m' & e' & Hm' & ->).
    { rewrite Hq. apply Z.sqrt_nonneg. }
    unfold float_of_parts. destruct m' as [|k|k]; try lia; simpl.
    + left. by eexists.
    + destruct (e' <=? emax - prec); simpl; [left; by eexists|by right].
Qed.


Lemma block_matches_zero_divisor n fib_set b :
  zero_divisor b → block_matches n fib_set b = Raise ZeroDivisionError.
Proof.
  intros [Hbt Hd]. unfold block_matches. rewrite Hbt. simpl.
  by rewrite (getitem_Some _ _ _ Hd).
Qed.

Lemma process_loop_zero_divisor n fib_set bs :
  Forall (λ b, well_formed b ∨ zero_divisor b) bs → Exists zero_divisor bs →
  prime_defined n bs →
  ∀ parts mbs, process_loop n fib_set bs parts mbs = Raise ZeroDivisionError.
Proof.
  induction 1 as [|b bs Hb Hbs IH]; intros Hex Hp parts mbs.
  - by apply Exists_nil in Hex.
  - apply prime_defined_cons in Hp as [Hpb Hp]. simpl.
    destruct Hb as [Hb|Hb].
    + rewrite (block_matches_well_formed _ _ _ Hb Hpb). simpl.
      assert (Hex' : Exists zero_divisor bs).
      { apply Exists_cons in Hex as [[Hbt Hz]|]; [|done].
        destruct Hb as [_ Hwf]. rewrite Hbt in Hwf.
        destruct Hwf as (d & Hd & Hnz). congruence. }
      destruct (rule_holds n fib_set b).
      * destruct Hb as [[w Hw] _]. rewrite (getitem_Some _ _ _ Hw). simpl.
        by apply IH.
      * by apply IH.
    + by rewrite block_matches_zero_divisor.
Qed.

Lemma prime_defined_Permutation n l l' :
  Permutation l l' → prime_defined n l → prime_defined n l'.
Proof.
  unfold prime_defined. intros Hperm H (b & Hin & Hb). apply H. exists b.
  split; [|done]. by apply (Permutation_in _ (Permutation_sym Hperm)).
Qed.

(** X5: if some divisor-rule of the list has the divisor 0 and the other rules are well formed, [process_number] raises [ZeroDivisionError] on every number on which the primality test returns. *)
Theorem process_number_zero_divisor n blocks fs :
  Forall (λ b, well_formed b ∨ zero_divisor b) blocks →
  Exists zero_divisor blocks →
  prime_defined n blocks →
  process_number n blocks fs = Raise ZeroDivisionError.
Proof.
  intros Hall Hex Hp. unfold process_number.
  pose proof (sorted_Permutation order blocks) as Hperm.
  rewrite process_loop_zero_divisor; [done| | |].
  - by rewrite Hperm.
  - by rewrite Hperm.
  - by apply prime_defined_sorted.
Qed.

Lemma process_number_zero_divisor_witness :
  let blocks := [divisor_rule 3 "Fizz" 0; divisor_rule 0 "Zero" 1] in
  Exists zero_divisor blocks
  ∧ process_number 7 blocks None = Raise ZeroDivisionError.
Proof.
  cbv zeta.
  assert (Hz : zero_divisor (divisor_rule 0 "Zero" 1)) by (split; reflexivity).
  assert (Hex : Exists zero_divisor [divisor_rule 3 "Fizz" 0; divisor_rule 0 "Zero" 1]).
  { apply Exists_cons_tl, Exists_cons_hd, Hz. }
  split; [exact Hex|].
  apply process_number_zero_divisor; [|exact Hex|].
  - repeat apply List.Forall_cons; try apply List.Forall_nil.
    + left. split; [by eexists|]. exists 3. split; [reflexivity|lia].
    + right. exact Hz.
  - apply prime_defined_below. reflexivity.
Defined.

(** ** A rule without a word *)





(** ** The order of the list does not matter *)

Lemma filter_key_NoDup {A : Type} (key : A → Z) (k : Z) (l : list A) :
  NoDup (map key l) → (length (List.filter (λ x, Z.eqb (key x) k) l) ≤ 1)%nat.
Proof.
  induction l as [|x l IH]; simpl; [lia|].
  intros Hnd. apply NoDup_cons in Hnd as [Hx Hnd].
  destruct (Z.eqb_spec (key x) k) as [Hk|Hk]; [|by apply IH].
  simpl. assert (List.filter (λ x0, key x0 =? k) l = []) as ->; [|simpl; lia].
  destruct (List.filter _ l) as [|y ys] eqn:Hf; [done|]. exfalso.
  assert (Hy : In y (List.filter (λ x0, key x0 =? k) l)) by (rewrite Hf; by left).
  apply filter_In in Hy as [Hy Hky]. apply Hx.
  apply list_elem_of_In, in_map_iff. exists y. split; [lia|done].
Qed.

Lemma Permutation_filter' {A : Type} (P : A → bool) (l l' : list A) :
  Permutation l l' → Permutation (List.filter P l) (List.filter P l').
Proof.
  induction 1 as [|x l l' _ IH|x y l|l l' l'' _ IH1 _ IH2]; simpl.
  - done.
  - destruct (P x); [by constructor|done].
  - destruct (P x), (P y); try done. apply perm_swap.
  - by etrans.
Qed.

Lemma sorted_Permutation_NoDup {A : Type} (key : A → Z) (l l' : list A) :
  Permutation l l' → NoDup (map key l) → sorted key l = sorted key l'.
Proof.
  intros Hperm Hnd. symmetry. apply sorted_unique.
  - apply sorted_StronglySorted.
  - intros k. rewrite sorted_stable.
    pose proof (filter_key_NoDup key k l Hnd) as Hlen.
    pose proof (Permutation_filter' (λ x, key x =? k) _ _ Hperm) as Hpf.
    destruct (List.filter (λ x, key x =? k) l) as [|x [|y ys]]; simpl in Hlen; [| |lia].
    + by apply Permutation_nil in Hpf.
    + by apply Permutation_length_1_inv in Hpf.
Qed.

(** X7: when the order values are pairwise distinct, [process_number] gives the same outcome on every permutation of the rule list: the position in the list plays no part. *)
Theorem process_number_permutation n blocks blocks' fs :
  Permutation blocks blocks' → NoDup (map order blocks) →
  process_number n blocks fs = process_number n blocks' fs.
Proof.
  intros Hperm Hnd. unfold process_number.
  by rewrite (sorted_Permutation_NoDup order _ _ Hperm Hnd).
Qed.

Lemma process_number_permutation_witness :
  NoDup (map order all_kinds)
  ∧ process_number 15 all_kinds None = process_number 15 (rev all_kinds) None.
Proof.
  assert (H : NoDup (map order all_kinds)).
  { apply (bool_decide_unpack _). vm_compute. reflexivity. }
  split; [exact H|].
  apply process_number_permutation; [apply Permutation_rev|exact H].
Defined.

(** ** One Fibonacci set for the whole range *)

Lemma block_matches_fib_ext n s s' b :
  (n ∈ s ↔ n ∈ s') → block_matches n s b = block_matches n s' b.
Proof.
  intros H. unfold block_matches. by rewrite (bool_decide_ext _ _ H).
Qed.

Lemma process_loop_fib_ext n s s' bs :
  (n ∈ s ↔ n ∈ s') →
  ∀ parts mbs, process_loop n s bs parts mbs = process_loop n s' bs parts mbs.
Proof.
  intros H. induction bs as [|b bs IH]; intros parts mbs; simpl; [done|].
  rewrite (block_matches_fib_ext n s s' b H).
  destruct (block_matches n s' b) as [[]|]; simpl; [|done|done].
  destruct (getitem (properties b) "word"); simpl; [|done]. apply IH.
Qed.

(** X8: for a number [n], the Fibonacci sets generated for any two bounds from [n] up give the same outcome of [process_number]; so the one set that the batch driver builds for the end of the range serves every number of the range. *)
Theorem process_number_fibonacci_set n blocks m m' s s' :
  n ≤ m → n ≤ m' →
  generate_fibonacci_set m = Ok s → generate_fibonacci_set m' = Ok s' →
  process_number n blocks (Some s) = process_number n blocks (Some s').
Proof.
  intros Hm Hm' Hs Hs'.
  destruct (generate_fibonacci_set_spec m) as (t & Ht & Hspec).
  destruct (generate_fibonacci_set_spec m') as (t' & Ht' & Hspec').
  assert (t = s) as -> by congruence. assert (t' = s') as -> by congruence.
  unfold process_number. rewrite (process_loop_fib_ext n s s'); [done|].
  rewrite Hspec, Hspec'. intuition lia.
Qed.

Lemma process_number_fibonacci_set_witness :
  ∃ s s', generate_fibonacci_set 13 = Ok s ∧ generate_fibonacci_set 100 = Ok s'
          ∧ process_number 13 all_kinds (Some s) = process_number 13 all_kinds (Some s').
Proof.
  destruct (generate_fibonacci_set_spec 13) as (s & Hs & _).
  destruct (generate_fibonacci_set_spec 100) as (s' & Hs' & _).
  exists s, s'. split; [exact Hs|]. split; [exact Hs'|].
  apply (process_number_fibonacci_set 13 all_kinds 13 100 s s'); [lia|lia|exact Hs|exact Hs'].
Defined.

(** ** The batch driver stops at the first error *)

Lemma batch_loop_app cb total blocks fs l1 l2 :
  ∀ results trace rs tr,
  batch_loop cb total blocks fs l1 results trace = (Ok rs, tr) →
  batch_loop cb total blocks fs (l1 ++ l2) results trace
  = batch_loop cb total blocks fs l2 rs tr.
Proof.
  induction l1 as [|[i n] l1 IH]; intros results trace rs tr; simpl.
  - by intros [= -> ->].
  - destruct (process_number n blocks (Some fs)) as [r|e]; [|done].
    destruct (cb && _); [|apply IH].
    destruct (truediv (i + 1) total ≫= _) as [x|e]; [apply IH|done].
Qed.

Lemma evaluations_app t1 t2 : evaluations (t1 ++ t2) = evaluations t1 ++ evaluations t2.
Proof. unfold evaluations. apply flat_map_app. Qed.

Lemma evaluations_steps cb start total (ks : list nat) :
  evaluations (flat_map (λ k : nat, step_events cb start total (Z.of_nat k + 1)) ks)
  = map (λ k : nat, start + Z.of_nat k) ks.
Proof.
  induction ks as [|k ks IH]; [done|].
  cbn [flat_map map]. rewrite evaluations_app, IH. unfold step_events.
  replace (start + (Z.of_nat k + 1) - 1) with (start + Z.of_nat k) by lia.
  by destruct (cb && _).
Qed.

Lemma batch_fibonacci_set_eq end_ blocks :
  (if has_fibonacci blocks then generate_fibonacci_set end_ else Ok ∅)
  = Ok (batch_fibonacci_set end_ blocks).
Proof.
  unfold batch_fibonacci_set. destruct (has_fibonacci blocks); [|done].
  by destruct (generate_fibonacci_set_spec end_) as (fs & -> & _).
Qed.

(** X9: if [process_number] returns on the numbers of a valid range before [m] and raises on [m], the batch run raises that exception, returns no results, and has evaluated exactly the numbers from [start] to [m]. *)
Theorem generate_fizzbuzz_batch_fail_fast start end_ blocks cb m e :
  blocks ≠ [] → 1 ≤ start → start < end_ → start ≤ m ≤ end_ →
  (∀ n, start ≤ n < m →
        ∃ r, process_number n blocks (Some (batch_fibonacci_set end_ blocks)) = Ok r) →
  process_number m blocks (Some (batch_fibonacci_set end_ blocks)) = Raise e →
  fst (generate_fizzbuzz_batch start end_ blocks cb) = Raise e
  ∧ evaluations (snd (generate_fizzbuzz_batch start end_ blocks cb))
    = range start (m + 1) 1.
Proof.
  intros Hne Hstart Hlt Hm Hok Hfail.
  set (fs := batch_fibonacci_set end_ blocks) in *.
  set (total := end_ - start + 1).
  set (a := Z.to_nat (m - start)).
  destruct (batch_loop_run cb start total blocks fs a 0%nat [] [])
    as (rs & Hrun & _).
  { unfold total, a. lia. }
  { intros k Hk. apply Hok. unfold a in Hk. lia. }
  unfold generate_fizzbuzz_batch. destruct blocks as [|b blocks]; [done|].
  destruct (Z.geb_spec start end_); [lia|]. destruct (Z.ltb_spec start 1); [lia|].
  fold (has_fibonacci (b :: blocks)). rewrite batch_fibonacci_set_eq. fold fs.
  rewrite enumerate_range.
  replace (Z.to_nat (end_ + 1 - start)) with (a + S (Z.to_nat (end_ - m)))%nat
    by (unfold a; lia).
  rewrite seq_app, map_app.
  rewrite (batch_loop_app _ _ _ _ _ _ _ _ _ _ Hrun).
  cbn [seq map batch_loop]. replace (start + Z.of_nat (0 + a)) with m by (unfold a; lia).
  rewrite Hfail. cbn [fst snd]. split; [done|].
  rewrite !evaluations_app, evaluations_steps. simpl.
  rewrite range_step_1.
  replace (Z.to_nat (m + 1 - start)) with (a + 1)%nat by (unfold a; lia).
  by rewrite seq_app, map_app; simpl; replace (start + Z.of_nat a) with m by (unfold a; lia).
Qed.

Lemma generate_fizzbuzz_batch_fail_fast_witness :
  let run := generate_fizzbuzz_batch 1 10 [open_range_rule 5 0] true in
  fst run = Raise (KeyError "end") ∧ evaluations (snd run) = [1; 2; 3; 4; 5].
Proof.
  cbv zeta.
  destruct (generate_fizzbuzz_batch_fail_fast 1 10 [open_range_rule 5 0] true 5
              (KeyError "end")) as [H1 H2].
  - discriminate.
  - lia.
  - lia.
  - lia.
  - intros n Hn.
    assert (Hcase : n = 1 ∨ n = 2 ∨ n = 3 ∨ n = 4) by lia.
    destruct Hcase as [->|[->|[->| ->]]]; eexists; vm_compute; reflexivity.
  - vm_compute. reflexivity.
  - split; [exact H1|]. rewrite H2. reflexivity.
Defined.

(** ** The callback does not change the results *)



(** * Properties of the window *)

Lemma example_gui_consistent : consistent example_gui.
Proof.
  split; [reflexivity|]. split.
  { apply (bool_decide_unpack _). vm_compute. reflexivity. }
  split.
  { unfold example_gui. simpl. repeat apply List.Forall_cons; try apply List.Forall_nil.
    - split; [|done]. split; [by eexists|]. exists 3. split; [reflexivity|lia].
    - split; [|done]. split; [by eexists|]. exists 5. split; [reflexivity|lia].
    - split; [|done]. split; [by eexists|exact I]. }
  intros b [<-|[<-|[<-|[]]]]; eexists; vm_compute; reflexivity.
Defined.

Lemma palette_gui_coloured :
  ∀ b, In b (blocks palette_gui) → is_Some (block_colors palette_gui !! id b).
Proof.
  intros b Hb. simpl in Hb.
  repeat (destruct Hb as [<-|Hb]; [eexists; vm_compute; reflexivity|]). destruct Hb.
Defined.

Lemma palette_gui_exhausted :
  ∀ c, In c colors → ∃ i, block_colors palette_gui !! i = Some c.
Proof.
  intros c Hc. exists c. simpl in Hc.
  repeat (destruct Hc as [<-|Hc]; [vm_compute; reflexivity|]). destruct Hc.
Defined.

Lemma reorder_from_cons a b l :
  reorder_from a (b :: l) = set_order b (Z.of_nat a) :: reorder_from (S a) l.
Proof. done. Qed.

Lemma reorder_blocks_from l : reorder_blocks l = reorder_from 0 l.
Proof. done. Qed.

Lemma reorder_from_length a l : length (reorder_from a l) = length l.
Proof.
  revert a. induction l as [|b l IH]; intros a; [done|].
  rewrite reorder_from_cons. simpl. by rewrite IH.
Qed.

Lemma reorder_from_order a l :
  map order (reorder_from a l) = map Z.of_nat (seq a (length l)).
Proof.
  revert a. induction l as [|b l IH]; intros a; [done|].
  rewrite reorder_from_cons. simpl. by rewrite IH.
Qed.

Lemma reorder_from_id a l : map id (reorder_from a l) = map id l.
Proof.
  revert a. induction l as [|b l IH]; intros a; [done|].
  rewrite reorder_from_cons. simpl. by rewrite IH.
Qed.

Lemma reorder_from_complete a l :
  Forall complete l → Forall complete (reorder_from a l).
Proof.
  intros H. revert a. induction H as [|b l Hb Hl IH]; intros a; [constructor|].
  rewrite reorder_from_cons. constructor; [done|apply IH].
Qed.

Lemma complete_well_formed l : Forall complete l → Forall well_formed l.
Proof. apply List.Forall_impl. by intros b [H _]. Qed.

Lemma reorder_from_In a l b :
  In b (reorder_from a l) → ∃ b' i, In b' l ∧ b = set_order b' i.
Proof.
  revert a. induction l as [|x l IH]; intros a; [done|].
  rewrite reorder_from_cons. intros [<-|H].
  - exists x, (Z.of_nat a). split; [by left|done].
  - destruct (IH _ H) as (b' & i & Hin & ->). exists b', i. split; [by right|done].
Qed.

Lemma reorder_blocks_positioned l : positioned (reorder_blocks l).
Proof.
  unfold positioned. by rewrite reorder_blocks_from, reorder_from_order, reorder_from_length.
Qed.

(** A positioned list is its own sorted list. *)
Lemma increasing_StronglySorted (l : list RuleBlock) (a : nat) :
  map order l = map Z.of_nat (seq a (length l)) → StronglySorted (key_le order) l.
Proof.
  revert a. induction l as [|b l IH]; intros a H; [constructor|].
  simpl in H. injection H as Hb Hl. constructor; [by apply (IH (S a))|].
  apply List.Forall_forall. intros x Hx. unfold key_le.
  assert (Hin : In (order x) (map Z.of_nat (seq (S a) (length l)))).
  { rewrite <- Hl. by apply in_map. }
  apply in_map_iff in Hin as (k & Hk & Hin). apply in_seq in Hin. lia.
Qed.

Lemma positioned_sorted l : positioned l → sorted order l = l.
Proof.
  intros H. symmetry. apply sorted_unique; [|done].
  by apply (increasing_StronglySorted l 0).
Qed.

(** *** [refresh_workspace] *)

Lemma refresh_loop_covered bs colours rng :
  (∀ b, In b bs → is_Some (colours !! id b)) →
  refresh_loop bs colours rng = Some (colours, rng).
Proof.
  induction bs as [|b bs IH]; intros H; simpl; [done|].
  destruct (H b ltac:(by left)) as [c ->]. apply IH. intros b' Hb'. apply H. by right.
Qed.

Lemma refresh_loop_Some bs :
  ∀ colours rng colours' rng',
  refresh_loop bs colours rng = Some (colours', rng') →
  (∀ i, is_Some (colours !! i) → colours' !! i = colours !! i)
  ∧ (∀ b, In b bs → is_Some (colours' !! id b))
  ∧ (∀ i, is_Some (colours' !! i) → is_Some (colours !! i) ∨ In i (map id bs)).
Proof.
  induction bs as [|b bs IH]; intros colours rng colours' rng'; simpl.
  - intros [= <- <-]. split; [done|]. split; [by intros ? []|auto].
  - destruct (colours !! id b) as [c|] eqn:Hc.
    + intros H. destruct (IH _ _ _ _ H) as (H1 & H2 & H3). split; [done|]. split.
      * intros b' [<-|Hb']; [|by apply H2]. rewrite H1; by rewrite Hc.
      * intros i Hi. destruct (H3 i Hi); auto.
    + destruct (assign_block_color colours b rng) as [[color rng1]|]; [|done].
      intros H. destruct (IH _ _ _ _ H) as (H1 & H2 & H3). split; [|split].
      * intros i Hi. rewrite H1.
        -- apply lookup_insert_ne. intros <-. rewrite Hc in Hi. by destruct Hi.
        -- rewrite lookup_insert_ne; [done|]. intros <-. rewrite Hc in Hi. by destruct Hi.
      * intros b' [<-|Hb']; [|by apply H2]. rewrite H1; rewrite lookup_insert_eq; by eexists.
      * intros i Hi. destruct (H3 i Hi) as [Hi'|Hi']; [|auto].
        destruct (decide (i = id b)) as [->|Hne]; [auto|].
        rewrite lookup_insert_ne in Hi' by done. auto.
Qed.

Lemma refresh_workspace_Returns gui rng gui' rng' :
  refresh_workspace gui rng = Returns gui' rng' →
  blocks gui' = blocks gui
  ∧ is_generating gui' = is_generating gui
  ∧ (∀ b, In b (blocks gui') → is_Some (block_colors gui' !! id b))
  ∧ (∀ i, is_Some (block_colors gui !! i) → block_colors gui' !! i = block_colors gui !! i).
Proof.
  unfold refresh_workspace.
  destruct (refresh_loop _ _ _) as [[colours r]|] eqn:Hloop; [|done].
  intros [= <- <-]. simpl. destruct (refresh_loop_Some _ _ _ _ _ Hloop) as (H1 & H2 & _).
  split; [done|]. split; [done|]. split; [|done]. intros b Hb. apply H2.
  by apply (Permutation_in _ (Permutation_sym (sorted_Permutation order _))).
Qed.

Lemma refresh_workspace_covered gui rng :
  (∀ b, In b (blocks gui) → is_Some (block_colors gui !! id b)) →
  refresh_workspace gui rng = Returns gui rng.
Proof.
  intros H. unfold refresh_workspace. rewrite refresh_loop_covered.
  - by destruct gui.
  - intros b Hb. apply H. by apply (Permutation_in _ (sorted_Permutation order _)).
Qed.

(** *** The editor *)

Lemma get_properties_Ok int strip kind d s e w props :
  get_properties int strip kind d s e w = Ok props →
  props !! "word" = Some (VStr (strip w))
  ∧ match kind with
    | DIVISOR => ∃ z, int d = Ok z ∧ 0 < z ∧ props !! "divisor" = Some (VInt z)
    | RANGE => ∃ a b, int s = Ok a ∧ int e = Ok b ∧ a < b
                      ∧ props !! "start" = Some (VInt a) ∧ props !! "end" = Some (VInt b)
    | PRIME | FIBONACCI => True
    end.
Proof.
  unfold get_properties. destruct kind.
  - destruct (int d) as [z|]; simpl; [|done].
    destruct (Z.leb_spec z 0); [done|]. intros [= <-]. split; [done|].
    exists z. by rewrite lookup_insert_ne.
  - by intros [= <-].
  - by intros [= <-].
  - destruct (int s) as [a|]; simpl; [|done]. destruct (int e) as [b|]; simpl; [|done].
    destruct (Z.geb_spec a b); [done|]. intros [= <-]. split; [done|].
    exists a, b. split; [done|]. split; [done|]. split; [lia|].
    rewrite !lookup_insert_ne by done. by rewrite lookup_insert_eq.
Qed.

(** X11: a block that the editor saves is well formed, its name and its word are the stripped texts and are not empty, a divisor is the integer read from its field and positive, the bounds of a range are the integers read and [start < end]; an edited block keeps the identifier and the order of the block the dialog was opened on, a new one gets the fresh identifier and order 0. *)
Theorem save_block_sound int strip block kind uuid4
    name_entry divisor_entry start_entry end_entry word_entry b :
  save_block int strip block kind uuid4
             name_entry divisor_entry start_entry end_entry word_entry = Ok (inl b) →
  well_formed b
  ∧ word b = strip word_entry ∧ word b ≠ EmptyString
  ∧ name b = strip name_entry ∧ name b ≠ EmptyString
  ∧ block_type b = kind
  ∧ match kind with
    | DIVISOR => int divisor_entry = Ok (int_property b "divisor")
                 ∧ 0 < int_property b "divisor"
    | RANGE => int start_entry = Ok (int_property b "start")
               ∧ int end_entry = Ok (int_property b "end")
               ∧ int_property b "start" < int_property b "end"
    | PRIME | FIBONACCI => True
    end
  ∧ match block with
    | Some old => id b = id old ∧ order b = order old
    | None => id b = uuid4 ∧ order b = 0
    end.
Proof.
  unfold save_block. case_bool_decide as Hname; [done|].
  destruct (get_properties _ _ _ _ _ _ _) as [props|[]] eqn:Hprops; simpl; try done.
  apply get_properties_Ok in Hprops as [Hw Hkind]. rewrite Hw. simpl.
  case_bool_decide as Hword; [done|]. simpl. intros [= <-].
  unfold well_formed, word, int_property. simpl. rewrite Hw.
  split.
  { split; [by eexists|]. destruct kind; try done.
    - destruct Hkind as (z & _ & Hz & ->). exists z. split; [done|lia].
    - destruct Hkind as (x & y & _ & _ & _ & -> & ->). by exists x, y. }
  do 5 (split; [done|]). split; [|by destruct block].
  destruct kind; try done.
  - destruct Hkind as (z & Hi & Hz & ->). done.
  - destruct Hkind as (x & y & Hx & Hy & Hlt & -> & ->). done.
Qed.

Lemma save_block_sound_witness :
  ∃ b, save_block decimal_int no_strip None DIVISOR "seven" "Sevens" "7" "" "" "Seven"
       = Ok (inl b)
       ∧ well_formed b ∧ int_property b "divisor" = 7 ∧ id b = "seven"%string.
Proof.
  destruct (save_block decimal_int no_strip None DIVISOR "seven" "Sevens" "7" "" "" "Seven")
    as [[b|msg]|e] eqn:H; [|vm_compute in H; discriminate H..].
  exists b. split; [reflexivity|].
  destruct (save_block_sound _ _ _ _ _ _ _ _ _ _ _ H) as (Hwf & _ & _ & _ & _ & _ & Hd & Hid & _).
  split; [exact Hwf|]. split; [|exact Hid].
  destruct Hd as [Hd _].
  assert (Hi : decimal_int "7" = Ok 7) by reflexivity.
  rewrite Hi in Hd. injection Hd as <-. reflexivity.
Defined.

(** *** The handlers keep the state consistent *)

Lemma positioned_snoc l r :
  positioned l → positioned (l ++ [set_order r (Z.of_nat (length l))]).
Proof.
  unfold positioned. intros H. rewrite map_app, length_app. simpl.
  rewrite Nat.add_1_r, seq_S, map_app, H. done.
Qed.

Lemma edit_loop_spec block result l :
  NoDup (map id l) → In block l → id result = id block → order result = order block →
  map id (edit_loop (id block) result l) = map id l
  ∧ map order (edit_loop (id block) result l) = map order l
  ∧ length (edit_loop (id block) result l) = length l
  ∧ ∀ P : RuleBlock → Prop, P result → Forall P l → Forall P (edit_loop (id block) result l).
Proof.
  intros Hnd Hin Hid Hord. induction l as [|b l IH]; [done|].
  simpl in Hnd. apply NoDup_cons in Hnd as [Hb Hnd]. simpl.
  case_bool_decide as Heq.
  - assert (b = block) as ->.
    { destruct Hin as [|Hin]; [done|]. exfalso. apply Hb. rewrite Heq.
      apply list_elem_of_In. by apply in_map. }
    simpl. rewrite Hid, Hord. do 3 (split; [done|]).
    intros P HP HPl. apply Forall_cons in HPl as [_ HPl]. by constructor.
  - destruct Hin as [->|Hin]; [done|].
    destruct (IH Hnd Hin) as (H1 & H2 & H3 & H4). simpl. rewrite H1, H2, H3.
    do 3 (split; [done|]). intros P HP HPl. apply Forall_cons in HPl as [HPb HPl].
    constructor; [done|by apply H4].
Qed.

Lemma filter_id_NoDup (l : list RuleBlock) (P : RuleBlock → bool) :
  NoDup (map id l) → NoDup (map id (List.filter P l)).
Proof.
  induction l as [|b l IH]; simpl; [done|]. intros Hnd.
  apply NoDup_cons in Hnd as [Hb Hnd]. destruct (P b); [|by apply IH].
  simpl. apply NoDup_cons. split; [|by apply IH].
  intros Hin. apply Hb. apply list_elem_of_In in Hin. apply list_elem_of_In.
  apply in_map_iff in Hin as (x & Hx & Hin). apply filter_In in Hin as [Hin _].
  apply in_map_iff. by exists x.
Qed.

Lemma Forall_filter' {A : Type} (Q : A → Prop) (P : A → bool) (l : list A) :
  Forall Q l → Forall Q (List.filter P l).
Proof.
  induction 1 as [|x l Hx Hl IH]; simpl; [constructor|].
  destruct (P x); [by constructor|done].
Qed.

(** Two neighbours change places. *)
Lemma swap_nat {A : Type} (l : list A) (i j : nat) x y :
  l !! i = Some x → l !! j = Some y →
  swap l (Z.of_nat i) (Z.of_nat j) = <[j := x]> (<[i := y]> l).
Proof. unfold swap. rewrite !Nat2Z.id. by intros -> ->. Qed.

Lemma swap_down {A : Type} (pre post : list A) x y :
  swap (pre ++ x :: y :: post) (Z.of_nat (length pre)) (Z.of_nat (length pre) + 1)
  = pre ++ y :: x :: post.
Proof.
  replace (Z.of_nat (length pre) + 1) with (Z.of_nat (S (length pre))) by lia.
  rewrite (swap_nat _ _ _ x y).
  - rewrite insert_app_r_alt by lia. rewrite Nat.sub_diag. simpl.
    rewrite insert_app_r_alt by lia. replace (S (length pre) - length pre)%nat with 1%nat by lia.
    done.
  - by rewrite list_lookup_middle.
  - rewrite lookup_app_r by lia. by replace (S (length pre) - length pre)%nat with 1%nat by lia.
Qed.

Lemma swap_down_at {A : Type} (pre post : list A) x y n :
  length pre = n →
  swap (pre ++ x :: y :: post) (Z.of_nat n) (Z.of_nat n + 1) = pre ++ y :: x :: post.
Proof. intros <-. apply swap_down. Qed.

Lemma swap_up {A : Type} (pre post : list A) x y :
  swap (pre ++ x :: y :: post) (Z.of_nat (length pre) + 1) (Z.of_nat (length pre) + 1 - 1)
  = pre ++ y :: x :: post.
Proof.
  replace (Z.of_nat (length pre) + 1 - 1) with (Z.of_nat (length pre)) by lia.
  replace (Z.of_nat (length pre) + 1) with (Z.of_nat (S (length pre))) by lia.
  rewrite (swap_nat _ _ _ y x).
  - rewrite insert_app_r_alt by lia.
    replace (S (length pre) - length pre)%nat with 1%nat by lia. simpl.
    rewrite insert_app_r_alt by lia. by rewrite Nat.sub_diag.
  - rewrite lookup_app_r by lia. by replace (S (length pre) - length pre)%nat with 1%nat by lia.
  - by rewrite list_lookup_middle.
Qed.

(** The index that [next] finds. *)
Lemma next_index_spec block_id (l : list RuleBlock) (a : nat) :
  match next_index block_id (combine (map Z.of_nat (seq a (length l))) l) with
  | Some i => ∃ pre b post, l = pre ++ b :: post ∧ id b = block_id
                            ∧ Forall (λ x, id x ≠ block_id) pre
                            ∧ i = Z.of_nat (a + length pre)
  | None => Forall (λ x, id x ≠ block_id) l
  end.
Proof.
  revert a. induction l as [|b l IH]; intros a; simpl; [constructor|].
  case_bool_decide as Hb.
  - exists [], b, l. repeat split; [done|constructor|simpl; lia].
  - specialize (IH (S a)). destruct (next_index _ _) as [i|].
    + destruct IH as (pre & b' & post & -> & Hb' & Hpre & ->).
      exists (b :: pre), b', post. split; [done|]. split; [done|].
      split; [by constructor|]. simpl. lia.
    + by constructor.
Qed.

Lemma split_at {A : Type} (l : list A) (i : nat) :
  (S i < length l)%nat → ∃ pre x y post, l = pre ++ x :: y :: post ∧ length pre = i.
Proof.
  revert i. induction l as [|a l IH]; intros i Hi; simpl in Hi; [lia|].
  destruct i as [|i].
  - destruct l as [|b l]; simpl in Hi; [lia|]. by exists [], a, b, l.
  - destruct (IH i ltac:(lia)) as (pre & x & y & post & -> & Hlen).
    exists (a :: pre), x, y, post. simpl. by rewrite Hlen.
Qed.

Lemma swap_neighbours_Permutation {A : Type} (l : list A) (i : Z) :
  0 ≤ i → i + 1 < Z.of_nat (length l) →
  Permutation (swap l i (i + 1)) l ∧ Permutation (swap l (i + 1) (i + 1 - 1)) l.
Proof.
  intros Hi Hlen. destruct (split_at l (Z.to_nat i) ltac:(lia)) as (pre & x & y & post & -> & Hpre).
  replace i with (Z.of_nat (length pre)) by lia.
  rewrite swap_down, swap_up. split; apply Permutation_app_head, perm_swap.
Qed.

Lemma reorder_blocks_consistent l colours gen :
  NoDup (map id l) → Forall complete l →
  ∀ gui rng rng',
  refresh_workspace {| blocks := reorder_blocks l; block_colors := colours;
                       is_generating := gen |} rng = Returns gui rng' →
  consistent gui.
Proof.
  intros Hnd Hwf gui rng rng' H.
  apply refresh_workspace_Returns in H as (Hb & _ & Hc & _). simpl in Hb.
  unfold consistent. rewrite Hb. split; [apply reorder_blocks_positioned|].
  split; [by rewrite reorder_blocks_from, reorder_from_id|].
  split; [by apply reorder_from_complete|]. by rewrite <- Hb.
Qed.

(** X14: every handler of the block list ([add_block], [edit_block], [delete_block], [move_block], [clear_all_blocks]) that returns takes a consistent state to a consistent state: order values equal to the list positions, distinct identifiers, complete blocks, a colour for each block. *)
Theorem handlers_keep_consistent int strip c gui rng gui' rng' :
  consistent gui → from_dialog int strip c gui →
  handle c gui rng = Returns gui' rng' →
  consistent gui'.
Proof.
  intros (Hpos & Hnd & Hwf & Hcol) Hlegal Hret.
  destruct c as [[r|]|block [r|]|block_id|block_id direction|]; simpl in Hret.
  - (* add *)
    destruct Hlegal as [[kind (u & n & d & s & e & w & Hsave)] Hfresh].
    apply save_block_sound in Hsave as (Hr & _ & Hword & _).
    apply refresh_workspace_Returns in Hret as (Hb & _ & Hc & _). simpl in Hb.
    unfold consistent. rewrite Hb. split; [by apply positioned_snoc|].
    split.
    { rewrite map_app. simpl. apply NoDup_app. split; [done|]. split.
      - intros x Hx [<-|[]]%list_elem_of_In. by apply Hfresh, list_elem_of_In.
      - apply NoDup_singleton. }
    split; [|by rewrite <- Hb].
    apply Forall_app. split; [done|]. by constructor.
  - injection Hret as <- <-. done.
  - (* edit *)
    destruct Hlegal as [Hin (u & n & d & s & e & w & Hsave)].
    apply save_block_sound in Hsave as (Hr & _ & Hword & _ & _ & _ & _ & Hid & Hord).
    apply refresh_workspace_Returns in Hret as (Hb & _ & Hc & _). simpl in Hb.
    destruct (edit_loop_spec block r (blocks gui) Hnd Hin Hid Hord) as (H1 & H2 & H3 & H4).
    unfold consistent, positioned. rewrite Hb, H1, H2, H3.
    split; [done|]. split; [done|]. split; [by apply H4|by rewrite <- Hb].
  - injection Hret as <- <-. done.
  - (* delete *)
    unfold delete_block in Hret.
    eapply reorder_blocks_consistent; [| |exact Hret].
    + by apply filter_id_NoDup.
    + by apply Forall_filter'.
  - (* move *)
    unfold move_block in Hret.
    pose proof (next_index_spec block_id (blocks gui) 0) as Hidx.
    unfold enumerate in Hret.
    destruct (next_index _ _) as [i|]; [|done].
    destruct Hidx as (pre & b & post & Hl & _ & _ & ->). simpl in Hret.
    assert (Hlen : length (blocks gui) = (length pre + S (length post))%nat).
    { rewrite Hl, length_app. done. }
    destruct ((direction <? 0) && (0 <? Z.of_nat (length pre))) eqn:Hup.
    + apply andb_true_iff in Hup as [_ Hup%Z.ltb_lt].
      destruct (swap_neighbours_Permutation (blocks gui) (Z.of_nat (length pre) - 1))
        as [_ Hperm]; [lia|lia|].
      replace (Z.of_nat (length pre) - 1 + 1) with (Z.of_nat (length pre)) in Hperm by lia.
      eapply reorder_blocks_consistent; [| |exact Hret];
        [by rewrite (Permutation_map id Hperm)|by rewrite Hperm].
    + destruct ((0 <? direction)
                && (Z.of_nat (length pre) <? Z.of_nat (length (blocks gui)) - 1)) eqn:Hdown.
      * apply andb_true_iff in Hdown as [_ Hdown%Z.ltb_lt].
        destruct (swap_neighbours_Permutation (blocks gui) (Z.of_nat (length pre)))
          as [Hperm _]; [lia|lia|].
        eapply reorder_blocks_consistent; [| |exact Hret];
          [by rewrite (Permutation_map id Hperm)|by rewrite Hperm].
      * injection Hret as <- <-. done.
  - (* clear *)
    unfold clear_all_blocks in Hret.
    apply refresh_workspace_Returns in Hret as (Hb & _ & Hc & _). simpl in Hb.
    unfold consistent, positioned. rewrite Hb. simpl. split; [done|].
    split; [constructor|]. split; [constructor|]. by intros ? [].
Qed.

Lemma handlers_keep_consistent_witness :
  let result := {| id := "seven"; block_type := DIVISOR; name := "Sevens";
                   properties := <["word" := VStr "Seven"]> (<["divisor" := VInt 7]> ∅);
                   order := 0 |} in
  from_dialog decimal_int no_strip (AddBlock (Some result)) example_gui
  ∧ ∃ gui' rng', handle (AddBlock (Some result)) example_gui [0; 3]%nat = Returns gui' rng'
                 ∧ consistent gui'.
Proof.
  cbv zeta.
  set (result := {| id := "seven"; block_type := DIVISOR; name := "Sevens";
                    properties := <["word" := VStr "Seven"]> (<["divisor" := VInt 7]> ∅);
                    order := 0 |}).
  assert (Hd : from_dialog decimal_int no_strip (AddBlock (Some result)) example_gui).
  { split.
    - exists DIVISOR, "seven"%string, "Sevens"%string, "7"%string, ""%string, ""%string,
        "Seven"%string. vm_compute. reflexivity.
    - simpl. intros [H|[H|[H|[]]]]; discriminate H. }
  split; [exact Hd|].
  destruct (handle (AddBlock (Some result)) example_gui [0; 3]%nat) as [gui' rng'| |] eqn:H;
    [|vm_compute in H; discriminate H..].
  exists gui', rng'. split; [reflexivity|].
  exact (handlers_keep_consistent decimal_int no_strip _ _ _ _ _ example_gui_consistent Hd H).
Defined.

(** *** The rules are applied from the top of the list down *)



(** *** Moving a block *)

Lemma next_index_found block_id (pre post : list RuleBlock) b (a : nat) :
  id b = block_id → Forall (λ x, id x ≠ block_id) pre →
  next_index block_id
    (combine (map Z.of_nat (seq a (length (pre ++ b :: post)))) (pre ++ b :: post))
  = Some (Z.of_nat (a + length pre)).
Proof.
  intros Hb Hpre. revert a. induction Hpre as [|x pre Hx Hpre IH]; intros a; simpl.
  - rewrite bool_decide_eq_true_2 by done. f_equal. lia.
  - rewrite bool_decide_eq_false_2 by done. rewrite IH. f_equal. lia.
Qed.

Lemma reorder_from_app a l1 l2 :
  reorder_from a (l1 ++ l2) = reorder_from a l1 ++ reorder_from (a + length l1) l2.
Proof.
  revert a. induction l1 as [|b l1 IH]; intros a.
  - simpl. by rewrite Nat.add_0_r.
  - simpl app. rewrite !reorder_from_cons, IH. simpl. do 3 f_equal. lia.
Qed.

(** Renumbering does not look at the order values. *)
Lemma reorder_from_ext a l l' :
  map (λ b, set_order b 0) l = map (λ b, set_order b 0) l' →
  reorder_from a l = reorder_from a l'.
Proof.
  revert a l'. induction l as [|b l IH]; intros a [|b' l'] H; try done.
  simpl in H. injection H as Hid Hty Hname Hprops Hl.
  rewrite !reorder_from_cons. f_equal; [|by apply IH].
  unfold set_order. by rewrite Hid, Hty, Hname, Hprops.
Qed.

Lemma reorder_from_forget a l :
  map (λ b, set_order b 0) (reorder_from a l) = map (λ b, set_order b 0) l.
Proof.
  revert a. induction l as [|b l IH]; intros a; [done|].
  rewrite reorder_from_cons. simpl. by rewrite IH.
Qed.

Lemma positioned_reorder_from a l :
  map order l = map Z.of_nat (seq a (length l)) → reorder_from a l = l.
Proof.
  revert a. induction l as [|b l IH]; intros a H; [done|].
  simpl in H. injection H as Hb Hl. rewrite reorder_from_cons, IH by done.
  f_equal. destruct b. simpl in *. unfold set_order. simpl. by rewrite Hb.
Qed.

Lemma NoDup_id_middle (pre post : list RuleBlock) b :
  NoDup (map id (pre ++ b :: post)) → Forall (λ x, id x ≠ id b) pre.
Proof.
  rewrite map_app. simpl. intros H. apply NoDup_app in H as (_ & H & _).
  apply List.Forall_forall. intros x Hx Heq. apply (H (id x)).
  - apply list_elem_of_In. by apply in_map.
  - rewrite Heq. by left.
Qed.

(** X16: in a consistent state, moving a block up exchanges it with the block above, renumbers, keeps the colours and draws no random number; moving it down again restores the state. *)
Theorem move_block_up_then_down gui rng pre x y post up down :
  consistent gui → blocks gui = pre ++ x :: y :: post → up < 0 → 0 < down →
  ∃ gui',
    move_block (id y) up gui rng = Returns gui' rng
    ∧ blocks gui' = reorder_blocks (pre ++ y :: x :: post)
    ∧ block_colors gui' = block_colors gui
    ∧ move_block (id y) down gui' rng = Returns gui rng.
Proof.
  intros (Hpos & Hnd & Hwf & Hcol) Hl Hup Hdown.
  set (gui' := {| blocks := reorder_blocks (pre ++ y :: x :: post);
                  block_colors := block_colors gui;
                  is_generating := is_generating gui |}).
  exists gui'.
  assert (Hsame : ∀ i, In i (map id (pre ++ y :: x :: post)) ↔ In i (map id (blocks gui))).
  { intros i. rewrite Hl, !map_app, !in_app_iff. simpl. tauto. }
  assert (Hcol' : ∀ b, In b (blocks gui') → is_Some (block_colors gui' !! id b)).
  { intros b Hb. simpl in *. rewrite reorder_blocks_from in Hb.
    assert (Hi : In (id b) (map id (blocks gui))).
    { apply Hsame. rewrite <- (reorder_from_id 0). by apply in_map. }
    apply in_map_iff in Hi as (b' & <- & Hb'). by apply Hcol. }
  assert (Hl' : blocks gui = (pre ++ [x]) ++ y :: post) by (by rewrite Hl, <- app_assoc).
  assert (Hpre : Forall (λ b, id b ≠ id y) (pre ++ [x])).
  { rewrite Hl' in Hnd. by apply NoDup_id_middle in Hnd. }
  assert (Hlen : length (pre ++ [x]) = S (length pre)) by (rewrite length_app; simpl; lia).
  assert (Hfirst : move_block (id y) up gui rng = Returns gui' rng).
  { unfold move_block, enumerate. rewrite Hl' at 1 2.
    rewrite (next_index_found (id y) (pre ++ [x]) post y 0 eq_refl Hpre).
    rewrite Hlen. simpl Nat.add.
    destruct (Z.ltb_spec up 0); [|lia].
    destruct (Z.ltb_spec 0 (Z.of_nat (S (length pre)))); [|lia]. simpl andb. cbv iota.
    replace (Z.of_nat (S (length pre))) with (Z.of_nat (length pre) + 1) by lia.
    rewrite Hl, swap_up. by apply refresh_workspace_covered. }
  split; [done|]. split; [done|]. split; [done|].
  unfold move_block, enumerate. simpl blocks.
  rewrite reorder_blocks_from.
  assert (Hre : reorder_from 0 (pre ++ y :: x :: post)
                = reorder_from 0 pre
                  ++ set_order y (Z.of_nat (length pre))
                  :: set_order x (Z.of_nat (S (length pre)))
                  :: reorder_from (S (S (length pre))) post).
  { rewrite reorder_from_app, !reorder_from_cons. simpl. done. }
  rewrite Hre.
  assert (Hpre' : Forall (λ b, id b ≠ id y) (reorder_from 0 pre)).
  { apply List.Forall_forall. intros b Hb Heq.
    assert (Hi : In (id b) (map id pre)).
    { rewrite <- (reorder_from_id 0). by apply in_map. }
    apply in_map_iff in Hi as (b' & Hb' & Hin).
    apply Forall_app in Hpre as [Hpre _].
    rewrite List.Forall_forall in Hpre. apply (Hpre b' Hin). congruence. }
  rewrite (next_index_found (id y) (reorder_from 0 pre) _ (set_order y _) 0 eq_refl Hpre').
  simpl Nat.add.
  destruct (Z.ltb_spec down 0); [lia|]. simpl andb. cbv iota.
  destruct (Z.ltb_spec 0 down); [|lia].
  rewrite !length_app. simpl length. rewrite !reorder_from_length.
  destruct (Z.ltb_spec (Z.of_nat (length pre))
              (Z.of_nat (length pre + S (S (length post))) - 1)); [|lia].
  simpl andb. cbv iota.
  rewrite (swap_down_at _ _ _ _ _ (reorder_from_length 0 pre)).
  assert (Hback : reorder_blocks (reorder_from 0 pre
                     ++ set_order x (Z.of_nat (S (length pre)))
                     :: set_order y (Z.of_nat (length pre))
                     :: reorder_from (S (S (length pre))) post) = blocks gui).
  { rewrite reorder_blocks_from.
    rewrite (reorder_from_ext 0 _ (blocks gui)).
    - by apply positioned_reorder_from.
    - rewrite Hl, !map_app. simpl. by rewrite !reorder_from_forget. }
  rewrite Hback.
  rewrite refresh_workspace_covered by done. by destruct gui.
Qed.

Lemma move_block_up_then_down_witness :
  ∃ gui', move_block "prime" (-1) example_gui [] = Returns gui' []
          ∧ map id (blocks gui') = ["fizz"; "prime"; "buzz"]%string
          ∧ move_block "prime" 1 gui' [] = Returns example_gui [].
Proof.
  destruct (move_block_up_then_down example_gui []
              [with_id "fizz" (divisor_rule 3 "Fizz" 0)]
              (with_id "buzz" (divisor_rule 5 "Buzz" 1))
              (with_id "prime" (word_rule PRIME "Prime" 2)) [] (-1) 1
              example_gui_consistent eq_refl)
    as (gui' & H1 & H2 & _ & H3); [lia|lia|].
  exists gui'. split; [exact H1|]. split; [|exact H3].
  rewrite H2. vm_compute. reflexivity.
Defined.

(** X17: [move_block] leaves the state as it is when the first block is moved up, the last block is moved down or the direction is 0, and raises [StopIteration] when no block has the identifier. *)
Theorem move_block_edges gui rng :
  (∀ b rest up, blocks gui = b :: rest → up < 0 →
     move_block (id b) up gui rng = Returns gui rng)
  ∧ (∀ pre b down, blocks gui = pre ++ [b] → NoDup (map id (blocks gui)) → 0 < down →
     move_block (id b) down gui rng = Returns gui rng)
  ∧ (∀ block_id, In block_id (map id (blocks gui)) →
     move_block block_id 0 gui rng = Returns gui rng)
  ∧ (∀ block_id direction, ¬ In block_id (map id (blocks gui)) →
     move_block block_id direction gui rng = RaisesStopIteration).
Proof.
  split; [|split; [|split]].
  - intros b rest up Hl Hup. unfold move_block, enumerate. rewrite Hl. simpl.
    rewrite bool_decide_eq_true_2 by done. change (0 <? Z.of_nat 0) with false.
    rewrite andb_false_r. destruct (Z.ltb_spec 0 up); [lia|done].
  - intros pre b down Hl Hnd Hdown. unfold move_block, enumerate. rewrite Hl in *.
    rewrite (next_index_found (id b) pre [] b 0 eq_refl (NoDup_id_middle _ _ _ Hnd)).
    destruct (Z.ltb_spec down 0); [lia|]. simpl andb. cbv iota.
    rewrite length_app. simpl.
    destruct (Z.ltb_spec (Z.of_nat (length pre)) (Z.of_nat (length pre + 1) - 1)); [lia|].
    by rewrite andb_false_r.
  - intros block_id Hin. unfold move_block.
    pose proof (next_index_spec block_id (blocks gui) 0) as Hidx. unfold enumerate.
    destruct (next_index _ _) as [i|]; [done|]. exfalso.
    apply in_map_iff in Hin as (b & Hb & Hin).
    rewrite List.Forall_forall in Hidx. by apply (Hidx b Hin).
  - intros block_id direction Hnot. unfold move_block.
    pose proof (next_index_spec block_id (blocks gui) 0) as Hidx. unfold enumerate.
    destruct (next_index _ _) as [i|]; [|done]. exfalso.
    destruct Hidx as (pre & b & post & Hl & Hb & _). apply Hnot. rewrite Hl, map_app.
    apply in_app_iff. right. left. done.
Qed.

(** *** Deleting a block *)

Lemma filter_map_id block_id (l : list RuleBlock) :
  map id (List.filter (λ b, negb (bool_decide (id b = block_id))) l)
  = List.filter (λ i, negb (bool_decide (i = block_id))) (map id l).
Proof.
  induction l as [|b l IH]; simpl; [done|].
  destruct (negb _); simpl; by rewrite IH.
Qed.

(** X18: in a consistent state [delete_block] returns without drawing a colour; the identifiers left are the others in their order, the blocks left are unchanged but for their order value, the colour of the identifier is gone, and the state is consistent. *)
Theorem delete_block_removes gui rng block_id :
  consistent gui →
  ∃ gui',
    delete_block block_id gui rng = Returns gui' rng
    ∧ map id (blocks gui')
      = List.filter (λ i, negb (bool_decide (i = block_id))) (map id (blocks gui))
    ∧ map (λ b, set_order b 0) (blocks gui')
      = map (λ b, set_order b 0)
            (List.filter (λ b, negb (bool_decide (id b = block_id))) (blocks gui))
    ∧ block_colors gui' = delete block_id (block_colors gui)
    ∧ consistent gui'.
Proof.
  intros (Hpos & Hnd & Hwf & Hcol).
  set (l := List.filter (λ b, negb (bool_decide (id b = block_id))) (blocks gui)).
  set (gui' := {| blocks := reorder_blocks l;
                  block_colors := delete block_id (block_colors gui);
                  is_generating := is_generating gui |}).
  assert (Hcol' : ∀ b, In b (blocks gui') → is_Some (block_colors gui' !! id b)).
  { intros b Hb. simpl in *. rewrite reorder_blocks_from in Hb.
    assert (Hi : In (id b) (map id l)).
    { rewrite <- (reorder_from_id 0). by apply in_map. }
    apply in_map_iff in Hi as (b' & Heq & Hb'). apply filter_In in Hb' as [Hb' Hne].
    replace (id b) with (id b') by done. rewrite lookup_delete_ne; [by apply Hcol|].
    intros Hb_id. by rewrite bool_decide_eq_true_2 in Hne. }
  assert (Hdel : delete_block block_id gui rng = Returns gui' rng).
  { unfold delete_block. fold l.
    replace (match block_colors gui !! block_id with
             | Some _ => delete block_id (block_colors gui)
             | None => block_colors gui
             end) with (delete block_id (block_colors gui)).
    - by apply refresh_workspace_covered.
    - destruct (block_colors gui !! block_id) eqn:Hc; [done|]. by apply delete_id. }
  exists gui'. split; [done|]. simpl.
  split; [unfold l; by rewrite reorder_blocks_from, reorder_from_id, filter_map_id|].
  split; [by rewrite reorder_blocks_from, reorder_from_forget|].
  split; [done|].
  eapply reorder_blocks_consistent; [| |exact Hdel].
  - by apply filter_id_NoDup.
  - by apply Forall_filter'.
Qed.

Lemma delete_block_removes_witness :
  ∃ gui', delete_block "buzz" example_gui [] = Returns gui' []
          ∧ map id (blocks gui') = ["fizz"; "prime"]%string
          ∧ map order (blocks gui') = [0; 1]
          ∧ block_colors gui' !! "buzz" = None.
Proof.
  destruct (delete_block_removes example_gui [] "buzz" example_gui_consistent)
    as (gui' & H1 & H2 & _ & H3 & (H4 & _)).
  exists gui'. split; [exact H1|]. split; [rewrite H2; vm_compute; reflexivity|].
  split.
  - rewrite H4. replace (length (blocks gui')) with (length (map id (blocks gui')))
      by apply length_map. rewrite H2. vm_compute. reflexivity.
  - rewrite H3. apply lookup_delete_eq.
Defined.

(** *** Colours *)

Lemma values_lookup (m : gmap string string) c :
  c ∈ (map_to_list m).*2 ↔ ∃ i, m !! i = Some c.
Proof.
  rewrite list_elem_of_fmap. split.
  - intros ([i c'] & -> & H). exists i. by apply elem_of_map_to_list.
  - intros [i H]. exists (i, c). split; [done|]. by apply elem_of_map_to_list.
Qed.

Lemma generate_random_color_In k : In (generate_random_color k) colors.
Proof.
  unfold generate_random_color. apply nth_In.
  apply Nat.mod_upper_bound. done.
Qed.

Lemma assign_while_exhausted block_colors :
  (∀ c, In c colors → ∃ i, block_colors !! i = Some c) →
  ∀ rng color, (∃ i, block_colors !! i = Some color) →
  assign_while block_colors color rng = None.
Proof.
  intros Hall. induction rng as [|k rng IH]; intros color Hc; simpl;
    rewrite bool_decide_eq_true_2 by (by apply values_lookup); [done|].
  apply IH, Hall, generate_random_color_In.
Qed.

Lemma assign_while_fresh block_colors :
  ∀ rng color c rng',
  assign_while block_colors color rng = Some (c, rng') →
  (∀ i, block_colors !! i ≠ Some c) ∧ (c = color ∨ In c colors).
Proof.
  induction rng as [|k rng IH]; intros color c rng'; simpl; case_bool_decide as Hin;
    try done.
  - intros [= <- <-]. split; [|by left]. intros i Hi. apply Hin, values_lookup. by exists i.
  - intros H. apply IH in H as [H1 [->|H2]]; (split; [done|right]); [|done].
    apply generate_random_color_In.
  - intros [= <- <-]. split; [|by left]. intros i Hi. apply Hin, values_lookup. by exists i.
Qed.

Lemma assign_block_color_spec block_colors block rng :
  assign_block_color block_colors block rng
  = if divisor_with_word "Fizz" block then Some ("#3B82F6"%string, rng)
    else if divisor_with_word "Buzz" block then Some ("#EF4444"%string, rng)
    else match rng with
         | [] => None
         | k :: rng' => assign_while block_colors (generate_random_color k) rng'
         end.
Proof.
  unfold assign_block_color, divisor_with_word. by rewrite !get_word_eq.
Qed.

(** When one block of the list needs a colour. *)
Lemma refresh_loop_single r bs :
  ∀ block_colors rng,
  block_colors !! id r = None →
  (∀ b, In b bs → b = r ∨ is_Some (block_colors !! id b)) →
  In r bs →
  refresh_loop bs block_colors rng
  = match assign_block_color block_colors r rng with
    | Some (c, rng') => Some (<[id r := c]> block_colors, rng')
    | None => None
    end.
Proof.
  induction bs as [|b bs IH]; intros colours rng Hr Hall Hin; [done|]. simpl.
  destruct (Hall b ltac:(by left)) as [->|[c Hc]].
  - rewrite Hr. destruct (assign_block_color colours r rng) as [[c rng']|]; [|done].
    apply refresh_loop_covered. intros b Hb.
    destruct (Hall b ltac:(by right)) as [->|[c' Hc']].
    + rewrite lookup_insert_eq. by eexists.
    + destruct (decide (id b = id r)) as [Heq|Hne]; [congruence|].
      rewrite lookup_insert_ne by done. by eexists.
  - rewrite Hc. apply IH; [done|intros; apply Hall; by right|].
    destruct Hin as [->|]; [congruence|done].
Qed.

Lemma add_block_refresh gui result rng :
  (∀ b, In b (blocks gui) → is_Some (block_colors gui !! id b)) →
  block_colors gui !! id result = None →
  add_block (Some result) gui rng
  = match assign_block_color (block_colors gui) result rng with
    | Some (c, rng') =>
        Returns {| blocks := blocks gui ++ [set_order result (Z.of_nat (length (blocks gui)))];
                   block_colors := <[id result := c]> (block_colors gui);
                   is_generating := is_generating gui |} rng'
    | None => StillDrawing
    end.
Proof.
  intros Hcol Hnew. unfold add_block, refresh_workspace.
  set (r := set_order result (Z.of_nat (length (blocks gui)))). simpl.
  rewrite (refresh_loop_single r); [|done| |].
  - change (assign_block_color (block_colors gui) r rng)
      with (assign_block_color (block_colors gui) result rng).
    by destruct (assign_block_color (block_colors gui) result rng) as [[c rng']|].
  - intros b Hb. apply (Permutation_in _ (sorted_Permutation order _)) in Hb.
    apply in_app_iff in Hb as [Hb|[<-|[]]]; [right; by apply Hcol|by left].
  - apply (Permutation_in _ (Permutation_sym (sorted_Permutation order _))).
    apply in_app_iff. right. by left.
Qed.

(** X19: when every colour of the palette is in use, adding a block that is not a Fizz or Buzz divisor-rule never returns, whatever the random generator draws: the loop of [assign_block_color] cannot end. *)
Theorem add_block_palette_exhausted gui result rng :
  (∀ b, In b (blocks gui) → is_Some (block_colors gui !! id b)) →
  block_colors gui !! id result = None →
  divisor_with_word "Fizz" result = false →
  divisor_with_word "Buzz" result = false →
  (∀ c, In c colors → ∃ i, block_colors gui !! i = Some c) →
  add_block (Some result) gui rng = StillDrawing.
Proof.
  intros Hcol Hnew Hfizz Hbuzz Hall.
  rewrite add_block_refresh by done.
  rewrite assign_block_color_spec, Hfizz, Hbuzz.
  destruct rng as [|k rng]; [done|].
  rewrite assign_while_exhausted; [done|done|].
  apply Hall, generate_random_color_In.
Qed.

Lemma add_block_palette_exhausted_witness :
  add_block (Some (with_id "new" (word_rule FIBONACCI "Fib" 0))) palette_gui [0; 1; 2]%nat
  = StillDrawing.
Proof.
  apply add_block_palette_exhausted.
  - exact palette_gui_coloured.
  - vm_compute. reflexivity.
  - reflexivity.
  - reflexivity.
  - exact palette_gui_exhausted.
Defined.

(** X20: when [add_block] returns, the only change to the colour map is the colour of the new block: blue for a Fizz divisor-rule, red for a Buzz divisor-rule, otherwise a colour of the palette that no block had. *)
Theorem add_block_colour gui result rng gui' rng' :
  (∀ b, In b (blocks gui) → is_Some (block_colors gui !! id b)) →
  block_colors gui !! id result = None →
  add_block (Some result) gui rng = Returns gui' rng' →
  ∃ c, block_colors gui' = <[id result := c]> (block_colors gui)
       ∧ if divisor_with_word "Fizz" result then c = "#3B82F6"%string
         else if divisor_with_word "Buzz" result then c = "#EF4444"%string
         else In c colors ∧ ∀ i, block_colors gui !! i ≠ Some c.
Proof.
  intros Hcol Hnew. rewrite add_block_refresh by done.
  rewrite assign_block_color_spec.
  destruct (divisor_with_word "Fizz" result).
  { intros [= <- <-]. by eexists. }
  destruct (divisor_with_word "Buzz" result).
  { intros [= <- <-]. by eexists. }
  destruct rng as [|k rng]; [done|].
  destruct (assign_while _ _ _) as [[c rng1]|] eqn:Hw; [|done].
  intros [= <- <-]. exists c. split; [done|].
  apply assign_while_fresh in Hw as [H1 [->|H2]]; split; try done.
  apply generate_random_color_In.
Qed.

Lemma add_block_colour_witness :
  ∃ gui' rng' c,
    add_block (Some (with_id "seven" (divisor_rule 7 "Seven" 0))) example_gui [0; 3]%nat
    = Returns gui' rng'
    ∧ block_colors gui' = <["seven" := c]> (block_colors example_gui)
    ∧ In c colors ∧ ∀ i, block_colors example_gui !! i ≠ Some c.
Proof.
  set (result := with_id "seven" (divisor_rule 7 "Seven" 0)).
  destruct (add_block (Some result) example_gui [0; 3]%nat) as [gui' rng'| |] eqn:H;
    [|vm_compute in H; discriminate H..].
  destruct (add_block_colour example_gui result [0; 3]%nat gui' rng')
    as (c & Hc & Hfresh).
  - destruct example_gui_consistent as (_ & _ & _ & Hcol). exact Hcol.
  - vm_compute. reflexivity.
  - exact H.
  - assert (Hf : divisor_with_word "Fizz" result = false) by reflexivity.
    assert (Hb : divisor_with_word "Buzz" result = false) by reflexivity.
    rewrite Hf, Hb in Hfresh.
    exists gui', rng', c. split; [reflexivity|]. split; [exact Hc|]. exact Hfresh.
Defined.

(** *** The window validates like the core *)

(** X21: when no run is under way and both fields read as integers, [generate_fizzbuzz] starts the worker exactly when [1 <= start < end] and the block list is not empty, and then the core's validation cannot fail; otherwise it shows an error and the core would raise [ValueError] on that input, with the same message unless the block list is empty. *)
Theorem generate_fizzbuzz_validates int start_entry end_entry gui start end_ :
  is_generating gui = false →
  int start_entry = Ok start → int end_entry = Ok end_ →
  let accepted := 1 ≤ start ∧ start < end_ ∧ blocks gui ≠ [] in
  (accepted →
     ∃ gui', generate_fizzbuzz int start_entry end_entry gui
             = Ok (gui', WorkerStarted start end_)
             ∧ blocks gui' = blocks gui ∧ block_colors gui' = block_colors gui
             ∧ is_generating gui' = true
             ∧ ∀ cb, no_ValueError (fst (generate_fizzbuzz_batch start end_ (blocks gui') cb)))
  ∧ (¬ accepted →
     ∃ msg, generate_fizzbuzz int start_entry end_entry gui = Ok (gui, InvalidInput msg)
            ∧ ∀ cb, ∃ msg', fst (generate_fizzbuzz_batch start end_ (blocks gui) cb)
                            = Raise (ValueError msg')
                            ∧ (blocks gui ≠ [] → msg' = msg)).
Proof.
  intros Hgen Hs He accepted. unfold generate_fizzbuzz. rewrite Hgen, Hs, He. simpl.
  unfold accepted. split.
  - intros (H1 & H2 & H3).
    destruct (Z.geb_spec start end_); [lia|]. destruct (Z.ltb_spec start 1); [lia|].
    destruct (blocks gui) as [|b bs] eqn:Hb; [done|].
    eexists. split; [reflexivity|]. simpl. do 3 (split; [done|]).
    intros cb msg Hmsg.
    destruct (batch_ValueError start end_ (b :: bs) cb) as [[Hv _] _].
    destruct Hv as [|[|]]; [by exists msg|done|lia|lia].
  - intros Hnot. unfold generate_fizzbuzz_batch.
    destruct (Z.geb_spec start end_).
    { eexists. split; [reflexivity|]. intros cb.
      destruct (blocks gui); eexists; (split; [reflexivity|]); done. }
    destruct (Z.ltb_spec start 1).
    { eexists. split; [reflexivity|]. intros cb.
      destruct (blocks gui); eexists; (split; [reflexivity|]); done. }
    destruct (blocks gui) as [|b bs] eqn:Hb.
    + eexists. split; [reflexivity|]. intros cb. eexists. split; [reflexivity|]. done.
    + exfalso. apply Hnot. split; [lia|]. split; [lia|]. done.
Qed.

Lemma generate_fizzbuzz_validates_witness :
  ∃ gui', generate_fizzbuzz decimal_int "1" "100" example_gui
          = Ok (gui', WorkerStarted 1 100)
          ∧ ∀ cb, no_ValueError (fst (generate_fizzbuzz_batch 1 100 (blocks gui') cb)).
Proof.
  destruct (generate_fizzbuzz_validates decimal_int "1" "100" example_gui 1 100
              eq_refl eq_refl eq_refl) as [H _].
  destruct H as (gui' & H1 & _ & _ & _ & H2).
  - split; [lia|]. split; [lia|discriminate].
  - exists gui'. split; [exact H1|exact H2].
Defined.

(** *** The worker *)






(** *** From the click on Generate to the text area *)




(** *** The heatmap *)

Lemma type_value_loop_found rt (pre post : list RuleBlock) b v :
  Forall (λ x, tagged rt x = false) pre → tagged rt b = true →
  type_value_loop rt (pre ++ b :: post) v = Some (v + Z.of_nat (length pre)).
Proof.
  intros Hpre Hb. revert v. induction Hpre as [|x pre Hx Hpre IH]; intros v; simpl.
  - fold (tagged rt b). rewrite Hb. f_equal. lia.
  - fold (tagged rt x). rewrite Hx, IH. f_equal. lia.
Qed.

Lemma type_value_loop_none rt (l : list RuleBlock) v :
  Forall (λ x, tagged rt x = false) l → type_value_loop rt l v = None.
Proof.
  intros H. revert v. induction H as [|x l Hx Hl IH]; intros v; simpl; [done|].
  fold (tagged rt x). by rewrite Hx.
Qed.

Lemma first_tagged rt (l : list RuleBlock) :
  Forall (λ x, tagged rt x = false) l
  ∨ ∃ pre b post, l = pre ++ b :: post ∧ Forall (λ x, tagged rt x = false) pre
                  ∧ tagged rt b = true.
Proof.
  induction l as [|x l IH]; [left; constructor|].
  destruct (tagged rt x) eqn:Hx.
  - right. exists [], x, l. split; [done|]. split; [constructor|done].
  - destruct IH as [IH|(pre & b & post & -> & Hpre & Hb)].
    + left. by constructor.
    + right. exists (x :: pre), b, post. split; [done|]. split; [by constructor|done].
Qed.

(** The colour list when every block has a word and a colour. *)
Lemma colors_loop_complete block_colors (l : list RuleBlock) :
  Forall complete l → (∀ b, In b l → is_Some (block_colors !! id b)) →
  ∀ colors labels,
  ∃ cs ls, colors_loop block_colors l colors labels = (colors ++ cs, labels ++ ls)
           ∧ length cs = length l
           ∧ ∀ k b, l !! k = Some b → cs !! k = block_colors !! id b.
Proof.
  induction 1 as [|b l Hb Hl IH]; intros Hcol colors labels.
  - exists [], []. simpl. by rewrite !app_nil_r.
  - destruct (Hcol b ltac:(by left)) as [c Hc]. simpl.
    destruct Hb as [[[w Hw] _] Hne]. unfold get. rewrite Hw. simpl.
    unfold word in Hne. rewrite Hw in Hne.
    rewrite bool_decide_eq_false_2 by done. simpl. rewrite Hc.
    edestruct (IH ltac:(intros; apply Hcol; by right)) as (cs & ls & -> & Hlen & Hlook).
    eexists (c :: cs), (_ :: ls). rewrite <- !(assoc_L (++)). simpl.
    split; [reflexivity|]. split; [by rewrite Hlen|].
    intros [|k] b' Hk; simpl in *; [injection Hk as <-; done|by apply Hlook].
Qed.

Lemma has_fizz_and_buzz_existsb gui :
  has_fizz_and_buzz gui
  = existsb (divisor_with_word "Fizz") (blocks gui)
    && existsb (divisor_with_word "Buzz") (blocks gui).
Proof.
  unfold has_fizz_and_buzz.
  assert (H : ∀ w (l : list RuleBlock),
            existsb (λ b, bool_decide (properties b !! "word" = Some (VStr w)))
                    (List.filter (λ b, bool_decide (block_type b = DIVISOR)) l)
            = existsb (divisor_with_word w) l).
  { intros w l. induction l as [|b l IH]; simpl; [done|]. unfold divisor_with_word at 1.
    destruct (bool_decide (block_type b = DIVISOR)); simpl; by rewrite IH. }
  by rewrite !H.
Qed.

Lemma existsb_incl {A : Type} (P : A → bool) (l l' : list A) :
  (∀ x, In x l → In x l') → existsb P l = true → existsb P l' = true.
Proof.
  intros Hincl H. apply existsb_exists in H as (x & Hx & HP).
  apply existsb_exists. exists x. auto.
Qed.

Lemma process_number_matching_In n bs fs r b :
  process_number n bs fs = Ok r → In b (matching_blocks r) → In b bs.
Proof.
  unfold process_number. intros H Hb.
  apply bind_Ok_inv in H as ([parts mbs] & Hloop & H).
  apply bind_Ok_inv in H as (txt & _ & [= <-]). simpl in Hb.
  destruct (process_loop_collects _ _ _ _ _ _ _ Hloop b Hb) as [[]|[Hin _]].
  by apply (Permutation_in _ (sorted_Permutation order bs)).
Qed.

Lemma tagged_classify b :
  well_formed b → tagged (classify [b]) b = true.
Proof.
  intros [[w Hw] _]. unfold tagged, classify, divisor_with_word, get. rewrite Hw.
  destruct (block_type b); simpl; try done.
  repeat case_bool_decide; simplify_eq; done.
Qed.

Lemma not_tagged rt b :
  rt = "FizzBuzz" ∨ rt = "combination" → tagged rt b = false.
Proof. intros [-> | ->]; vm_compute; reflexivity. Qed.

Lemma filter_length_le {A : Type} (P : A → bool) (l : list A) :
  (length (List.filter P l) ≤ length l)%nat.
Proof. induction l as [|x l IH]; simpl; [lia|]. destruct (P x); simpl; lia. Qed.

(** X24: in a consistent state, the value [get_type_value] gives to a result of [process_number] indexes the colour list of [get_colors_and_labels] as follows: light gray when no rule matched; the colour of the first block from the top that answers to the tag when one rule matched; purple for a FizzBuzz result; for any other combination pink when a Fizz and a Buzz divisor-rule exist, and otherwise the index is one past the end of the colour list. *)
Theorem heatmap_cell_colour gui n fs r :
  consistent gui → process_number n (blocks gui) (Some fs) = Ok r →
  let v := get_type_value gui (result_type r) in
  let colors := fst (get_colors_and_labels gui) in
  let total := Z.of_nat (length (blocks gui)) in
  match matching_blocks r with
  | [] => v = 0 ∧ colors !! 0%nat = Some "#E5E7EB"%string
  | [b] =>
      ∃ (k : nat) b',
        blocks gui !! k = Some b' ∧ tagged (result_type r) b' = true
        ∧ (∀ (j : nat) b'', (j < k)%nat → blocks gui !! j = Some b'' →
             tagged (result_type r) b'' = false)
        ∧ tagged (result_type r) b = true
        ∧ v = Z.of_nat k + 1
        ∧ colors !! S k = block_colors gui !! id b'
  | _ :: _ :: _ =>
      if bool_decide (result_type r = "FizzBuzz")
      then has_fizz_and_buzz gui = true ∧ v = total + 1
           ∧ colors !! Z.to_nat v = Some "#8B5CF6"%string
      else v = total + 2
           ∧ colors !! Z.to_nat v
             = if has_fizz_and_buzz gui then Some "#FF2ED9"%string else None
  end.
Proof.
  intros (Hpos & Hnd & Hcomplete & Hcol) Hr v colors total.
  pose proof (complete_well_formed _ Hcomplete) as Hwf.
  pose proof (process_number_returns _ _ _ _ Hr) as Hpd.
  rewrite process_number_well_formed in Hr by done. injection Hr as <-.
  unfold matched in *. rewrite (positioned_sorted _ Hpos) in *.
  cbn [matching_blocks result_type] in *.
  set (ms := List.filter (rule_holds n fs) (blocks gui)) in *.
  assert (Hms : ∀ b, In b ms → In b (blocks gui)).
  { intros b Hb. by apply filter_In in Hb as [Hb _]. }
  assert (Hlen : (length ms ≤ length (blocks gui))%nat) by apply filter_length_le.
  destruct (colors_loop_complete (block_colors gui) (blocks gui) Hcomplete Hcol
              ["#E5E7EB"%string] [VStr "Numbers"]) as (cs & ls & Hloop & Hcs & Hlook).
  assert (Hcolors : colors = ["#E5E7EB"%string] ++ cs
                             ++ (if has_fizz_and_buzz gui then ["#8B5CF6"%string] else [])
                             ++ (if 1 <? total then ["#FF2ED9"%string] else [])).
  { unfold colors, get_colors_and_labels. rewrite (positioned_sorted _ Hpos), Hloop.
    fold total. destruct (has_fizz_and_buzz gui), (1 <? total); simpl;
      by rewrite <- ?(assoc_L (++)), ?app_nil_r. }
  unfold v, get_type_value. rewrite !(positioned_sorted _ Hpos). fold ms.
  clearbody ms. clear v.
  destruct ms as [|b [|b2 ms']].
  - split; [by rewrite bool_decide_eq_true_2|]. by rewrite Hcolors.
  - assert (Hb : In b (blocks gui)) by (apply Hms; by left).
    assert (Htag : tagged (classify [b]) b = true).
    { apply tagged_classify. rewrite List.Forall_forall in Hwf. by apply Hwf. }
    assert (Hrt : bool_decide (classify [b] = "number") = false).
    { case_bool_decide as Heq; [|done]. rewrite Heq in Htag.
      vm_compute in Htag. discriminate Htag. }
    rewrite Hrt.
    destruct (first_tagged (classify [b]) (blocks gui))
      as [Hnone|(pre & b' & post & Hl & Hpre & Hb')].
    { rewrite List.Forall_forall in Hnone. rewrite (Hnone b Hb) in Htag. done. }
    replace (type_value_loop (classify [b]) (blocks gui) 1)
      with (Some (1 + Z.of_nat (length pre)))
      by (rewrite Hl; symmetry; by apply type_value_loop_found).
    exists (length pre), b'. split; [by rewrite Hl, list_lookup_middle|].
    split; [done|]. split.
    { intros j b'' Hj Hjb. rewrite Hl, lookup_app_l in Hjb by done.
      rewrite List.Forall_forall in Hpre. apply Hpre.
      apply list_elem_of_lookup_2 in Hjb. by apply list_elem_of_In. }
    split; [done|]. split; [lia|].
    rewrite Hcolors. simpl. rewrite lookup_app_l.
    + apply Hlook. by rewrite Hl, list_lookup_middle.
    + rewrite Hcs, Hl, length_app. simpl. lia.
  - assert (Hcls : classify (b :: b2 :: ms') = "FizzBuzz"
                   ∨ classify (b :: b2 :: ms') = "combination").
    { unfold classify. destruct (_ && _); auto. }
    assert (Hfz : classify (b :: b2 :: ms') = "FizzBuzz" → has_fizz_and_buzz gui = true).
    { intros Hfb. rewrite has_fizz_and_buzz_existsb. unfold classify in Hfb.
      destruct (existsb (divisor_with_word "Fizz") (b :: b2 :: ms')) eqn:Hf;
        [|by simpl in Hfb].
      destruct (existsb (divisor_with_word "Buzz") (b :: b2 :: ms')) eqn:Hz;
        [|by simpl in Hfb].
      rewrite (existsb_incl _ _ _ Hms Hf), (existsb_incl _ _ _ Hms Hz). done. }
    assert (Htot : 1 < total) by (unfold total; simpl in Hlen; lia).
    assert (H1 : (1 <? total) = true) by (by apply Z.ltb_lt).
    rewrite H1 in Hcolors.
    set (rt := classify (b :: b2 :: ms')) in *. clearbody rt.
    rewrite type_value_loop_none
      by (apply List.Forall_forall; intros; by apply not_tagged).
    fold total.
    destruct Hcls as [-> | ->].
    + rewrite Hfz in * by done.
      rewrite !(bool_decide_eq_true_2 ("FizzBuzz" = "FizzBuzz")) by done.
      rewrite (bool_decide_eq_false_2 ("FizzBuzz" = "number")) by done.
      simpl andb. cbv iota. split; [done|]. split; [done|].
      rewrite Hcolors.
      replace (Z.to_nat (total + 1)) with (S (length cs + 0)) by (unfold total; lia).
      simpl. rewrite lookup_app_r by lia.
      by replace (length cs + 0 - length cs)%nat with 0%nat by lia.
    + rewrite (bool_decide_eq_false_2 ("combination" = "FizzBuzz")) by done.
      rewrite (bool_decide_eq_false_2 ("combination" = "number")) by done.
      rewrite (bool_decide_eq_true_2 ("combination" = "combination")) by done.
      simpl andb. cbv iota. split; [done|].
      rewrite Hcolors.
      replace (Z.to_nat (total + 2)) with (S (length cs + 1)) by (unfold total; lia).
      simpl. rewrite lookup_app_r by lia.
      replace (length cs + 1 - length cs)%nat with 1%nat by lia.
      by destruct (has_fizz_and_buzz gui).
Qed.

Lemma heatmap_cell_colour_witness :
  ∃ r, process_number 15 (blocks example_gui) (Some ∅) = Ok r
       ∧ has_fizz_and_buzz example_gui = true
       ∧ get_type_value example_gui (result_type r) = 4
       ∧ fst (get_colors_and_labels example_gui)
           !! Z.to_nat (get_type_value example_gui (result_type r))
         = Some "#8B5CF6"%string.
Proof.
  destruct (process_number 15 (blocks example_gui) (Some ∅)) as [r|e] eqn:Hr;
    [|vm_compute in Hr; discriminate Hr].
  pose proof (heatmap_cell_colour example_gui 15 ∅ r example_gui_consistent Hr) as H.
  cbv zeta in H.
  assert (Hm : map id (matching_blocks r) = ["fizz"; "buzz"]%string
               ∧ result_type r = "FizzBuzz"%string).
  { vm_compute in Hr. injection Hr as <-. split; reflexivity. }
  destruct Hm as [Hm Hrt].
  destruct (matching_blocks r) as [|b1 [|b2 ms]]; [discriminate Hm..|].
  rewrite bool_decide_eq_true_2 in H by exact Hrt.
  destruct H as (H1 & H2 & H3).
  exists r. split; [reflexivity|]. split; [exact H1|]. split; [|exact H3].
  rewrite H2. reflexivity.
Defined.

(** *** The description of a block *)


(** *** The initial state *)

(** X13: with two distinct identifiers, [create_default_blocks] returns without drawing a colour and leaves the Fizz and the Buzz block, in that order, in a consistent state. *)
Lemma create_default_blocks_consistent fizz_id buzz_id gui rng :
  fizz_id ≠ buzz_id →
  ∃ gui', create_default_blocks fizz_id buzz_id gui rng = Returns gui' rng
          ∧ map id (blocks gui') = [fizz_id; buzz_id]
          ∧ map word (blocks gui') = ["Fizz"; "Buzz"]%string
          ∧ consistent gui'.
Proof.
  intros Hne. unfold create_default_blocks.
  eexists. split.
  - apply refresh_workspace_covered. simpl. intros b [<-|[<-|[]]]; simpl.
    + rewrite lookup_insert_ne by done. rewrite lookup_insert_eq. by eexists.
    + rewrite lookup_insert_eq. by eexists.
  - simpl. split; [done|]. split; [done|].
    split; [done|]. split.
    { simpl. apply NoDup_cons. split; [|apply NoDup_singleton].
      intros H. apply list_elem_of_In in H. destruct H as [H|[]]. congruence. }
    split.
    { repeat constructor; simpl; try done.
      - by eexists.
      - exists 3. done.
      - by eexists.
      - exists 5. done. }
    simpl. intros b [<-|[<-|[]]]; simpl.
    + rewrite lookup_insert_ne by done. rewrite lookup_insert_eq. by eexists.
    + rewrite lookup_insert_eq. by eexists.
Qed.

Lemma create_default_blocks_consistent_witness :
  ∃ gui', create_default_blocks "a" "b" {| blocks := []; block_colors := ∅;
                                           is_generating := false |} []
          = Returns gui' []
          ∧ consistent gui'.
Proof.
  destruct (create_default_blocks_consistent "a" "b"
              {| blocks := []; block_colors := ∅; is_generating := false |} [])
    as (gui' & H1 & _ & _ & H2); [discriminate|].
  exists gui'. split; [exact H1|exact H2].
Defined.

(** *** The side of the grid *)

Lemma SFsqrt_core_binary_exact m e :
  0 < m →
  let e' := Z.min (fexp64 (Z.div2 (Zdigits2 m + e + 1))) (Z.div2 e) in
  ∃ q l, SFsqrt_core_binary prec emax m e = (q, e', l)
         ∧ 0 ≤ e - 2 * e'
         ∧ q = Z.sqrt (m * 2 ^ (e - 2 * e'))
         ∧ (q * q = m * 2 ^ (e - 2 * e') → l = loc_Exact).
Proof.
  intros Hm e'. unfold SFsqrt_core_binary. fold e'.
  assert (Hs : 0 ≤ e - 2 * e').
  { pose proof (Z.div2_div e). pose proof (Z.div_mod e 2 ltac:(lia)).
    pose proof (Z.mod_pos_bound e 2 ltac:(lia)). lia. }
  set (m' := match e - 2 * e' with Z.pos _ => Z.shiftl m (e - 2 * e') | 0 => m | Z.neg _ => 0 end).
  assert (Hm' : m' = m * 2 ^ (e - 2 * e')).
  { unfold m'. destruct (e - 2 * e') as [|p|p] eqn:Hp; try lia.
    by rewrite Z.shiftl_mul_pow2. }
  assert (Hm'0 : 0 ≤ m').
  { rewrite Hm'. pose proof (Z.pow_pos_nonneg 2 (e - 2 * e')). nia. }
  pose proof (Z.sqrtrem_sqrt m') as Hq.
  pose proof (Z.sqrtrem_spec m' Hm'0) as Hspec.
  destruct (Z.sqrtrem m') as [q r]. simpl in Hq.
  eexists q, _. split; [reflexivity|]. split; [done|]. split; [by rewrite <- Hm'|].
  intros Hsq. rewrite <- Hm' in Hsq. destruct Hspec as [Heq Hr].
  assert (r = 0) as -> by lia. done.
Qed.

(** A small integer survives the round trip through a float. *)
Lemma int_of_float_normalize c :
  0 < c < 2 ^ 53 → int_of_float (binary_normalize prec emax c 0 false) = Ok c.
Proof.
  intros Hc. pose proof (float_of_int_exact c Hc) as H. cbv zeta in H.
  unfold float_of_int in H.
  destruct (binary_normalize prec emax c 0 false) as [| | |s m e] eqn:Hn;
    try discriminate H.
  injection H as -> -> ->. unfold int_of_float, cond_Zopp.
  destruct (Zdigits2_bounds c ltac:(lia)) as (Hd1 & Hlo & Hhi).
  pose proof (Zdigits2_le c 53 ltac:(lia) ltac:(lia)) as Hd53.
  set (d := Zdigits2 c) in *.
  assert (Hpos : 0 < c * 2 ^ (53 - d)).
  { pose proof (Z.pow_pos_nonneg 2 (53 - d)). nia. }
  rewrite Z2Pos.id by done. f_equal.
  destruct (Z.leb_spec 0 (d - 53)).
  - replace (53 - d) with 0 by lia. replace (d - 53) with 0 by lia. simpl. lia.
  - replace (- (d - 53)) with (53 - d) by lia. apply Z.div_mul.
    pose proof (Z.pow_pos_nonneg 2 (53 - d)). lia.
Qed.

Lemma grid_size_spec n :
  1 ≤ n < 2 ^ 52 →
  ∃ g, (x ← np_sqrt n; int_of_float (np_ceil x)) = Ok g
       ∧ 0 < g ∧ (g - 1) * (g - 1) < n ≤ g * g.
Proof.
  intros [Hn1 Hn]. unfold np_sqrt.
  assert (Hn53 : n < 2 ^ 53).
  { pose proof (Z.pow_lt_mono_r 2 52 53 ltac:(lia) ltac:(lia) ltac:(lia)). lia. }
  rewrite float_of_int_exact by lia. simpl mbind.
  set (d := Zdigits2 n).
  destruct (Zdigits2_bounds n ltac:(lia)) as (Hd1 & Hlo & Hhi). fold d in Hd1, Hlo, Hhi.
  assert (Hd52 : d ≤ 52) by (apply Zdigits2_le; lia).
  assert (Hpos : 0 < n * 2 ^ (53 - d)).
  { pose proof (Z.pow_pos_nonneg 2 (53 - d)). nia. }
  unfold SFsqrt.
  destruct (SFsqrt_core_binary_exact (Z.pos (Z.to_pos (n * 2 ^ (53 - d)))) (d - 53))
    as (q & l & Hcore & Hs & Hq & Hexact); [lia|].
  rewrite Hcore. clear Hcore.
  rewrite Z2Pos.id in * by done.
  assert (Hdz : Zdigits2 (n * 2 ^ (53 - d)) = 53).
  { rewrite Zdigits2_mul_pow2 by lia. fold d. lia. }
  rewrite Hdz in *.
  pose proof (Z.div2_div (53 + (d - 53) + 1)) as Hdiv2a.
  pose proof (Z.div2_div (d - 53)) as Hdiv2b.
  pose proof (Z.div_mod (53 + (d - 53) + 1) 2 ltac:(lia)).
  pose proof (Z.mod_pos_bound (53 + (d - 53) + 1) 2 ltac:(lia)).
  pose proof (Z.div_mod (d - 53) 2 ltac:(lia)).
  pose proof (Z.mod_pos_bound (d - 53) 2 ltac:(lia)).
  set (e' := Z.min (fexp64 (Z.div2 (53 + (d - 53) + 1))) (Z.div2 (d - 53))) in *.
  set (E := - e').
  assert (HE : 27 ≤ E ≤ 52 ∧ d - 53 - 2 * e' = d - 53 + 2 * E
               ∧ 104 ≤ d - 1 + 2 * E ∧ d + 2 * E ≤ 106).
  { unfold E, e'. fexp_lia. }
  destruct HE as (HE & HsE & HloE & HhiE).
  rewrite HsE in *.
  assert (Hm' : n * 2 ^ (53 - d) * 2 ^ (d - 53 + 2 * E) = n * 2 ^ (2 * E)).
  { rewrite <- Z.mul_assoc, <- Z.pow_add_r by lia. do 2 f_equal. lia. }
  rewrite Hm' in Hq, Hexact.
  assert (HT : 2 ^ (2 * E) = 2 ^ E * 2 ^ E).
  { rewrite <- Z.pow_add_r by lia. f_equal. lia. }
  assert (HTlo : 2 ^ 27 ≤ 2 ^ E) by (apply Z.pow_le_mono_r; lia).
  set (T := 2 ^ E) in *. rewrite HT in *.
  change (2 ^ 27) with 134217728 in HTlo.
  pose proof (Z.sqrt_spec (n * (T * T)) ltac:(nia)) as Hsq.
  rewrite <- Hq in Hsq. cbv zeta in Hsq.
  replace (Z.succ q) with (q + 1) in Hsq by lia.
  assert (Hq0 : 0 ≤ q) by (rewrite Hq; apply Z.sqrt_nonneg).
  assert (Hm'lo : 2 ^ 104 ≤ n * (T * T)).
  { pose proof (Z.pow_le_mono_r 2 104 (d - 1 + 2 * E) ltac:(lia) ltac:(lia)) as Hp.
    rewrite Z.pow_add_r, HT in Hp by lia. nia. }
  assert (Hm'hi : n * (T * T) < 2 ^ 106).
  { pose proof (Z.pow_le_mono_r 2 (d + 2 * E) 106 ltac:(lia) ltac:(lia)) as Hp.
    rewrite Z.pow_add_r, HT in Hp by lia. nia. }
  assert (Hq53 : 2 ^ 52 ≤ q < 2 ^ 53).
  { change (2 ^ 104) with (2 ^ 52 * 2 ^ 52) in Hm'lo.
    change (2 ^ 106) with (2 ^ 53 * 2 ^ 53) in Hm'hi. nia. }
  assert (Hdq : Zdigits2 q = 53) by (apply Zdigits2_unique; [lia|done]).
  destruct (binary_round_aux_spec false q e' l)
    as (m3 & e3 & Hr & Hm3 & He3 & Hval & Hcan & Hex);
    [lia|rewrite Hdq; unfold E in *; fexp_lia|].
  rewrite Hdq in *.
  assert (He1 : fexp64 (53 + e') = e') by (unfold E in *; fexp_lia).
  rewrite He1 in *. rewrite Z.sub_diag, Z.div_1_r in Hval, Hex.
  assert (Hpe : 0 < 2 ^ (e3 - e')) by (apply Z.pow_pos_nonneg; lia).
  assert (Hm3pos : 0 < m3) by nia.
  destruct (Zdigits2_bounds m3 Hm3pos) as (Hd3 & Hlo3 & Hhi3).
  assert (Hd3' : Zdigits2 m3 = 53) by (unfold E in *; fexp_lia).
  rewrite Hd3' in *.
  assert (He3' : e3 ≤ e' + 1).
  { destruct (Z.le_gt_cases e3 (e' + 1)); [done|].
    pose proof (Z.pow_le_mono_r 2 2 (e3 - e') ltac:(lia) ltac:(lia)).
    change (2 ^ (53 - 1)) with (2 ^ 52) in Hlo3. change (2 ^ 2) with 4 in *. nia. }
  rewrite Hr, float_of_parts_finite by (unfold E in *; lia).
  unfold np_ceil. destruct (Z.leb_spec 0 e3); [unfold E in *; lia|].
  rewrite Z2Pos.id by done.
  (* the mantissa in units of 2^e' *)
  set (M := m3 * 2 ^ (e3 - e')) in *.
  assert (Hsplit : T = 2 ^ (- e3) * 2 ^ (e3 - e')).
  { unfold T. rewrite <- Z.pow_add_r by lia. f_equal. unfold E. lia. }
  assert (Hp3 : 0 < 2 ^ (- e3)) by (apply Z.pow_pos_nonneg; lia).
  assert (Hdiv : m3 `div` 2 ^ (- e3) = M `div` T).
  { rewrite Hsplit. unfold M. rewrite Z.div_mul_cancel_r; [done|lia|lia]. }
  assert (Hmod : m3 `mod` 2 ^ (- e3) = 0 ↔ M `mod` T = 0).
  { rewrite Hsplit. unfold M. rewrite Z.mul_mod_distr_r by lia. nia. }
  rewrite Hdiv.
  (* the integer square root of n *)
  set (k := Z.sqrt n).
  pose proof (Z.sqrt_spec n ltac:(lia)) as Hk. cbv zeta in Hk. fold k in Hk.
  replace (Z.succ k) with (k + 1) in Hk by lia.
  assert (Hk0 : 1 ≤ k).
  { unfold k. change 1 with (Z.sqrt 1). apply Z.sqrt_le_mono. lia. }
  assert (Hk26 : k < 2 ^ 26).
  { change (2 ^ 52) with (2 ^ 26 * 2 ^ 26) in Hn. nia. }
  change (2 ^ 26) with 67108864 in Hk26.
  assert (Hqhi : q + 1 ≤ (k + 1) * T) by nia.
  destruct (Z.eq_dec n (k * k)) as [Hsquare|Hnot].
  - (* a perfect square: the root is exact *)
    assert (Hqk : q = k * T).
    { rewrite Hq, Hsquare. replace (k * k * (T * T)) with ((k * T) * (k * T)) by ring.
      apply Z.sqrt_square. nia. }
    assert (HM : M = k * T).
    { rewrite <- Hqk. apply Hex; [|apply Z.mod_1_r]. apply Hexact.
      rewrite Hqk, Hsquare. ring. }
    rewrite HM, Z.div_mul by lia.
    assert (Hz : m3 `mod` 2 ^ (- e3) = 0) by (apply Hmod; rewrite HM; apply Z.mod_mul; lia).
    rewrite Hz. simpl Z.eqb. cbv iota.
    rewrite int_of_float_normalize.
    + exists k. split; [done|]. split; [lia|nia].
    + change (2 ^ 53) with 9007199254740992. lia.
  - (* not a square: the root lies strictly between k and k + 1 *)
    assert (Hqlo : k * T + 1 ≤ q).
    { assert (HkT : 0 ≤ k * T) by (apply Z.mul_nonneg_nonneg; lia).
      assert (HTT : 0 ≤ T * T) by (apply Z.mul_nonneg_nonneg; lia).
      rewrite Hq. apply Z.sqrt_le_square; [apply Z.mul_nonneg_nonneg; lia|lia|].
      assert (Ha1 : (k * T + 1) * (k * T + 1) = k * k * (T * T) + T * (2 * k) + 1) by ring.
      assert (Ha2 : (k * k + 1) * (T * T) = k * k * (T * T) + T * T) by ring.
      assert (Ha3 : T * (2 * k + 1) = T * (2 * k) + T) by ring.
      assert (Ha4 : T * (2 * k + 1) ≤ T * T) by (apply Z.mul_le_mono_nonneg_l; lia).
      assert (Ha5 : (k * k + 1) * (T * T) ≤ n * (T * T))
        by (apply Z.mul_le_mono_nonneg_r; lia).
      lia. }
    assert (HMlo : k * T < M) by lia.
    assert (HMhi : M ≤ (k + 1) * T) by lia.
    assert (Hc : (if m3 `mod` 2 ^ (- e3) =? 0 then M `div` T else M `div` T + 1) = k + 1).
    { destruct (Z.eqb_spec (m3 `mod` 2 ^ (- e3)) 0) as [Hz|Hnz].
      - apply Hmod in Hz. apply Z.mod_divide in Hz; [|lia]. destruct Hz as [j Hj].
        rewrite Hj, Z.div_mul by lia.
        assert (k < j) by (apply (Z.mul_lt_mono_pos_r T); lia).
        assert (j ≤ k + 1) by (apply (Z.mul_le_mono_pos_r _ _ T); lia).
        lia.
      - assert (HMne : M ≠ (k + 1) * T).
        { intros HM. apply Hnz, Hmod. rewrite HM. apply Z.mod_mul. lia. }
        assert (M `div` T = k); [|lia].
        assert (k ≤ M `div` T) by (apply Z.div_le_lower_bound; lia).
        assert (M `div` T < k + 1); [|lia].
        apply Z.div_lt_upper_bound; lia. }
    rewrite Hc. rewrite int_of_float_normalize.
    + exists (k + 1). split; [done|]. split; [lia|].
      replace (k + 1 - 1) with k by lia. lia.
    + change (2 ^ 53) with 9007199254740992. lia.
Qed.

(** *** Filling the grid *)

Lemma setitem2_spec g grid (row col : nat) v :
  square g grid → (row < g)%nat → (col < g)%nat →
  square g (setitem2 grid (Z.of_nat row) (Z.of_nat col) v)
  ∧ ∀ r c, cell (setitem2 grid (Z.of_nat row) (Z.of_nat col) v) r c
           = if decide (r = row ∧ c = col) then Some v else cell grid r c.
Proof.
  intros [Hlen Hrows] Hrow Hcol. unfold setitem2. rewrite !Nat2Z.id.
  destruct (lookup_lt_is_Some_2 grid row ltac:(lia)) as [rw Hrw]. rewrite Hrw.
  assert (Hrwlen : length rw = g).
  { rewrite Forall_lookup in Hrows. by apply (Hrows row). }
  split.
  - split; [by rewrite length_insert|].
    apply Forall_insert; [done|]. by rewrite length_insert.
  - intros r c. unfold cell. destruct (decide (r = row)) as [->|Hne].
    + rewrite list_lookup_insert_eq by lia. rewrite Hrw.
      destruct (decide (c = col)) as [->|Hne].
      * rewrite decide_True by done. apply list_lookup_insert_eq. lia.
      * rewrite decide_False by (intros [_ ?]; done). by apply list_lookup_insert_ne.
    + rewrite decide_False by (intros [? _]; done). by rewrite list_lookup_insert_ne.
Qed.

Lemma div_mod_eq (g i a : nat) :
  (0 < g)%nat → (i / g = a / g)%nat → (i mod g = a mod g)%nat → i = a.
Proof.
  intros Hg Hd Hm. pose proof (Nat.div_mod_eq i g). pose proof (Nat.div_mod_eq a g).
  rewrite Hd, Hm in *. lia.
Qed.

Lemma heatmap_loop_spec gui (g : nat) :
  (0 < g)%nat →
  ∀ (l : list (Z * string * string)) (a : nat) grid,
  square g grid → (a + length l ≤ g * g)%nat →
  ∃ grid',
    heatmap_loop gui (Z.of_nat g) (Z.of_nat g)
                 (combine (map Z.of_nat (seq a (length l))) l) grid = Ok grid'
    ∧ square g grid'
    ∧ ∀ i, (i < g * g)%nat →
        cell grid' (i / g) (i mod g)
        = if decide (a ≤ i < a + length l)%nat
          then (λ '(_, _, result_type), get_type_value gui result_type) <$> l !! (i - a)%nat
          else cell grid (i / g) (i mod g).
Proof.
  intros Hg. induction l as [|[[number result] result_type] l IH]; intros a grid Hsq Hlen.
  - exists grid. split; [done|]. split; [done|]. intros i Hi.
    rewrite decide_False; [done|]. simpl. lia.
  - simpl in Hlen. cbn [length seq map combine heatmap_loop].
    unfold py_floordiv, py_mod.
    destruct (Z.eqb_spec (Z.of_nat g) 0); [lia|]. simpl mbind.
    rewrite <- Nat2Z.inj_div, <- Nat2Z.inj_mod.
    assert (Hrow : (a / g < g)%nat) by (apply Nat.Div0.div_lt_upper_bound; lia).
    assert (Hcol : (a mod g < g)%nat) by (apply Nat.mod_upper_bound; lia).
    destruct (Z.ltb_spec (Z.of_nat (a / g)) (Z.of_nat g)); [|lia].
    destruct (Z.ltb_spec (Z.of_nat (a mod g)) (Z.of_nat g)); [|lia].
    simpl andb. cbv iota.
    destruct (setitem2_spec g grid (a / g) (a mod g) (get_type_value gui result_type)
                Hsq Hrow Hcol) as [Hsq1 Hcell1].
    destruct (IH (S a) _ Hsq1 ltac:(lia)) as (grid' & Hrun & Hsq' & Hcell').
    exists grid'. split; [done|]. split; [done|]. intros i Hi.
    rewrite (Hcell' i Hi). simpl length.
    destruct (decide (S a ≤ i < S a + length l)%nat) as [Hin|Hout].
    + rewrite decide_True by lia.
      replace (i - a)%nat with (S (i - S a)) by lia. done.
    + rewrite Hcell1. destruct (decide (i = a)) as [->|Hne].
      * rewrite decide_True by done. rewrite decide_True by lia.
        by rewrite Nat.sub_diag.
      * rewrite decide_False; [by rewrite decide_False by lia|].
        intros [Hd Hm]. apply Hne. by apply (div_mod_eq g).
Qed.

Lemma cell_replicate (g r c : nat) (v : Z) :
  (r < g)%nat → (c < g)%nat → cell (replicate g (replicate g v)) r c = Some v.
Proof.
  intros Hr Hc. unfold cell. rewrite lookup_replicate_2 by done.
  by apply lookup_replicate_2.
Qed.

(** X25: for between 1 and [2^52 - 1] results, [create_heatmap] builds a square array whose side [g] is the least with [g * g >= total]; reading it row by row gives the values of the results in order, none dropped, followed by [-1] in the empty cells. *)
Theorem create_heatmap_grid gui results_data :
  results_data ≠ [] → Z.of_nat (length results_data) < 2 ^ 52 →
  ∃ (g : nat) grid,
    create_heatmap gui results_data = Ok (Some grid)
    ∧ ((g - 1) * (g - 1) < length results_data ≤ g * g)%nat
    ∧ length grid = g ∧ Forall (λ row, length row = g) grid
    ∧ ∀ i, (i < g * g)%nat →
        cell grid (i / g) (i mod g)
        = Some match results_data !! i with
               | Some (_, _, result_type) => get_type_value gui result_type
               | None => -1
               end.
Proof.
  intros Hne Hlen. unfold create_heatmap.
  destruct results_data as [|x l] eqn:Hdata; [done|]. rewrite <- Hdata in *.
  assert (Hpos : 1 ≤ Z.of_nat (length results_data)) by (rewrite Hdata; simpl; lia).
  destruct (grid_size_spec (Z.of_nat (length results_data)) ltac:(lia))
    as (gz & Hg & Hg0 & Hglo & Hghi).
  apply bind_Ok_inv in Hg as (xf & Hx & Hg). rewrite Hx. simpl mbind. rewrite Hg.
  simpl mbind.
  destruct (Z_of_nat_complete gz ltac:(lia)) as [g ->]. rewrite Nat2Z.id.
  assert (Hsq : square g (replicate g (replicate g (-1)))).
  { split; [by rewrite length_replicate|].
    apply Forall_replicate. by rewrite length_replicate. }
  destruct (heatmap_loop_spec gui g ltac:(lia) results_data 0 _ Hsq ltac:(nia))
    as (grid & Hrun & [Hg1 Hg2] & Hcell).
  unfold enumerate. rewrite Hrun. simpl mbind.
  exists g, grid. split; [done|]. split; [nia|]. split; [done|]. split; [done|].
  intros i Hi. rewrite (Hcell i Hi). rewrite Nat.sub_0_r.
  destruct (decide (0 ≤ i < 0 + length results_data)%nat) as [Hin|Hout].
  - destruct (lookup_lt_is_Some_2 results_data i ltac:(lia)) as [[[a b] rt] ->]. done.
  - rewrite lookup_ge_None_2 by lia. apply cell_replicate.
    + apply Nat.Div0.div_lt_upper_bound; lia.
    + apply Nat.mod_upper_bound; lia.
Qed.

Lemma create_heatmap_grid_witness :
  let results_data := [(1, "1", "number"); (2, "2", "number"); (3, "Fizz", "Fizz");
                       (4, "4", "number"); (5, "Buzz", "Buzz")]%string in
  ∃ grid, create_heatmap example_gui results_data = Ok (Some grid)
          ∧ length grid = 3%nat
          ∧ cell grid 0 2 = Some 1 ∧ cell grid 1 1 = Some 2 ∧ cell grid 2 2 = Some (-1).
Proof.
  cbv zeta.
  destruct (create_heatmap_grid example_gui
              [(1, "1", "number"); (2, "2", "number"); (3, "Fizz", "Fizz");
               (4, "4", "number"); (5, "Buzz", "Buzz")]%string)
    as (g & grid & Hrun & Hg & Hlen & _ & Hcell).
  - discriminate.
  - reflexivity.
  - simpl in Hg.
    assert (g = 3%nat) as ->.
    { destruct g as [|[|[|[|g]]]]; simpl in Hg; lia. }
    exists grid. split; [exact Hrun|]. split; [exact Hlen|].
    split; [exact (Hcell 2%nat ltac:(simpl; lia))|].
    split; [exact (Hcell 4%nat ltac:(simpl; lia))|exact (Hcell 8%nat ltac:(simpl; lia))].
Defined.
